(** * A shallow embedding of the terminal text editor prototypes

    The repository holds two near-duplicate C++ prototypes of one editor:
    [src/tte.cpp] (module [Tte] below) and a later variant with
    [struct Buffer], [load_file], [init_screen]/[destroy_screen] and a status
    footer (module [Tte2] below).  Code that is textually the same in both
    files (the character classes, the [parse_*] scanners, [init], the decimal
    printers, the bodies of the UP and DOWN arrow cases) is embedded once.

    Conventions of the embedding
    - a [char] is a [Z]; the classes only compare against ASCII constants, so
      the signedness of [char] plays no role;
    - a buffer is the list of its initialised bytes, terminating NUL
      included; a read outside that list is undefined behaviour and makes
      the embedded function return [None];
    - a [char *] into the buffer is its offset ([nat]); [size_t] values are
      [Z] with the wrap-around modulo [2^64] written out;
    - [write], [printf] and the termios calls are recorded as a trace of
      [event]s; what the environment answers (the value of TERM, the file,
      the results of tcgetattr/tcsetattr, the chunks delivered by [read])
      is a [World];
    - [assert] is compiled in (NDEBUG is not defined): a failed [assert]
      aborts the process on the spot;
    - loops that always terminate get a fuel bound computed from the buffer
      and are proved to stay within it; the one loop that can spin forever
      takes its fuel as an argument. *)

From Stdlib Require Import ZArith List String Ascii Bool Lia.
From stdpp Require Import base option list.
Import ListNotations.
Local Open Scope Z_scope.

(** ** Characters *)

Abbreviation NUL := 0%Z (only parsing).
Abbreviation TAB := 9%Z (only parsing).
Abbreviation LF := 10%Z (only parsing).
Abbreviation CR := 13%Z (only parsing).
Abbreviation ESC := 27%Z (only parsing).
Abbreviation SPACE := 32%Z (only parsing).
Abbreviation DQUOTE := 34%Z (only parsing).
Abbreviation STAR := 42%Z (only parsing).
Abbreviation SLASH := 47%Z (only parsing).
Abbreviation LBRACKET := 91%Z (only parsing).
Abbreviation BACKSLASH := 92%Z (only parsing).
Abbreviation TILDE := 126%Z (only parsing).
Abbreviation DEL := 127%Z (only parsing).

(** The bytes of a string literal of the source, without its terminator. *)
Fixpoint bytes (s : string) : list Z :=
  match s with
  | EmptyString => []
  | String a s' => Z.of_N (N_of_ascii a) :: bytes s'
  end.

Definition is_latin (c : Z) : bool :=
  ((65 <=? c) && (c <=? 90)) || ((97 <=? c) && (c <=? 122)).

Definition is_digit (c : Z) : bool :=
  (48 <=? c) && (c <=? 57).

(** The loop condition of [parse_space]. *)
Definition is_space (c : Z) : bool :=
  (c =? SPACE) || (c =? LF) || (c =? CR) || (c =? TAB).

(** The condition of the punctuation branch of the highlighting loop:
    one of  ( ) { } [ ] = , ; * &  *)
Definition is_punct (c : Z) : bool :=
  (c =? 40) || (c =? 41) || (c =? 123) || (c =? 125) ||
  (c =? 91) || (c =? 93) || (c =? 61) || (c =? 44) || (c =? 59) ||
  (c =? 42) || (c =? 38).

(** ** The scanners

    Each [parse_*] takes the buffer and the offset [p] of the pointer, and
    returns the offset it stops at together with the bytes it passed to
    [write (1, ...)], in order.  The fuel of a scanner counts loop
    iterations; [S (length mem)] is never exhausted before a read leaves
    the buffer. *)

Definition scan_fuel (mem : list Z) : nat := S (length mem).

(** The loop shared by [parse_space], [parse_inline_comment],
    [parse_identifier] and [parse_num]:
    [while (cond (p[0])) write (1, p++, 1); return p;] *)
Fixpoint write_while (cond : Z -> bool) (fuel : nat) (mem : list Z) (p : nat)
  : option (nat * list Z) :=
  match fuel with
  | O => None
  | S fuel' =>
      c ← mem !! p;
      if cond c then
        '(q, out) ← write_while cond fuel' mem (S p);
        Some (q, c :: out)
      else Some (p, [])
  end.

Definition parse_space (mem : list Z) (p : nat) : option (nat * list Z) :=
  write_while is_space (scan_fuel mem) mem p.

Fixpoint parse_block_comment_loop (fuel : nat) (mem : list Z) (p : nat)
  : option (nat * list Z) :=
  match fuel with
  | O => None
  | S fuel' =>
      c ← mem !! p;
      if c =? NUL then Some (p, [])
      else if c =? STAR then
        c1 ← mem !! S p;
        if c1 =? SLASH then Some (S (S p), [c; c1])
        else
          '(q, out) ← parse_block_comment_loop fuel' mem (S p);
          Some (q, c :: out)
      else
        '(q, out) ← parse_block_comment_loop fuel' mem (S p);
        Some (q, c :: out)
  end.

Definition parse_block_comment (mem : list Z) (p : nat) :=
  parse_block_comment_loop (scan_fuel mem) mem p.

(** The loop condition of [parse_inline_comment]. *)
Definition in_line (c : Z) : bool :=
  negb (c =? NUL) && negb (c =? LF) && negb (c =? CR).

Definition parse_inline_comment (mem : list Z) (p : nat) :=
  write_while in_line (scan_fuel mem) mem p.

(** [p[-1]]: the byte before the pointer; undefined at offset 0. *)
Definition before (mem : list Z) (p : nat) : option Z :=
  match p with
  | O => None
  | S p' => mem !! p'
  end.

Fixpoint parse_string_literal_loop (fuel : nat) (mem : list Z) (p : nat)
  : option (nat * list Z) :=
  match fuel with
  | O => None
  | S fuel' =>
      c ← mem !! p;
      if c =? NUL then Some (p, [])
      else if c =? DQUOTE then
        prev ← before mem p;
        if negb (prev =? BACKSLASH) then Some (S p, [c])
        else
          '(q, out) ← parse_string_literal_loop fuel' mem (S p);
          Some (q, c :: out)
      else
        '(q, out) ← parse_string_literal_loop fuel' mem (S p);
        Some (q, c :: out)
  end.

Definition parse_string_literal (mem : list Z) (p : nat) :=
  parse_string_literal_loop (scan_fuel mem) mem p.

Definition parse_identifier (mem : list Z) (p : nat) :=
  write_while is_latin (scan_fuel mem) mem p.

Definition parse_num (mem : list Z) (p : nat) :=
  write_while is_digit (scan_fuel mem) mem p.

(** ** One step of the highlighting loop

    The loop in [main] of tte.cpp and the loop in [load_file] of the second
    prototype run the same chain of tests on [buffer_p[0]]; they differ only
    in its last [else].  [scan_token] is that chain up to the last [else]:
    it returns the kind of the span, the bytes written and the new pointer,
    or reports the byte that no test accepted. *)

Inductive SpanKind :=
| Whitespace | BlockComment | LineComment | StringLiteral
| Punctuation | Identifier | Number
| Literal. (* the lone '/' written as it is *)

(** What the loop sends to the terminal: the bytes of a span (between the
    escape sequences of its kind), or the "Unable to parse" message. *)
Inductive Emit :=
| Span (kind : SpanKind) (text : list Z)
| Diagnostic (c : Z).

Inductive Scanned :=
| Token (kind : SpanKind) (text : list Z) (next : nat)
| Unparsable (c : Z).

Definition scan_token (mem : list Z) (p : nat) : option Scanned :=
  c ← mem !! p;
  if c =? SLASH then
    c1 ← mem !! S p;
    if c1 =? STAR then
      '(q, out) ← parse_block_comment mem p; Some (Token BlockComment out q)
    else if c1 =? SLASH then
      '(q, out) ← parse_inline_comment mem p; Some (Token LineComment out q)
    else Some (Token Literal [c] (S p))
  else if c =? DQUOTE then
    '(q, out) ← parse_string_literal mem (S p);
    Some (Token StringLiteral (c :: out) q)
  else if is_punct c then Some (Token Punctuation [c] (S p))
  else if is_latin c then
    '(q, out) ← parse_identifier mem p; Some (Token Identifier out q)
  else if is_digit c then
    '(q, out) ← parse_num mem p; Some (Token Number out q)
  else Some (Unparsable c).

(** The bytes on which one of the tests of [scan_token] succeeds. *)
Definition starts_token (c : Z) : bool :=
  (c =? SLASH) || (c =? DQUOTE) || is_punct c || is_latin c || is_digit c.

(** The bytes [parse_space] wrote, as a span; nothing when it wrote none. *)
Definition ws_span (out : list Z) : list Emit :=
  match out with
  | [] => []
  | _ :: _ => [Span Whitespace out]
  end.

(** The text of the spans, in order. *)
Fixpoint span_text (es : list Emit) : list Z :=
  match es with
  | [] => []
  | Span _ text :: es' => text ++ span_text es'
  | Diagnostic _ :: es' => span_text es'
  end.

(** The bytes of the buffer seen as a C string: up to the first NUL. *)
Fixpoint cstring (mem : list Z) : list Z :=
  match mem with
  | [] => []
  | c :: mem' => if c =? NUL then [] else c :: cstring mem'
  end.

(** How a highlighting loop ended. *)
Inductive ScanEnd :=
| Finished            (* the loop reached the terminating NUL *)
| GaveUp              (* tte.cpp: [return 1] from [main] *)
| OutOfFuel.          (* the loop was still running when the fuel ran out *)

(** tte.cpp, lines 266-322. *)
Fixpoint highlight_loop (fuel : nat) (mem : list Z) (buffer_p : nat)
  : option (list Emit * ScanEnd) :=
  match fuel with
  | O => Some ([], OutOfFuel)
  | S fuel' =>
      c ← mem !! buffer_p;
      if c =? NUL then Some ([], Finished)
      else
        tok ← scan_token mem buffer_p;
        match tok with
        | Unparsable c' => Some ([Diagnostic c'], GaveUp)
        | Token kind text q =>
            '(q', ws) ← parse_space mem q;
            '(es, e) ← highlight_loop fuel' mem q';
            Some (Span kind text :: ws_span ws ++ es, e)
        end
  end.

Definition highlight (fuel : nat) (mem : list Z) : option (list Emit * ScanEnd) :=
  '(p0, ws) ← parse_space mem 0%nat;
  '(es, e) ← highlight_loop fuel mem p0;
  Some (ws_span ws ++ es, e).

(** The second prototype, [load_file], lines 316-372: the last [else]
    prints the message and falls through to [parse_space] with [buffer_p]
    where it was. *)
Fixpoint load_file_loop (fuel : nat) (mem : list Z) (buffer_p : nat)
  : option (list Emit * ScanEnd) :=
  match fuel with
  | O => Some ([], OutOfFuel)
  | S fuel' =>
      c ← mem !! buffer_p;
      if c =? NUL then Some ([], Finished)
      else
        tok ← scan_token mem buffer_p;
        match tok with
        | Unparsable c' =>
            '(q', ws) ← parse_space mem buffer_p;
            '(es, e) ← load_file_loop fuel' mem q';
            Some (Diagnostic c' :: ws_span ws ++ es, e)
        | Token kind text q =>
            '(q', ws) ← parse_space mem q;
            '(es, e) ← load_file_loop fuel' mem q';
            Some (Span kind text :: ws_span ws ++ es, e)
        end
  end.

Definition load_file_highlight (fuel : nat) (mem : list Z)
  : option (list Emit * ScanEnd) :=
  '(p0, ws) ← parse_space mem 0%nat;
  '(es, e) ← load_file_loop fuel mem p0;
  Some (ws_span ws ++ es, e).

(** ** What the program does to the outside

    A run is observed as the list of its calls that act on the terminal or
    on a stream.  Formatted output is kept symbolic: one constructor of
    [fmt] per format string of the source, with its arguments. *)

Inductive fmt :=
| Fmt_bytes_read (n : Z)              (* bytes_read: %ld\n *)
| Fmt_key (c : Z)                     (* key: %d (%c)\n *)
| Fmt_unable_to_parse (c : Z)         (* \nError: Unable to parse %d ('%c')\n *)
| Fmt_footer_start (ws_row : Z)       (* \e[%u;1H\e[7m *)
| Fmt_cursor (row col : Z)            (* \e[0m\e[%lu;%luH *)
| Fmt_status (ws_col ws_row : Z) (input : list Z).
    (* Size: %ux%u; Status: and, between quotes, the bytes read, each
       printed with %c or \\x%x *)

Inductive tc_action := TCSANOW | TCSADRAIN.

(** The two flag words of [struct termios] that the program touches. *)
Record termios := { c_iflag : Z; c_lflag : Z }.

(** The flag masks of <termios.h>, which the repository does not define. *)
Record termios_masks := { ICANON : Z; ECHO : Z; IXON : Z; IXOFF : Z }.

Inductive event :=
| Ev_write (fd : Z) (data : list Z)
| Ev_printf (call : fmt)
| Ev_write_line (line_buffer : list fmt) (ws_col : Z)
    (* [write (1, line_buffer, ws_col)], [line_buffer] padded with '-' *)
| Ev_tcgetattr
| Ev_tcsetattr (action : tc_action) (attrs : termios).

(** The escape sequences and what they are written around.  The writes of
    one span, which the source issues byte by byte, are one [Ev_write]. *)
Definition style_on (kind : SpanKind) : list event :=
  match kind with
  | BlockComment => [Ev_write 1 (ESC :: bytes "[6m" ++ [NUL])]
  | LineComment => [Ev_write 1 (ESC :: bytes "[30m")]
  | StringLiteral => [Ev_write 1 (ESC :: bytes "[1;33m")]
  | Identifier => [Ev_write 1 (ESC :: bytes "[1;34m")]
  | _ => []
  end.

Definition style_off (kind : SpanKind) : list event :=
  match kind with
  | BlockComment | LineComment | StringLiteral | Identifier =>
      [Ev_write 1 (ESC :: bytes "[m")]
  | _ => []
  end.

Definition render (e : Emit) : list event :=
  match e with
  | Span kind text => style_on kind ++ [Ev_write 1 text] ++ style_off kind
  | Diagnostic c => [Ev_printf (Fmt_unable_to_parse c)]
  end.

(** ** [size_t] and the decimal printers *)

Definition wrap (z : Z) : Z := z mod 2 ^ 64.

(** [buffer[i]] for a [size_t] index. *)
Definition at_index (mem : list Z) (i : Z) : option Z :=
  if i <? 0 then None else mem !! Z.to_nat i.

(** The first loop of [u64_to_str]: the digits, least significant first.
    A 64-bit number has at most 20 of them. *)
Fixpoint u64_digits (fuel : nat) (num : Z) : list Z :=
  match fuel with
  | O => []
  | S fuel' =>
      if num >? 0 then
        let new_num := num / 10 in
        let digit := num - new_num * 10 in
        (digit + 48) :: u64_digits fuel' new_num
      else []
  end.

Definition u64_to_str (num : Z) : list Z :=
  if num =? 0 then [48] else rev (u64_digits 20 num).

(** The [s64] a [size_t] converts to. *)
Definition to_s64 (z : Z) : Z := if z <? 2 ^ 63 then z else z - 2 ^ 64.

Definition s64_to_str (num : Z) : list Z :=
  if num <? 0 then 45 :: u64_to_str (wrap (- num)) else u64_to_str num.

(** ** The UP and DOWN arrow cases

    The two files have the same code here up to the names of the two
    variables: [buffer_pos]/[buffer_line_pos] in tte.cpp are [y]/[x] in the
    second prototype.  Each function returns the new pair and the writes. *)

(** [while (buffer_pos > 0 && buffer[buffer_pos - 1] != '\n')] *)
Fixpoint up_loop (fuel : nat) (mem : list Z) (buffer_pos line_len : Z)
  : option (Z * Z) :=
  match fuel with
  | O => None
  | S fuel' =>
      if buffer_pos >? 0 then
        c ← at_index mem (wrap (buffer_pos - 1));
        if negb (c =? LF) then
          up_loop fuel' mem (wrap (buffer_pos - 1)) (wrap (line_len + 1))
        else Some (buffer_pos, line_len)
      else Some (buffer_pos, line_len)
  end.

(** The writes that move the terminal cursor [buffer_line_pos] columns to
    the right. *)
Definition cursor_right (buffer_line_pos : Z) : list event :=
  [Ev_write 1 (ESC :: bytes "[");
   Ev_write 1 (s64_to_str (to_s64 buffer_line_pos));
   Ev_write 1 (bytes "C")].

Definition key_up (mem : list Z) (buffer_pos buffer_line_pos : Z)
  : option (Z * Z * list event) :=
  if wrap (buffer_pos - buffer_line_pos) >? 0 then
    let buffer_pos1 := wrap (buffer_pos - wrap (buffer_line_pos + 1)) in
    '(buffer_pos2, line_len) ←
      up_loop (S (Z.to_nat buffer_pos1)) mem buffer_pos1 0;
    let buffer_line_pos' :=
      if line_len >? buffer_line_pos then buffer_line_pos else line_len in
    if buffer_line_pos' >? 0 then
      Some (wrap (buffer_pos2 + buffer_line_pos'), buffer_line_pos',
            Ev_write 1 (ESC :: bytes "[F") :: cursor_right buffer_line_pos')
    else
      Some (buffer_pos2, buffer_line_pos', [Ev_write 1 (ESC :: bytes "[F")])
  else Some (buffer_pos, buffer_line_pos, []).

(** [while (buffer[pos] && buffer[pos] != '\n') ++pos;] *)
Fixpoint down_eol (fuel : nat) (mem : list Z) (pos : Z) : option Z :=
  match fuel with
  | O => None
  | S fuel' =>
      c ← at_index mem pos;
      if negb (c =? NUL) && negb (c =? LF) then
        down_eol fuel' mem (wrap (pos + 1))
      else Some pos
  end.

(** The [for] loop of the DOWN case; returns [buffer_pos] and
    [buffer_line_pos] as they are when the loop is left. *)
Fixpoint down_col (fuel : nat) (mem : list Z)
         (buffer_pos line_pos buffer_line_pos : Z) : option (Z * Z) :=
  match fuel with
  | O => None
  | S fuel' =>
      if line_pos <? buffer_line_pos then
        c ← at_index mem buffer_pos;
        if (c =? NUL) || (c =? LF) then Some (buffer_pos, line_pos)
        else down_col fuel' mem (wrap (buffer_pos + 1)) (wrap (line_pos + 1))
                      buffer_line_pos
      else Some (buffer_pos, buffer_line_pos)
  end.

Definition key_down (mem : list Z) (buffer_pos buffer_line_pos : Z)
  : option (Z * Z * list event) :=
  pos ← down_eol (scan_fuel mem) mem buffer_pos;
  c ← at_index mem pos;
  if negb (c =? NUL) then
    '(buffer_pos', buffer_line_pos') ←
      down_col (scan_fuel mem) mem (wrap (pos + 1)) 0 buffer_line_pos;
    Some (buffer_pos', buffer_line_pos',
          Ev_write 1 (ESC :: bytes "[E") ::
          (if buffer_line_pos' >? 0 then cursor_right buffer_line_pos' else []))
  else Some (buffer_pos, buffer_line_pos, []).

(** ** The environment of a run *)

(** What a call of [read (0, input, 64)] returns: -1, or the bytes read. *)
Inductive read_result :=
| Read_error
| Read_bytes (input : list Z).

Definition bytes_read (r : read_result) : Z :=
  match r with
  | Read_error => -1
  | Read_bytes input => Z.of_nat (length input)
  end.

(** What one turn of the input loop gets from outside: the window size
    the TIOCGWINSZ ioctl reports (the second prototype asks for it, tte.cpp
    does not) and the outcome of the [read]. *)
Record turn := { ws_row : Z; ws_col : Z; input_read : read_result }.

Record World := {
  w_TERM : option (list Z);             (* getenv TERM; the C string *)
  w_argv : list (list Z);               (* argv, argv[0] first *)
  w_open : list Z -> option (list Z);   (* the file at a path, if it opens *)
  w_masks : termios_masks;
  w_tcgetattr : option termios;         (* None: tcgetattr fails *)
  w_tcsetattr : tc_action -> bool;      (* false: that tcsetattr fails *)
  w_stdin : list turn
}.

Definition argv0 (w : World) : list Z := nth 0 (w_argv w) [].

(** How a run ends. *)
Inductive Exit :=
| Returned (status : Z)          (* [main] returned *)
| Assert_failed (what : string)  (* a failed [assert]: the process aborts *)
| Waiting                        (* blocked in [read]: no more turns *)
| Scanning.                      (* still inside the loop of [load_file] *)

(** How an input loop ends. *)
Inductive LoopEnd :=
| Loop_left                      (* [keep_running] was found 0 *)
| Loop_assert (what : string)    (* a failed [assert] in the body *)
| Loop_waiting.                  (* blocked in [read]: no more turns *)

(** One pass through the body of an input loop. *)
Inductive Step (state : Type) :=
| Continue (st : state)
| Abort (what : string).
Arguments Continue {state} st.
Arguments Abort {state} what.

(** The libc [strcmp] on the contents of two C strings; the C standard
    fixes only the sign of the result. *)
Fixpoint strcmp (a b : list Z) : Z :=
  match a, b with
  | [], [] => 0
  | [], _ :: _ => -1
  | _ :: _, [] => 1
  | c :: a', d :: b' =>
      if c =? d then strcmp a' b' else if c <? d then -1 else 1
  end.

(** [init], the same in both files: the result and the writes. *)
Definition init (exec_path : list Z) (term : option (list Z)) : bool * list event :=
  match term with
  | None =>
      (false,
       [Ev_write 2 exec_path;
        Ev_write 2 (bytes ": The environment variable TERM isn't set "
                    ++ bytes "- it should be set to `xterm'." ++ [LF])])
  | Some term =>
      if negb (strcmp term (bytes "xterm") =? 0)
         && negb (strcmp term (bytes "xterm-256color") =? 0) then
        (false,
         [Ev_write 2 exec_path;
          Ev_write 2 (bytes ": The environment variable TERM is set to `");
          Ev_write 2 term;
          Ev_write 2 (bytes "' - should be `xterm'." ++ [LF])])
      else (true, [])
  end.

(** [flags &= ~mask] *)
Definition clear_flag (flags mask : Z) : Z := Z.land flags (Z.lnot mask).

(** ** tte.cpp *)

Module Tte.

Record state := {
  buffer : list Z;          (* the initialised bytes of [buffer] *)
  buffer_size : Z;
  buffer_pos : Z;
  buffer_line_pos : Z;
  keep_running : Z
}.

Definition set_cursor (st : state) (pos line_pos : Z) : state :=
  {| buffer := buffer st; buffer_size := buffer_size st;
     buffer_pos := pos; buffer_line_pos := line_pos;
     keep_running := keep_running st |}.

Definition set_keep_running (st : state) (k : Z) : state :=
  {| buffer := buffer st; buffer_size := buffer_size st;
     buffer_pos := buffer_pos st; buffer_line_pos := buffer_line_pos st;
     keep_running := k |}.

(** [case 'C'], lines 433-441. *)
Definition key_right (st : state) : option (state * list event) :=
  c ← at_index (buffer st) (buffer_pos st);
  if negb (c =? NUL) && negb (c =? LF) then
    Some (set_cursor st (wrap (buffer_pos st + 1))
                        (wrap (buffer_line_pos st + 1)),
          [Ev_write 1 (ESC :: bytes "[C")])
  else Some (st, []).

(** [case 'D'], lines 442-450. *)
Definition key_left (st : state) : state * list event :=
  if buffer_line_pos st >? 0 then
    (set_cursor st (wrap (buffer_pos st - 1))
                   (wrap (buffer_line_pos st - 1)),
     [Ev_write 1 (ESC :: bytes "[D")])
  else (st, []).

(** The tests on the chunk, lines 351-457. *)
Definition dispatch (st : state) (r : read_result)
  : option (Step state * list event) :=
  match r with
  | Read_bytes [c] =>
      if c =? 1 then Some (Continue st, [])
      else if c =? ESC then Some (Continue (set_keep_running st 0), [])
      else if c =? DEL then Some (Continue st, [Ev_write 1 [8; SPACE; 8]])
      else Some (Continue st, [Ev_write 1 [c]])
  | Read_bytes [c0; c1; c2] =>
      if (c0 =? ESC) && (c1 =? LBRACKET) then
        if c2 =? 65 then
          '(pos, line_pos, evs) ←
            key_up (buffer st) (buffer_pos st) (buffer_line_pos st);
          Some (Continue (set_cursor st pos line_pos), evs)
        else if c2 =? 66 then
          '(pos, line_pos, evs) ←
            key_down (buffer st) (buffer_pos st) (buffer_line_pos st);
          Some (Continue (set_cursor st pos line_pos), evs)
        else if c2 =? 67 then
          '(st', evs) ← key_right st; Some (Continue st', evs)
        else if c2 =? 68 then
          let '(st', evs) := key_left st in Some (Continue st', evs)
        else Some (Abort "Unhandled escape key input", [])
      else Some (Abort "Unhandled key input", [])
  | _ => Some (Abort "Unhandled key input", [])
  end.

(** The body of the [while (keep_running)] loop, lines 342-457. *)
Definition iteration (st : state) (t : turn)
  : option (Step state * list event) :=
  let r := input_read t in
  let echo :=
    Ev_printf (Fmt_bytes_read (bytes_read r)) ::
    match r with
    | Read_error => []
    | Read_bytes input => map (fun c => Ev_printf (Fmt_key c)) input
    end in
  '(s, evs) ← dispatch st r;
  Some (s, echo ++ evs).

Fixpoint input_loop (turns : list turn) (st : state)
  : option (LoopEnd * state * list event) :=
  if keep_running st =? 0 then Some (Loop_left, st, [])
  else
    match turns with
    | [] => Some (Loop_waiting, st, [])
    | t :: turns' =>
        '(s, evs) ← iteration st t;
        match s with
        | Abort what => Some (Loop_assert what, st, evs)
        | Continue st' =>
            '(e, st'', evs') ← input_loop turns' st';
            Some (e, st'', evs ++ evs')
        end
    end.

(** Lines 247-258: the buffer [main] starts with, or the failed
    [assert].  The [read] is taken to succeed and to fill the 4095 bytes
    it asks for when the file has them. *)
Definition initial_buffer (w : World) : list Z + string :=
  match w_argv w with
  | [_; path] =>
      match w_open w path with
      | None => inr "file != -1"%string
      | Some content => inl (take 4095 content ++ [NUL])
      end
  | _ => inl [NUL]
  end.

(** Lines 328-331: the attributes [main] switches the terminal to. *)
Definition raw_attributes (m : termios_masks) (original : termios) : termios :=
  {| c_lflag := clear_flag (clear_flag (c_lflag original) (ICANON m)) (ECHO m);
     c_iflag := clear_flag (c_iflag original) (Z.lor (IXON m) (IXOFF m)) |}.

(** The state [main] enters the input loop with, lines 336-338. *)
Definition start (buf : list Z) : state :=
  {| buffer := buf; buffer_size := 4096;
     buffer_pos := 0; buffer_line_pos := 0; keep_running := 1 |}.

(** [main], lines 324-468, from [tcgetattr] on: how the run ends, the
    state it ends in once the input loop is reached, and the trace.  The
    calls that would give the terminal back are commented out in the
    source. *)
Definition edit (w : World) (buf : list Z)
  : option (Exit * option state * list event) :=
  match w_tcgetattr w with
  | None => Some (Assert_failed "!tcgetattr_error", None, [Ev_tcgetattr])
  | Some original =>
      let ev_raw :=
        [Ev_tcgetattr; Ev_tcsetattr TCSANOW (raw_attributes (w_masks w) original)] in
      if negb (w_tcsetattr w TCSANOW) then
        Some (Assert_failed "!tcsetattr_error", None, ev_raw)
      else
        '(e, st', evs) ← input_loop (w_stdin w) (start buf);
        let trace := ev_raw ++ [Ev_write 1 (ESC :: bytes "[H")] ++ evs in
        Some (match e with
              | Loop_left => Returned 0
              | Loop_assert what => Assert_failed what
              | Loop_waiting => Waiting
              end, Some st', trace)
  end.

(** [main], lines 242-469. *)
Definition main (w : World) : option (Exit * option state * list event) :=
  let '(ok, ev_init) := init (argv0 w) (w_TERM w) in
  if negb ok then Some (Returned 1, None, ev_init)
  else
    match initial_buffer w with
    | inr what => Some (Assert_failed what, None, ev_init)
    | inl buf =>
        let ev_save := [Ev_write 1 (ESC :: bytes "[?47h")] in
        '(es, e) ← highlight (scan_fuel buf) buf;
        let ev_scan := concat (map render es) in
        match e with
        | OutOfFuel => None
        | GaveUp => Some (Returned 1, None, ev_init ++ ev_save ++ ev_scan)
        | Finished =>
            '(e, st, evs) ← edit w buf;
            Some (e, st, ev_init ++ ev_save ++ ev_scan ++ evs)
        end
    end.

End Tte.

(** ** The second prototype *)

Module Tte2.

Record Buffer := {
  data : list Z;       (* the initialised bytes of [data] *)
  used : Z;
  size : Z
}.

(** [malloc] leaves the bytes uninitialised. *)
Definition new_buffer (size : Z) : Buffer :=
  {| data := []; used := 0; size := size |}.

(** How [load_file] ends: it returns the buffer, an [assert] fails, or
    its highlighting loop is still running when the fuel is spent. *)
Inductive Loaded :=
| Loaded_buffer (b : Buffer)
| Load_assert (what : string)
| Load_scanning.

(** [load_file], lines 298-375.  [fstat] and [read] are taken to succeed
    and [read] to return the whole file, as the asserts demand. *)
Definition load_file (fuel : nat) (w : World) (filepath : list Z)
  : option (Loaded * list event) :=
  match w_open w filepath with
  | None => Some (Load_assert "fd != -1", [])
  | Some content =>
      let st_size := Z.of_nat (length content) in
      let buffer := {| data := content ++ [NUL];
                       used := st_size + 1; size := st_size + 1 |} in
      '(es, e) ← load_file_highlight fuel (data buffer);
      match e with
      | Finished => Some (Loaded_buffer buffer, concat (map render es))
      | OutOfFuel => Some (Load_scanning, concat (map render es))
      | GaveUp => None
      end
  end.

(** Lines 273-276: the attributes [init_screen] switches the terminal to;
    unlike tte.cpp it leaves IXOFF alone. *)
Definition raw_attributes (m : termios_masks) (original : termios) : termios :=
  {| c_lflag := clear_flag (clear_flag (c_lflag original) (ICANON m)) (ECHO m);
     c_iflag := clear_flag (c_iflag original) (IXON m) |}.

(** [init_screen], lines 261-281: the saved attributes or the failed
    [assert], and the trace. *)
Definition init_screen (w : World) : (termios + string) * list event :=
  let ev_save := [Ev_write 1 [ESC; 55]; Ev_write 1 (ESC :: bytes "[?47h");
                  Ev_tcgetattr] in
  match w_tcgetattr w with
  | None => (inr "!tcgetattr_error"%string, ev_save)
  | Some original =>
      let ev_raw :=
        ev_save ++ [Ev_tcsetattr TCSANOW (raw_attributes (w_masks w) original)] in
      if negb (w_tcsetattr w TCSANOW) then (inr "!tcsetattr_error"%string, ev_raw)
      else (inl original, ev_raw)
  end.

(** [destroy_screen], lines 284-296: whether its [assert] holds, and the
    trace. *)
Definition destroy_screen (w : World) (original_terminal_attributes : termios)
  : bool * list event :=
  let ev_attr := [Ev_tcsetattr TCSADRAIN original_terminal_attributes] in
  if negb (w_tcsetattr w TCSADRAIN) then (false, ev_attr)
  else (true, ev_attr ++ [Ev_write 1 (ESC :: bytes "[?47l");
                          Ev_write 1 [ESC; 56]]).

Record state := {
  buffer : Buffer;
  x : Z;
  y : Z;
  keep_running : Z;
  line_buffer : list fmt
}.

Definition set_xy (st : state) (x' y' : Z) : state :=
  {| buffer := buffer st; x := x'; y := y';
     keep_running := keep_running st; line_buffer := line_buffer st |}.

Definition set_keep_running (st : state) (k : Z) : state :=
  {| buffer := buffer st; x := x st; y := y st;
     keep_running := k; line_buffer := line_buffer st |}.

Definition set_line_buffer (st : state) (l : list fmt) : state :=
  {| buffer := buffer st; x := x st; y := y st;
     keep_running := keep_running st; line_buffer := l |}.

(** [case 0x7f], lines 456-470. *)
Definition key_backspace (st : state) : state * list event :=
  if x st >? 0 then
    (set_xy st (wrap (x st - 1)) (y st),
     [Ev_write 1 (ESC :: bytes "[D"); Ev_write 1 [SPACE]])
  else if y st >? 0 then
    (set_xy st (x st) (wrap (y st - 1)), [Ev_write 1 (ESC :: bytes "[F")])
  else (st, []).

(** [case 'C'], lines 548-556: the test on the buffer is commented out. *)
Definition key_right (st : state) : state * list event :=
  (set_xy st (wrap (x st + 1)) (y st), [Ev_write 1 (ESC :: bytes "[C")]).

(** [case 'D'], lines 557-565. *)
Definition key_left (st : state) : state * list event :=
  if x st >? 0 then
    (set_xy st (wrap (x st - 1)) (y st), [Ev_write 1 (ESC :: bytes "[D")])
  else (st, []).

(** The tests on the chunk, lines 435-568.  There is no final [else]. *)
Definition dispatch (st : state) (input : list Z)
  : option (Step state * list event) :=
  match input with
  | [c] =>
      if (SPACE <=? c) && (c <=? TILDE) then
        Some (Continue (set_xy st (wrap (x st + 1)) (y st)),
              [Ev_write 1 [c]; Ev_write 1 (ESC :: bytes "[C")])
      else if c =? LF then
        Some (Continue (set_xy st 0 (wrap (y st + 1))),
              [Ev_write 1 (ESC :: bytes "[C")])
      else if c =? DEL then
        let '(st', evs) := key_backspace st in Some (Continue st', evs)
      else if (c =? 17) || (c =? ESC) then
        Some (Continue (set_keep_running st 0), [])
      else Some (Continue st, [])
  | [c0; c1; c2] =>
      if (c0 =? ESC) && (c1 =? LBRACKET) then
        if c2 =? 65 then
          '(y', x', evs) ← key_up (data (buffer st)) (y st) (x st);
          Some (Continue (set_xy st x' y'), evs)
        else if c2 =? 66 then
          '(y', x', evs) ← key_down (data (buffer st)) (y st) (x st);
          Some (Continue (set_xy st x' y'), evs)
        else if c2 =? 67 then
          let '(st', evs) := key_right st in Some (Continue st', evs)
        else if c2 =? 68 then
          let '(st', evs) := key_left st in Some (Continue st', evs)
        else Some (Abort "Unhandled escape key input", [])
      else Some (Continue st, [])
  | _ => Some (Continue st, [])
  end.

(** The body of the [while (keep_running)] loop, lines 398-568. *)
Definition iteration (st : state) (t : turn)
  : option (Step state * list event) :=
  let footer :=
    [Ev_printf (Fmt_footer_start (ws_row t));
     Ev_write_line (line_buffer st) (ws_col t);
     Ev_printf (Fmt_cursor (wrap (y st + 1)) (wrap (x st + 1)))] in
  match input_read t with
  | Read_error => Some (Abort "bytes_read != -1", footer)
  | Read_bytes input =>
      let st1 := set_line_buffer st [Fmt_status (ws_col t) (ws_row t) input] in
      '(s, evs) ← dispatch st1 input;
      Some (s, footer ++ evs)
  end.

Fixpoint input_loop (turns : list turn) (st : state)
  : option (LoopEnd * state * list event) :=
  if keep_running st =? 0 then Some (Loop_left, st, [])
  else
    match turns with
    | [] => Some (Loop_waiting, st, [])
    | t :: turns' =>
        '(s, evs) ← iteration st t;
        match s with
        | Abort what => Some (Loop_assert what, st, evs)
        | Continue st' =>
            '(e, st'', evs') ← input_loop turns' st';
            Some (e, st'', evs ++ evs')
        end
    end.

(** The state [main] enters the input loop with, lines 390-395. *)
Definition start (buf : Buffer) : state :=
  {| buffer := buf; x := 0; y := 0; keep_running := 1; line_buffer := [] |}.

(** [main], lines 387-573, from [init_screen] on. *)
Definition edit (w : World) (buf : Buffer)
  : option (Exit * option state * list event) :=
  match init_screen w with
  | (inr what, ev_screen) => Some (Assert_failed what, None, ev_screen)
  | (inl original_terminal_attributes, ev_screen) =>
      '(e, st', evs) ← input_loop (w_stdin w) (start buf);
      let trace := ev_screen ++ [Ev_write 1 (ESC :: bytes "[H")] ++ evs in
      match e with
      | Loop_assert what => Some (Assert_failed what, Some st', trace)
      | Loop_waiting => Some (Waiting, Some st', trace)
      | Loop_left =>
          let '(ok, ev_destroy) := destroy_screen w original_terminal_attributes in
          Some (if ok then Returned 0 else Assert_failed "!tcsetattr_error",
                Some st', trace ++ ev_destroy)
      end
  end.

(** [main], lines 378-574; [fuel] bounds the loop of [load_file]. *)
Definition main (fuel : nat) (w : World)
  : option (Exit * option state * list event) :=
  let '(ok, ev_init) := init (argv0 w) (w_TERM w) in
  if negb ok then Some (Returned 1, None, ev_init)
  else
    match w_argv w with
    | [_; path] =>
        '(l, ev_load) ← load_file fuel w path;
        match l with
        | Load_assert what => Some (Assert_failed what, None, ev_init ++ ev_load)
        | Load_scanning => Some (Scanning, None, ev_init ++ ev_load)
        | Loaded_buffer buf =>
            '(e, st, evs) ← edit w buf;
            Some (e, st, ev_init ++ ev_load ++ evs)
        end
    | _ =>
        '(e, st, evs) ← edit w (new_buffer 4096);
        Some (e, st, ev_init ++ evs)
    end.

End Tte2.

(** ** Vocabulary of the statements *)

(** [nul_at mem n]: the first NUL of the buffer is at offset [n]. *)
Definition nul_at (mem : list Z) (n : nat) : Prop :=
  mem !! n = Some NUL /\
  forall i c, (i < n)%nat -> mem !! i = Some c -> c <> NUL.

(** [line mem s e]: the bytes at the offsets [s .. e-1] form one line of
    the buffer, which starts at [s] (the buffer starts there, or the byte
    before is a newline) and is ended at [e] by a newline or by the NUL. *)
Definition line (mem : list Z) (s e : Z) : Prop :=
  0 <= s <= e /\
  (s = 0 \/ at_index mem (s - 1) = Some LF) /\
  (forall i, s <= i < e ->
             exists c, at_index mem i = Some c /\ c <> NUL /\ c <> LF) /\
  (exists c, at_index mem e = Some c /\ (c = NUL \/ c = LF)).

(** The three bytes an arrow key sends: ESC [ and a final byte. *)
Definition arrow (final : Z) : list Z := [ESC; LBRACKET; final].

(** A turn of the input loop that delivers the chunk [input], on a window
    of 24 rows and 80 columns. *)
Definition chunk (input : list Z) : turn :=
  {| ws_row := 24; ws_col := 80; input_read := Read_bytes input |}.

(** [k] turns, each delivering the one byte DEL (the Backspace key). *)
Definition backspaces (k : nat) : list turn := repeat (chunk [DEL]) k.

(** An event that is a write to the error stream. *)
Definition to_stderr (e : event) : Prop := exists data, e = Ev_write 2 data.

(** The events by which [destroy_screen] gives the terminal back. *)
Definition restores_attributes (e : event) : bool :=
  match e with
  | Ev_tcsetattr TCSADRAIN _ => true
  | _ => false
  end.

Definition restores_screen (e : event) : bool :=
  match e with
  | Ev_write fd data => (fd =? 1) && bool_decide (data = ESC :: bytes "[?47l")
  | _ => false
  end.

(** An event that gives nothing back to the terminal. *)
Definition quiet (e : event) : Prop :=
  restores_attributes e = false /\ restores_screen e = false.

(** The first byte of a text, if it has one, is not ESC. *)
Definition no_escape (text : list Z) : Prop :=
  match text with
  | [] => True
  | c :: _ => c <> ESC
  end.

(** How many events of a trace satisfy [f]. *)
Definition count (f : event -> bool) (trace : list event) : nat :=
  length (filter (fun e => f e = true) trace).

(** A world for the examples: TERM is xterm, no file is named, the termios
    calls succeed, and the terminal delivers the given chunks. *)
Definition example_world (chunks : list (list Z)) : World :=
  {| w_TERM := Some (bytes "xterm");
     w_argv := [bytes "tte"];
     w_open := fun _ => None;
     w_masks := {| ICANON := 2; ECHO := 8; IXON := 1024; IXOFF := 4096 |};
     w_tcgetattr := Some {| c_iflag := 1280; c_lflag := 11 |};
     w_tcsetattr := fun _ => true;
     w_stdin := map chunk chunks |}.

(** The decoder as section 4.2 of the specification words it, rules 1 to 6
    in order.  The source has no such function: its input loops test the
    chunk in place ([Tte.dispatch], [Tte2.dispatch]). *)
Module Spec.

Inductive KeyEvent :=
| Char (byte : Z) | Enter | Backspace | Quit
| ArrowUp | ArrowDown | ArrowLeft | ArrowRight
| Unrecognized (raw : list Z).

Definition decode (input : list Z) : KeyEvent :=
  match input with
  | [c] =>
      if (32 <=? c) && (c <=? 126) then Char c
      else if c =? LF then Enter
      else if c =? DEL then Backspace
      else if (c =? ESC) || (c =? 17) then Quit
      else Unrecognized input
  | [c0; c1; c2] =>
      if (c0 =? ESC) && (c1 =? LBRACKET) then
        if c2 =? 65 then ArrowUp
        else if c2 =? 66 then ArrowDown
        else if c2 =? 67 then ArrowRight
        else if c2 =? 68 then ArrowLeft
        else Unrecognized input
      else Unrecognized input
  | _ => Unrecognized input
  end.

End Spec.

(** [on_line mem n pos col]: the cursor [pos] is on a line of the C string
    of the buffer (whose NUL is at offset [n]), [col] bytes after the start
    of that line.  This is the relation tte.cpp keeps between [buffer_pos]
    and [buffer_line_pos]. *)
Definition on_line (mem : list Z) (n : nat) (pos col : Z) : Prop :=
  exists s e, line mem s e /\ e <= Z.of_nat n /\
              pos = s + col /\ 0 <= col /\ pos <= e.

(** The state of tte.cpp is sound: it holds the buffer [mem] and its cursor
    is on a line. *)
Definition Tte_ok (mem : list Z) (n : nat) (st : Tte.state) : Prop :=
  Tte.buffer st = mem /\
  on_line mem n (Tte.buffer_pos st) (Tte.buffer_line_pos st).


(** [longest_run cond mem p res]: the scanner returned [res = Some (q, out)]
    where [out] is the bytes at [p .. q-1], all of them in the class
    [cond], and the byte at [q] is not in it. *)
Definition longest_run (cond : Z -> bool) (mem : list Z) (p : nat)
           (res : option (nat * list Z)) : Prop :=
  exists q out, res = Some (q, out) /\ (p <= q)%nat /\
                take p mem ++ out = take q mem /\
                forallb cond out = true /\
                exists c, mem !! q = Some c /\ cond c = false.

Definition nonempty_all (cond : Z -> bool) (text : list Z) : bool :=
  match text with
  | [] => false
  | _ :: _ => forallb cond text
  end.

(** The text of a span fits its kind. *)
Definition span_ok (e : Emit) : bool :=
  match e with
  | Span Whitespace text => nonempty_all is_space text
  | Span Identifier text => nonempty_all is_latin text
  | Span Number text => nonempty_all is_digit text
  | Span Punctuation text =>
      match text with [c] => is_punct c | _ => false end
  | Span Literal text =>
      match text with [c] => c =? SLASH | _ => false end
  | Span LineComment text =>
      match text with
      | c0 :: c1 :: rest => (c0 =? SLASH) && (c1 =? SLASH) && forallb in_line rest
      | _ => false
      end
  | Span BlockComment text =>
      match text with
      | c0 :: c1 :: _ => (c0 =? SLASH) && (c1 =? STAR)
      | _ => false
      end
  | Span StringLiteral text =>
      match text with c0 :: _ => c0 =? DQUOTE | _ => false end
  | Diagnostic c => negb (starts_token c)
  end.

(** The two bytes at [i] and [i+1] are the end of a block comment. *)
Definition closes (mem : list Z) (i : nat) : Prop :=
  mem !! i = Some STAR /\ mem !! S i = Some SLASH.

(** The byte at [i] is a double quote and the byte before it is no
    backslash. *)
Definition closing_quote (mem : list Z) (i : nat) : Prop :=
  mem !! i = Some DQUOTE /\
  exists prev, before mem i = Some prev /\ prev <> BACKSLASH.

(** The number a string of decimal digits denotes. *)
Definition decimal_value (digits : list Z) : Z :=
  fold_left (fun acc d => 10 * acc + (d - 48)) digits 0.

(** A turn that delivers a byte on which the loop clears [keep_running]:
    ESC in tte.cpp; ESC or Ctrl-Q in the second prototype. *)
Definition Tte_quits (t : turn) : Prop := input_read t = Read_bytes [ESC].

Definition Tte2_quits (t : turn) : Prop :=
  input_read t = Read_bytes [ESC] \/ input_read t = Read_bytes [17].

(** A turn that delivers the UP or the DOWN arrow. *)
Definition vertical (t : turn) : Prop :=
  input_read t = Read_bytes (arrow 65) \/ input_read t = Read_bytes (arrow 66).

(** [moves_cursor first col evs]: the writes [evs] are the escape sequence
    [first] and then, unless [col] is 0, the sequence ESC [ digits C that
    moves the terminal cursor right, with [col] for the digits. *)
Definition moves_cursor (first : list Z) (col : Z) (evs : list event) : Prop :=
  (col = 0 /\ evs = [Ev_write 1 first]) \/
  (0 < col /\
   exists digits,
     evs = [Ev_write 1 first; Ev_write 1 (ESC :: bytes "[");
            Ev_write 1 digits; Ev_write 1 (bytes "C")] /\
     forallb is_digit digits = true /\ decimal_value digits = col).

(** The bytes a trace passes to [write] on the descriptor [fd], in order. *)
Definition written (fd : Z) (trace : list event) : list Z :=
  flat_map (fun e => match e with
                     | Ev_write fd' data => if fd' =? fd then data else []
                     | _ => []
                     end) trace.
(** * Proofs *)

(** ** NUL-terminated buffers *)

Lemma cstring_take (mem : list Z) :
  take (length (cstring mem)) mem = cstring mem.
Proof.
  induction mem as [|c mem IH]; simpl; [reflexivity|].
  destruct (c =? NUL); simpl; [reflexivity|]. now rewrite IH.
Qed.

Lemma nul_at_cstring (mem : list Z) :
  In NUL mem -> nul_at mem (length (cstring mem)).
Proof.
  induction mem as [|c mem IH]; simpl; [tauto|].
  intros Hin. destruct (Z.eqb_spec c NUL) as [->|Hc]; simpl.
  - split; [reflexivity|]. intros i c' Hi. lia.
  - destruct Hin as [Hin|Hin]; [congruence|].
    destruct (IH Hin) as [H0 Hlt]. split; [exact H0|].
    intros [|i] c' Hi Hl; simpl in Hl.
    + congruence.
    + apply (Hlt i c'); [lia|exact Hl].
Qed.

Section Scanners.
Variables (mem : list Z) (n : nat).
Hypothesis Hnul : nul_at mem n.

Lemma nul_at_read (i : nat) :
  (i <= n)%nat -> exists c, mem !! i = Some c /\ (c = NUL <-> i = n).
Proof.
  intros Hi. destruct Hnul as [H0 Hlt].
  assert (Hlen : (i < length mem)%nat).
  { apply lookup_lt_Some in H0. lia. }
  destruct (lookup_lt_is_Some_2 mem i Hlen) as [c Hc].
  exists c. split; [exact Hc|]. split.
  - intros ->. destruct (Nat.eq_dec i n) as [|Hne]; [assumption|].
    exfalso. apply (Hlt i NUL); [lia|exact Hc|reflexivity].
  - intros ->. congruence.
Qed.

Lemma write_while_spec (cond : Z -> bool) (Hcond : cond NUL = false)
      (fuel : nat) (p : nat) :
  (p <= n)%nat -> (n - p < fuel)%nat ->
  exists q out, write_while cond fuel mem p = Some (q, out) /\
                (p <= q <= n)%nat /\ take p mem ++ out = take q mem /\
                (exists c, mem !! q = Some c /\ cond c = false) /\
                (forall c, mem !! p = Some c -> cond c = true -> (p < q)%nat).
Proof.
  revert p. induction fuel as [|fuel IH]; intros p Hp Hf; [lia|].
  destruct (nul_at_read p Hp) as (c & Hc & Hc0). simpl. rewrite Hc. simpl.
  destruct (cond c) eqn:Hcc.
  - assert (p <> n).
    { intros ->. assert (c = NUL) by (apply Hc0; reflexivity). congruence. }
    destruct (IH (S p)) as (q & out & -> & Hq & Ht & Hstop & _); [lia|lia|].
    exists q, (c :: out). simpl. split; [reflexivity|]. split; [lia|].
    split; [|split; [exact Hstop|intros; lia]].
    rewrite <- Ht, (take_S_r _ _ _ Hc), <- app_assoc. reflexivity.
  - exists p, []. split; [reflexivity|]. split; [lia|].
    split; [apply app_nil_r|]. split; [exists c; auto|].
    intros c' Hc'. congruence.
Qed.

Lemma scan_fuel_enough (p : nat) : (n - p < scan_fuel mem)%nat.
Proof.
  destruct Hnul as [H0 _]. apply lookup_lt_Some in H0.
  unfold scan_fuel. lia.
Qed.

Lemma parse_block_comment_loop_spec (fuel : nat) (p : nat) :
  (p <= n)%nat -> (n - p < fuel)%nat ->
  exists q out, parse_block_comment_loop fuel mem p = Some (q, out) /\
                (p <= q <= n)%nat /\ take p mem ++ out = take q mem /\
                (p < n -> p < q)%nat.
Proof.
  revert p. induction fuel as [|fuel IH]; intros p Hp Hf; [lia|].
  destruct (nul_at_read p Hp) as (c & Hc & Hc0). simpl. rewrite Hc. simpl.
  destruct (Z.eqb_spec c NUL) as [Hz|Hz].
  { exists p, []. split; [reflexivity|]. split; [lia|].
    split; [apply app_nil_r|]. apply Hc0 in Hz. lia. }
  assert (p <> n) by tauto.
  assert (Hrec : exists q out,
    (parse_block_comment_loop fuel mem (S p) ≫= λ '(q, out), Some (q, c :: out))
      = Some (q, out) /\
    (p <= q <= n)%nat /\ take p mem ++ out = take q mem /\ (p < n -> p < q)%nat).
  { destruct (IH (S p)) as (q & out & -> & Hq & Ht & _); [lia|lia|].
    exists q, (c :: out). simpl. split; [reflexivity|]. split; [lia|].
    split; [|lia].
    rewrite <- Ht, (take_S_r _ _ _ Hc), <- app_assoc. reflexivity. }
  destruct (c =? STAR); [|exact Hrec].
  destruct (nul_at_read (S p)) as (c1 & Hc1 & Hc10); [lia|].
  rewrite Hc1. simpl.
  destruct (Z.eqb_spec c1 SLASH) as [Hs|Hs]; [|exact Hrec].
  assert (S p <> n) by (intros E; apply Hc10 in E; lia).
  exists (S (S p)), [c; c1]. split; [reflexivity|]. split; [lia|].
  split; [|lia].
  rewrite (take_S_r _ _ _ Hc1), (take_S_r _ _ _ Hc), <- app_assoc. reflexivity.
Qed.

Lemma parse_string_literal_loop_spec (fuel : nat) (p : nat) :
  (0 < p <= n)%nat -> (n - p < fuel)%nat ->
  exists q out, parse_string_literal_loop fuel mem p = Some (q, out) /\
                (p <= q <= n)%nat /\ take p mem ++ out = take q mem.
Proof.
  revert p. induction fuel as [|fuel IH]; intros p Hp Hf; [lia|].
  destruct (nul_at_read p) as (c & Hc & Hc0); [lia|]. simpl. rewrite Hc. simpl.
  destruct (Z.eqb_spec c NUL) as [Hz|Hz].
  { exists p, []. split; [reflexivity|]. split; [lia|]. apply app_nil_r. }
  assert (p <> n) by tauto.
  assert (Hrec : exists q out,
    (parse_string_literal_loop fuel mem (S p) ≫= λ '(q, out), Some (q, c :: out))
      = Some (q, out) /\
    (p <= q <= n)%nat /\ take p mem ++ out = take q mem).
  { destruct (IH (S p)) as (q & out & -> & Hq & Ht); [lia|lia|].
    exists q, (c :: out). simpl. split; [reflexivity|]. split; [lia|].
    rewrite <- Ht, (take_S_r _ _ _ Hc), <- app_assoc. reflexivity. }
  destruct (c =? DQUOTE); [|exact Hrec].
  destruct p as [|p']; [lia|]. simpl.
  destruct (nul_at_read p') as (c1 & Hc1 & _); [lia|].
  rewrite Hc1. simpl.
  destruct (negb (c1 =? BACKSLASH)); [|exact Hrec].
  exists (S (S p')), [c]. split; [reflexivity|]. split; [lia|].
  rewrite (take_S_r _ _ _ Hc). reflexivity.
Qed.

Lemma scan_token_spec (p : nat) (c : Z) :
  (p < n)%nat -> mem !! p = Some c ->
  (starts_token c = false /\ scan_token mem p = Some (Unparsable c)) \/
  (starts_token c = true /\
   exists kind text q, scan_token mem p = Some (Token kind text q) /\
                       (p < q <= n)%nat /\ take p mem ++ text = take q mem).
Proof.
  intros Hp Hc. unfold scan_token, starts_token. rewrite Hc. simpl.
  assert (Hone : take p mem ++ [c] = take (S p) mem)
    by (now rewrite (take_S_r _ _ _ Hc)).
  destruct (Z.eqb_spec c SLASH) as [Hs|Hs].
  { right. split; [reflexivity|].
    destruct (nul_at_read (S p)) as (c1 & Hc1 & _); [lia|].
    rewrite Hc1. simpl.
    destruct (c1 =? STAR).
    - destruct (parse_block_comment_loop_spec (scan_fuel mem) p)
        as (q & out & Hr & Hq & Ht & Hlt); [lia|apply scan_fuel_enough|].
      unfold parse_block_comment. rewrite Hr. simpl.
      exists BlockComment, out, q. split; [reflexivity|]. split; [lia|exact Ht].
    - destruct (c1 =? SLASH).
      + destruct (write_while_spec in_line eq_refl (scan_fuel mem) p)
          as (q & out & Hr & Hq & Ht & _ & Hlt); [lia|apply scan_fuel_enough|].
        unfold parse_inline_comment. rewrite Hr. simpl.
        exists LineComment, out, q. split; [reflexivity|]. split; [|exact Ht].
        specialize (Hlt c Hc). subst c. specialize (Hlt eq_refl). lia.
      + exists Literal, [c], (S p). split; [reflexivity|]. split; [lia|exact Hone]. }
  destruct (Z.eqb_spec c DQUOTE) as [Hd|Hd].
  { right. split; [reflexivity|].
    destruct (parse_string_literal_loop_spec (scan_fuel mem) (S p))
      as (q & out & Hr & Hq & Ht); [lia|apply scan_fuel_enough|].
    unfold parse_string_literal. rewrite Hr. simpl.
    exists StringLiteral, (c :: out), q. split; [reflexivity|]. split; [lia|].
    rewrite <- Ht, <- Hone, <- app_assoc. reflexivity. }
  simpl. destruct (is_punct c).
  { right. split; [reflexivity|].
    exists Punctuation, [c], (S p). split; [reflexivity|]. split; [lia|exact Hone]. }
  simpl. destruct (is_latin c) eqn:Hl.
  { right. split; [reflexivity|].
    destruct (write_while_spec is_latin eq_refl (scan_fuel mem) p)
      as (q & out & Hr & Hq & Ht & _ & Hlt); [lia|apply scan_fuel_enough|].
    unfold parse_identifier. rewrite Hr. simpl.
    exists Identifier, out, q. split; [reflexivity|]. split; [|exact Ht].
    specialize (Hlt c Hc Hl). lia. }
  simpl. destruct (is_digit c) eqn:Hg.
  { right. split; [reflexivity|].
    destruct (write_while_spec is_digit eq_refl (scan_fuel mem) p)
      as (q & out & Hr & Hq & Ht & _ & Hlt); [lia|apply scan_fuel_enough|].
    unfold parse_num. rewrite Hr. simpl.
    exists Number, out, q. split; [reflexivity|]. split; [|exact Ht].
    specialize (Hlt c Hc Hg). lia. }
  left. split; reflexivity.
Qed.

Lemma parse_space_spec (p : nat) :
  (p <= n)%nat ->
  exists q ws, parse_space mem p = Some (q, ws) /\ (p <= q <= n)%nat /\
               take p mem ++ span_text (ws_span ws) = take q mem /\
               (exists c, mem !! q = Some c /\ is_space c = false).
Proof.
  intros Hp.
  destruct (write_while_spec is_space eq_refl (scan_fuel mem) p)
    as (q & out & Hr & Hq & Ht & Hstop & _); [lia|apply scan_fuel_enough|].
  exists q, out. split; [exact Hr|]. split; [exact Hq|]. split; [|exact Hstop].
  destruct out; simpl; [exact Ht|]. rewrite app_nil_r. exact Ht.
Qed.
End Scanners.

Lemma span_text_app (es es' : list Emit) :
  span_text (es ++ es') = span_text es ++ span_text es'.
Proof.
  induction es as [|[k t|c] es IH]; simpl; [reflexivity| |exact IH].
  rewrite IH. apply app_assoc.
Qed.

(** ** The highlighting loops *)

Section Loops.
Variables (mem : list Z) (n : nat).
Hypothesis Hnul : nul_at mem n.

Lemma take_split_at (q : nat) (c : Z) :
  (q < n)%nat -> mem !! q = Some c ->
  exists rest, take n mem = take q mem ++ c :: rest.
Proof.
  intros Hq Hc. exists (drop (S q) (take n mem)).
  assert (Hc' : take n mem !! q = Some c) by (rewrite lookup_take_lt; auto).
  rewrite <- (take_drop_middle _ _ _ Hc') at 1.
  rewrite take_take. f_equal. f_equal. lia.
Qed.

(** The loop of tte.cpp never runs out of fuel [> n - p]: every
    iteration that does not leave the loop moves the pointer forward. *)
Lemma highlight_loop_total (fuel p : nat) :
  (p <= n)%nat -> (n - p < fuel)%nat ->
  exists es e, highlight_loop fuel mem p = Some (es, e) /\ e <> OutOfFuel.
Proof.
  revert p. induction fuel as [|fuel IH]; intros p Hp Hf; [lia|].
  destruct (nul_at_read mem n Hnul p Hp) as (c & Hc & Hc0).
  simpl. rewrite Hc. simpl.
  destruct (Z.eqb_spec c NUL) as [Hz|Hz].
  { exists [], Finished. split; [reflexivity|discriminate]. }
  assert (Hlt : (p < n)%nat) by (destruct (Nat.eq_dec p n); [tauto|lia]).
  destruct (scan_token_spec mem n Hnul p c Hlt Hc)
    as [[_ ->]|[_ (k & t & q & -> & Hq & Ht)]]; simpl.
  { exists [Diagnostic c], GaveUp. split; [reflexivity|discriminate]. }
  destruct (parse_space_spec mem n Hnul q) as (q' & ws & -> & Hq' & _); [lia|].
  simpl. destruct (IH q') as (es & e & -> & He); [lia|lia|].
  simpl. eexists _, e. split; [reflexivity|exact He].
Qed.

(** What the spans written by the loop of tte.cpp cover. *)
Lemma highlight_loop_sound (fuel p : nat) (es : list Emit) (e : ScanEnd) :
  (p <= n)%nat -> highlight_loop fuel mem p = Some (es, e) ->
  match e with
  | Finished => take p mem ++ span_text es = take n mem
  | GaveUp => exists es0 c rest,
      es = es0 ++ [Diagnostic c] /\ starts_token c = false /\
      take n mem = take p mem ++ span_text es0 ++ c :: rest
  | OutOfFuel => True
  end.
Proof.
  revert p es e. induction fuel as [|fuel IH]; intros p es e Hp; simpl.
  { intros [= <- <-]. exact I. }
  destruct (nul_at_read mem n Hnul p Hp) as (c & Hc & Hc0).
  rewrite Hc. simpl.
  destruct (Z.eqb_spec c NUL) as [Hz|Hz].
  { intros [= <- <-]. simpl. rewrite app_nil_r.
    apply Hc0 in Hz. now subst. }
  assert (Hlt : (p < n)%nat) by (destruct (Nat.eq_dec p n); [tauto|lia]).
  destruct (scan_token_spec mem n Hnul p c Hlt Hc)
    as [[Hst ->]|[_ (k & t & q & -> & Hq & Ht)]]; simpl.
  { intros [= <- <-]. exists [], c.
    destruct (take_split_at p c Hlt Hc) as [rest Hrest].
    exists rest. split; [reflexivity|]. split; [exact Hst|exact Hrest]. }
  destruct (parse_space_spec mem n Hnul q) as (q' & ws & -> & Hq' & Hws & _); [lia|].
  simpl. destruct (highlight_loop fuel mem q') as [[es' e']|] eqn:Hrec;
    simpl; [|discriminate].
  intros [= <- <-]. specialize (IH q' es' e' ltac:(lia) Hrec).
  assert (Hpre : forall l, take p mem ++ t ++ span_text (ws_span ws) ++ l
                           = take q' mem ++ l).
  { intros l. rewrite <- Hws, <- Ht, <- !app_assoc. reflexivity. }
  destruct e'; [| |exact I].
  - simpl. rewrite span_text_app, Hpre. exact IH.
  - destruct IH as (es0 & c' & rest & -> & Hst & Hrest).
    exists (Span k t :: ws_span ws ++ es0), c', rest.
    split; [now rewrite app_assoc|]. split; [exact Hst|].
    simpl. rewrite span_text_app, <- !app_assoc, Hpre. exact Hrest.
Qed.

(** The loop of [load_file]: if it returns, its spans cover the string. *)
Lemma load_file_loop_sound (fuel p : nat) (es : list Emit) :
  (p <= n)%nat -> load_file_loop fuel mem p = Some (es, Finished) ->
  take p mem ++ span_text es = take n mem.
Proof.
  revert p es. induction fuel as [|fuel IH]; intros p es Hp; simpl.
  { discriminate. }
  destruct (nul_at_read mem n Hnul p Hp) as (c & Hc & Hc0).
  rewrite Hc. simpl.
  destruct (Z.eqb_spec c NUL) as [Hz|Hz].
  { intros [= <-]. simpl. rewrite app_nil_r. apply Hc0 in Hz. now subst. }
  assert (Hlt : (p < n)%nat) by (destruct (Nat.eq_dec p n); [tauto|lia]).
  destruct (scan_token_spec mem n Hnul p c Hlt Hc)
    as [[Hst ->]|[_ (k & t & q & -> & Hq & Ht)]]; simpl.
  - destruct (parse_space_spec mem n Hnul p) as (q' & ws & -> & Hq' & Hws & _); [lia|].
    simpl. destruct (load_file_loop fuel mem q') as [[es' e']|] eqn:Hrec;
      simpl; [|discriminate].
    intros [= <- ->]. simpl. rewrite span_text_app, app_assoc, Hws.
    apply IH; [lia|exact Hrec].
  - destruct (parse_space_spec mem n Hnul q) as (q' & ws & -> & Hq' & Hws & _); [lia|].
    simpl. destruct (load_file_loop fuel mem q') as [[es' e']|] eqn:Hrec;
      simpl; [|discriminate].
    intros [= <- ->]. simpl.
    rewrite span_text_app, !app_assoc, Ht, Hws.
    apply IH; [lia|exact Hrec].
Qed.

(** When every byte of the string belongs to a lexical class, both loops
    reach the end, and they write the same spans. *)
Hypothesis Hclass : forall q c, (q < n)%nat -> mem !! q = Some c ->
                                is_space c || starts_token c = true.

Lemma loops_finish (fuel p : nat) :
  (p <= n)%nat -> (n - p < fuel)%nat ->
  (exists c, mem !! p = Some c /\ is_space c = false) ->
  exists es, highlight_loop fuel mem p = Some (es, Finished) /\
             load_file_loop fuel mem p = Some (es, Finished).
Proof.
  revert p. induction fuel as [|fuel IH]; intros p Hp Hf (c & Hc & Hsp); [lia|].
  simpl. rewrite Hc. simpl.
  destruct (Z.eqb_spec c NUL) as [Hz|Hz].
  { exists []. split; reflexivity. }
  destruct (nul_at_read mem n Hnul p Hp) as (c' & Hc' & Hc0).
  assert (c' = c) by congruence. subst c'.
  assert (Hlt : (p < n)%nat) by (destruct (Nat.eq_dec p n); [tauto|lia]).
  specialize (Hclass p c Hlt Hc). rewrite Hsp in Hclass. simpl in Hclass.
  destruct (scan_token_spec mem n Hnul p c Hlt Hc)
    as [[Hst _]|[_ (k & t & q & -> & Hq & Ht)]]; [congruence|]. simpl.
  destruct (parse_space_spec mem n Hnul q) as (q' & ws & -> & Hq' & _ & Hstop); [lia|].
  simpl. destruct (IH q') as (es & -> & ->); [lia|lia|exact Hstop|].
  simpl. eexists. split; reflexivity.
Qed.
End Loops.

(** On a NUL-terminated buffer the highlighting of tte.cpp is defined and
    ends within [scan_fuel] iterations. *)
Lemma highlight_total (mem : list Z) :
  In NUL mem ->
  exists es e, highlight (scan_fuel mem) mem = Some (es, e) /\ e <> OutOfFuel.
Proof.
  intros Hin. pose proof (nul_at_cstring mem Hin) as Hnul.
  set (n := length (cstring mem)) in *.
  destruct (parse_space_spec mem n Hnul 0%nat)
    as (p0 & ws & Hsp & Hp0 & _); [lia|].
  destruct (highlight_loop_total mem n Hnul (scan_fuel mem) p0)
    as (es & e & Hl & He); [lia|apply (scan_fuel_enough mem n Hnul)|].
  unfold highlight. rewrite Hsp. cbn [mbind option_bind]. rewrite Hl.
  eexists _, e. split; [reflexivity|exact He].
Qed.

(** A byte that starts no token and is no white space stops the loop of
    [load_file] for good: the pointer stays on it. *)
Lemma scan_token_unparsable (mem : list Z) (p : nat) (c : Z) :
  mem !! p = Some c -> starts_token c = false ->
  scan_token mem p = Some (Unparsable c).
Proof.
  intros Hc Hst. unfold scan_token. rewrite Hc. simpl.
  unfold starts_token in Hst.
  repeat (apply orb_false_iff in Hst; destruct Hst as [Hst ?]).
  rewrite Hst. repeat match goal with H : _ = false |- _ => rewrite H end.
  reflexivity.
Qed.

Lemma parse_space_stays (mem : list Z) (p : nat) (c : Z) :
  mem !! p = Some c -> is_space c = false -> parse_space mem p = Some (p, []).
Proof.
  intros Hc Hsp. unfold parse_space, scan_fuel. simpl.
  rewrite Hc. simpl. rewrite Hsp. reflexivity.
Qed.

Lemma load_file_loop_stuck (mem : list Z) (p : nat) (c : Z) (fuel : nat) :
  mem !! p = Some c -> c <> NUL -> is_space c = false -> starts_token c = false ->
  load_file_loop fuel mem p = Some (repeat (Diagnostic c) fuel, OutOfFuel).
Proof.
  intros Hc Hz Hsp Hst. induction fuel as [|fuel IH]; [reflexivity|].
  simpl. rewrite Hc. simpl.
  destruct (Z.eqb_spec c NUL) as [|_]; [contradiction|].
  rewrite (scan_token_unparsable mem p c Hc Hst). simpl.
  rewrite (parse_space_stays mem p c Hc Hsp). simpl.
  rewrite IH. reflexivity.
Qed.

Lemma highlight_loop_gives_up (mem : list Z) (p : nat) (c : Z) (fuel : nat) :
  mem !! p = Some c -> c <> NUL -> starts_token c = false ->
  highlight_loop (S fuel) mem p = Some ([Diagnostic c], GaveUp).
Proof.
  intros Hc Hz Hst. simpl. rewrite Hc. simpl.
  destruct (Z.eqb_spec c NUL) as [|_]; [contradiction|].
  rewrite (scan_token_unparsable mem p c Hc Hst). reflexivity.
Qed.


(** The loop of [load_file] has no way out but the terminating NUL. *)
Lemma load_file_loop_never_gives_up (fuel : nat) (mem : list Z) (p : nat)
      (es : list Emit) (e : ScanEnd) :
  load_file_loop fuel mem p = Some (es, e) -> e <> GaveUp.
Proof.
  revert p es e. induction fuel as [|fuel IH]; intros p es e; simpl.
  - intros [= _ <-]. discriminate.
  - destruct (mem !! p) as [c|]; simpl; [|discriminate].
    destruct (c =? NUL); [intros [= _ <-]; discriminate|].
    destruct (scan_token mem p) as [[kind text q|c']|]; simpl; [| |discriminate].
    + destruct (parse_space mem q) as [[q' ws]|]; simpl; [|discriminate].
      destruct (load_file_loop fuel mem q') as [[es' e']|] eqn:Hl; simpl;
        [|discriminate].
      intros [= _ <-]. now apply IH in Hl.
    + destruct (parse_space mem p) as [[q' ws]|]; simpl; [|discriminate].
      destruct (load_file_loop fuel mem q') as [[es' e']|] eqn:Hl; simpl;
        [|discriminate].
      intros [= _ <-]. now apply IH in Hl.
Qed.

(** ** The UP and DOWN cases *)

Lemma wrap_small (z : Z) : 0 <= z < 2 ^ 64 -> wrap z = z.
Proof. intros H. unfold wrap. now apply Z.mod_small. Qed.

Section Arrows.
Variable mem : list Z.

Lemma down_eol_spec (fuel : nat) (pos e : Z) :
  (forall i, pos <= i < e ->
             exists c, at_index mem i = Some c /\ c <> NUL /\ c <> LF) ->
  (exists c, at_index mem e = Some c /\ (c = NUL \/ c = LF)) ->
  0 <= pos <= e -> e < 2 ^ 64 -> (Z.to_nat (e - pos) < fuel)%nat ->
  down_eol fuel mem pos = Some e.
Proof.
  revert pos. induction fuel as [|fuel IH]; intros pos Hin Hend Hpos He Hf; [lia|].
  simpl. destruct (Z.eq_dec pos e) as [->|Hne].
  - destruct Hend as (c & -> & Hc). simpl.
    destruct Hc as [-> | ->]; reflexivity.
  - destruct (Hin pos) as (c & -> & Hc0 & Hc1); [lia|]. simpl.
    destruct (Z.eqb_spec c NUL); [contradiction|].
    destruct (Z.eqb_spec c LF); [contradiction|]. simpl.
    rewrite wrap_small by lia. apply IH; [|exact Hend|lia|lia|lia].
    intros i Hi. apply Hin. lia.
Qed.

(** The [for] loop stops after [min (col - k) (e - pos)] more steps. *)
Lemma down_col_spec (fuel : nat) (pos k col e : Z) :
  (forall i, pos <= i < e ->
             exists c, at_index mem i = Some c /\ c <> NUL /\ c <> LF) ->
  (exists c, at_index mem e = Some c /\ (c = NUL \/ c = LF)) ->
  0 <= pos <= e -> e < 2 ^ 64 -> 0 <= k -> col < 2 ^ 64 ->
  (Z.to_nat (e - pos) < fuel)%nat ->
  down_col fuel mem pos k col
  = Some (if k <? col then pos + Z.min (col - k) (e - pos) else pos,
          if k <? col then k + Z.min (col - k) (e - pos) else col).
Proof.
  revert pos k. induction fuel as [|fuel IH];
    intros pos k Hin Hend Hpos He Hk Hcol Hf; [lia|].
  simpl. destruct (Z.ltb_spec k col) as [Hlt|Hge]; [|reflexivity].
  destruct (Z.eq_dec pos e) as [->|Hne].
  - destruct Hend as (c & -> & Hc). simpl.
    replace (Z.min (col - k) (e - e)) with 0 by lia.
    rewrite !Z.add_0_r. destruct Hc as [-> | ->]; reflexivity.
  - destruct (Hin pos) as (c & -> & Hc0 & Hc1); [lia|]. simpl.
    destruct (Z.eqb_spec c NUL); [contradiction|].
    destruct (Z.eqb_spec c LF); [contradiction|]. simpl.
    rewrite !wrap_small by lia.
    rewrite IH; [|intros i Hi; apply Hin; lia|exact Hend|lia|lia|lia|lia|lia].
    destruct (Z.ltb_spec (k + 1) col); f_equal; f_equal; lia.
Qed.

Lemma up_loop_spec (fuel : nat) (pos len s : Z) :
  (forall i, s <= i < pos -> exists c, at_index mem i = Some c /\ c <> LF) ->
  (s = 0 \/ at_index mem (s - 1) = Some LF) ->
  0 <= s <= pos -> pos < 2 ^ 64 -> 0 <= len -> len + (pos - s) < 2 ^ 64 ->
  (Z.to_nat (pos - s) < fuel)%nat ->
  up_loop fuel mem pos len = Some (s, len + (pos - s)).
Proof.
  revert pos len. induction fuel as [|fuel IH];
    intros pos len Hin Hstart Hpos Hp Hlen Hsum Hf; [lia|].
  simpl. destruct (Z.eq_dec pos s) as [->|Hne].
  - replace (len + (s - s)) with len by lia.
    destruct (Z.gtb_spec s 0) as [Hgt|]; [|reflexivity].
    destruct Hstart as [->|Hs]; [lia|].
    rewrite wrap_small by lia. rewrite Hs. reflexivity.
  - destruct (Z.gtb_spec pos 0) as [Hgt|]; [|lia].
    rewrite wrap_small by lia.
    destruct (Hin (pos - 1)) as (c & -> & Hc); [lia|]. simpl.
    destruct (Z.eqb_spec c LF); [contradiction|]. simpl.
    rewrite wrap_small by lia.
    rewrite IH; [f_equal; f_equal; lia| |exact Hstart|lia|lia|lia|lia|lia].
    intros i Hi. apply Hin. lia.
Qed.

Lemma at_index_bound (i c : Z) :
  at_index mem i = Some c -> 0 <= i < Z.of_nat (length mem).
Proof.
  unfold at_index. destruct (Z.ltb_spec i 0); [discriminate|].
  intros Hl%lookup_lt_Some. lia.
Qed.

(** DOWN from anywhere on a line that a newline ends: the cursor goes to
    the next line, the column clamped to the length of that line. *)
Lemma key_down_spec (s1 e1 e2 pos col : Z) :
  line mem s1 e1 -> at_index mem e1 = Some LF -> line mem (e1 + 1) e2 ->
  e2 < 2 ^ 64 -> s1 <= pos <= e1 -> 0 <= col < 2 ^ 64 ->
  exists evs,
    key_down mem pos col
    = Some (e1 + 1 + Z.min col (e2 - (e1 + 1)), Z.min col (e2 - (e1 + 1)), evs).
Proof.
  intros (Hs1 & _ & Hin1 & Hend1) Hlf (Hs2 & _ & Hin2 & Hend2) He2 Hpos Hcol.
  pose proof (at_index_bound _ _ Hlf) as Hb1.
  destruct Hend2 as (t & Ht & Ht').
  pose proof (at_index_bound _ _ Ht) as Hb2.
  unfold key_down.
  rewrite (down_eol_spec (scan_fuel mem) pos e1);
    [|intros i Hi; apply Hin1; lia|exact Hend1|lia|lia|unfold scan_fuel; lia].
  cbn [mbind option_bind]. rewrite Hlf. cbn [mbind option_bind].
  change (negb (LF =? NUL)) with true. cbv iota.
  rewrite wrap_small by lia.
  rewrite (down_col_spec (scan_fuel mem) (e1 + 1) 0 col e2);
    [|exact Hin2|eauto|lia|lia|lia|lia|unfold scan_fuel; lia].
  assert (Hp : (if 0 <? col then e1 + 1 + Z.min (col - 0) (e2 - (e1 + 1))
                else e1 + 1) = e1 + 1 + Z.min col (e2 - (e1 + 1)))
    by (destruct (Z.ltb_spec 0 col); lia).
  assert (Hc : (if 0 <? col then 0 + Z.min (col - 0) (e2 - (e1 + 1))
                else col) = Z.min col (e2 - (e1 + 1)))
    by (destruct (Z.ltb_spec 0 col); lia).
  rewrite Hp, Hc. cbn [mbind option_bind]. eexists. reflexivity.
Qed.

(** UP from column [col] of a line that starts after the newline at [e0]:
    the cursor goes to the line before, the column clamped to its
    length. *)
Lemma key_up_spec (s0 e0 pos col : Z) :
  line mem s0 e0 -> at_index mem e0 = Some LF ->
  pos = e0 + 1 + col -> 0 <= col -> pos < 2 ^ 64 ->
  exists evs,
    key_up mem pos col
    = Some (s0 + Z.min col (e0 - s0), Z.min col (e0 - s0), evs).
Proof.
  intros (Hs0 & Hstart & Hin & _) Hlf -> Hcol Hp.
  unfold key_up.
  replace (e0 + 1 + col - col) with (e0 + 1) by lia.
  rewrite (wrap_small (e0 + 1)) by lia.
  destruct (Z.gtb_spec (e0 + 1) 0); [|lia].
  rewrite (wrap_small (col + 1)) by lia.
  replace (e0 + 1 + col - (col + 1)) with e0 by lia.
  rewrite (wrap_small e0) by lia.
  rewrite (up_loop_spec _ e0 0 s0); [|
    intros i Hi; destruct (Hin i Hi) as (c & Hc & _ & Hc'); eauto
    |exact Hstart|lia|lia|lia|lia|lia].
  cbn [mbind option_bind]. rewrite Z.add_0_l.
  assert (Hmin : (if e0 - s0 >? col then col else e0 - s0) = Z.min col (e0 - s0)).
  { destruct (Z.gtb_spec (e0 - s0) col); lia. }
  rewrite Hmin.
  destruct (Z.gtb_spec (Z.min col (e0 - s0)) 0) as [Hgt|Hle].
  - rewrite wrap_small by lia. eexists. reflexivity.
  - replace (Z.min col (e0 - s0)) with 0 by lia. rewrite Z.add_0_r.
    eexists. reflexivity.
Qed.
End Arrows.

(** ** [init] *)

Lemma strcmp_eq (a b : list Z) : strcmp a b = 0 <-> a = b.
Proof.
  revert b. induction a as [|c a IH]; intros [|d b]; simpl;
    try (split; [discriminate|discriminate]); [tauto|].
  destruct (Z.eqb_spec c d) as [->|Hne].
  - rewrite IH. split; [now intros ->|now intros [= ->]].
  - destruct (c <? d); split; try discriminate; intros [= ? ?]; contradiction.
Qed.

Lemma init_rejects (exec_path : list Z) (term : option (list Z)) :
  term <> Some (bytes "xterm") -> term <> Some (bytes "xterm-256color") ->
  exists evs, init exec_path term = (false, evs) /\ evs <> [] /\
              Forall to_stderr evs.
Proof.
  intros H1 H2. unfold init. destruct term as [term|].
  - assert (E1 : (strcmp term (bytes "xterm") =? 0) = false).
    { apply Z.eqb_neq. rewrite strcmp_eq. congruence. }
    assert (E2 : (strcmp term (bytes "xterm-256color") =? 0) = false).
    { apply Z.eqb_neq. rewrite strcmp_eq. congruence. }
    rewrite E1, E2. simpl. eexists. split; [reflexivity|].
    split; [discriminate|]. repeat constructor; eexists; reflexivity.
  - eexists. split; [reflexivity|].
    split; [discriminate|]. repeat constructor; eexists; reflexivity.
Qed.

(** ** The input loops leave the buffer alone *)

Lemma Tte_dispatch_frame (st st' : Tte.state) (r : read_result) (evs : list event) :
  Tte.dispatch st r = Some (Continue st', evs) ->
  Tte.buffer st' = Tte.buffer st /\ Tte.buffer_size st' = Tte.buffer_size st.
Proof.
  unfold Tte.dispatch, Tte.key_right, Tte.key_left. intros H.
  repeat (case_match; simplify_option_eq); auto.
Qed.

Lemma Tte_iteration_frame (st st' : Tte.state) (t : turn) (evs : list event) :
  Tte.iteration st t = Some (Continue st', evs) ->
  Tte.buffer st' = Tte.buffer st /\ Tte.buffer_size st' = Tte.buffer_size st.
Proof.
  unfold Tte.iteration. intros H.
  destruct (Tte.dispatch st (input_read t)) as [[s evs0]|] eqn:Hd;
    simpl in H; [|discriminate].
  injection H as -> _. now apply Tte_dispatch_frame in Hd.
Qed.

Lemma Tte_input_loop_frame (turns : list turn) (st st' : Tte.state)
      (e : LoopEnd) (evs : list event) :
  Tte.input_loop turns st = Some (e, st', evs) ->
  Tte.buffer st' = Tte.buffer st /\ Tte.buffer_size st' = Tte.buffer_size st.
Proof.
  revert st st' e evs.
  induction turns as [|t turns IH]; intros st st' e evs; simpl.
  - destruct (Tte.keep_running st =? 0); intros [= _ <- _]; auto.
  - destruct (Tte.keep_running st =? 0); [intros [= _ <- _]; auto|].
    destruct (Tte.iteration st t) as [[[st1|what] evs1]|] eqn:Hi; simpl;
      [|intros [= _ <- _]; auto|discriminate].
    destruct (Tte.input_loop turns st1) as [[[e2 st2] evs2]|] eqn:Hl; simpl;
      [|discriminate].
    intros [= _ <- _]. apply IH in Hl. apply Tte_iteration_frame in Hi.
    destruct Hl as [-> ->]. exact Hi.
Qed.

Lemma Tte2_dispatch_frame (st st' : Tte2.state) (input : list Z) (evs : list event) :
  Tte2.dispatch st input = Some (Continue st', evs) ->
  Tte2.buffer st' = Tte2.buffer st /\ Tte2.line_buffer st' = Tte2.line_buffer st.
Proof.
  unfold Tte2.dispatch, Tte2.key_right, Tte2.key_left, Tte2.key_backspace.
  intros H. repeat (case_match; simplify_option_eq); auto.
Qed.

Lemma Tte2_iteration_frame (st st' : Tte2.state) (t : turn) (evs : list event) :
  Tte2.iteration st t = Some (Continue st', evs) ->
  Tte2.buffer st' = Tte2.buffer st.
Proof.
  unfold Tte2.iteration. intros H.
  destruct (input_read t) as [|input]; [discriminate|].
  destruct (Tte2.dispatch _ input) as [[s evs0]|] eqn:Hd;
    simpl in H; [|discriminate].
  injection H as -> _. now apply Tte2_dispatch_frame in Hd as [-> _].
Qed.

Lemma Tte2_input_loop_frame (turns : list turn) (st st' : Tte2.state)
      (e : LoopEnd) (evs : list event) :
  Tte2.input_loop turns st = Some (e, st', evs) ->
  Tte2.buffer st' = Tte2.buffer st.
Proof.
  revert st st' e evs.
  induction turns as [|t turns IH]; intros st st' e evs; simpl.
  - destruct (Tte2.keep_running st =? 0); intros [= _ <- _]; auto.
  - destruct (Tte2.keep_running st =? 0); [intros [= _ <- _]; auto|].
    destruct (Tte2.iteration st t) as [[[st1|what] evs1]|] eqn:Hi; simpl;
      [|intros [= _ <- _]; auto|discriminate].
    destruct (Tte2.input_loop turns st1) as [[[e2 st2] evs2]|] eqn:Hl; simpl;
      [|discriminate].
    intros [= _ <- _]. apply IH in Hl. apply Tte2_iteration_frame in Hi.
    congruence.
Qed.

(** ** [main] up to the input loop *)

(** The buffer tte.cpp highlights is NUL-terminated, so that its
    highlighting loop is defined and ends. *)
Lemma initial_buffer_terminated (w : World) (buf : list Z) :
  Tte.initial_buffer w = inl buf -> In NUL buf.
Proof.
  unfold Tte.initial_buffer. intros H.
  repeat case_match; simplify_eq; try (left; reflexivity);
    apply in_or_app; right; left; reflexivity.
Qed.

Lemma Tte_main_scan_ends (w : World) (buf : list Z) :
  Tte.initial_buffer w = inl buf ->
  exists es e, highlight (scan_fuel buf) buf = Some (es, e) /\ e <> OutOfFuel.
Proof. intros H. apply highlight_total. eapply initial_buffer_terminated, H. Qed.

(** ** Which events give the terminal back *)

Lemma count_app (f : event -> bool) (a b : list event) :
  count f (a ++ b) = (count f a + count f b)%nat.
Proof. unfold count. now rewrite filter_app, length_app. Qed.

Lemma count_cons (f : event -> bool) (e : event) (l : list event) :
  count f (e :: l) = ((if f e then 1 else 0) + count f l)%nat.
Proof.
  unfold count. rewrite filter_cons.
  destruct (f e); destruct (decide _) as [Hd|Hd]; try reflexivity;
    try discriminate Hd; now contradiction Hd.
Qed.

Lemma count_quiet (evs : list event) :
  Forall quiet evs ->
  count restores_attributes evs = 0%nat /\ count restores_screen evs = 0%nat.
Proof.
  unfold count. induction 1 as [|e evs [Ha Hs] _ [IHa IHs]]; [split; reflexivity|].
  rewrite !filter_cons. rewrite Ha, Hs.
  destruct (decide (false = true)) as [|_]; [discriminate|]. now split.
Qed.

Lemma u64_digits_range (fuel : nat) (num : Z) :
  Forall (fun d => 48 <= d <= 57) (u64_digits fuel num).
Proof.
  revert num. induction fuel as [|fuel IH]; intros num; simpl; [constructor|].
  destruct (num >? 0); [|constructor].
  constructor; [|apply IH].
  pose proof (Z.div_mod num 10 ltac:(lia)).
  pose proof (Z.mod_pos_bound num 10 ltac:(lia)). lia.
Qed.

Lemma s64_to_str_range (num : Z) :
  Forall (fun d => 45 <= d <= 57) (s64_to_str num).
Proof.
  assert (Hu : forall n, Forall (fun d => 45 <= d <= 57) (u64_to_str n)).
  { intros n. unfold u64_to_str. destruct (n =? 0).
    - repeat constructor; lia.
    - apply Forall_rev. eapply Forall_impl; [apply u64_digits_range|].
      simpl. intros; lia. }
  unfold s64_to_str. destruct (num <? 0); [|apply Hu].
  constructor; [lia|apply Hu].
Qed.

Lemma quiet_write_digits (num : Z) : quiet (Ev_write 1 (s64_to_str num)).
Proof.
  split; [reflexivity|]. unfold restores_screen.
  apply andb_false_iff. right. apply bool_decide_eq_false. intros Heq.
  pose proof (s64_to_str_range num) as Hr. rewrite Heq in Hr.
  apply Forall_cons in Hr as [Hr _]. lia.
Qed.

(** A write whose data visibly differs from the restore sequence. *)
Ltac quiet_write :=
  split; [reflexivity|]; unfold restores_screen;
  apply andb_false_iff; right; apply bool_decide_eq_false;
  let Heq := fresh in intros Heq; vm_compute in Heq; discriminate Heq.

Lemma cursor_right_quiet (col : Z) : Forall quiet (cursor_right col).
Proof.
  unfold cursor_right.
  repeat (apply Forall_cons_2; [first [apply quiet_write_digits|quiet_write]|]).
  apply Forall_nil_2.
Qed.

Ltac quiet_events :=
  repeat match goal with
         | |- Forall quiet [] => apply Forall_nil_2
         | |- Forall quiet (_ :: _) => apply Forall_cons_2
         | |- Forall quiet (cursor_right _) => apply cursor_right_quiet
         | |- Forall quiet (if ?b then _ else _) => destruct b
         | |- quiet (Ev_write _ (s64_to_str _)) => apply quiet_write_digits
         | |- quiet (Ev_write _ _) => quiet_write
         | |- quiet _ => split; reflexivity
         end.

Lemma key_up_quiet (mem : list Z) (pos col pos' col' : Z) (evs : list event) :
  key_up mem pos col = Some (pos', col', evs) -> Forall quiet evs.
Proof.
  unfold key_up. intros H.
  repeat (case_match; simplify_option_eq); quiet_events.
Qed.

Lemma key_down_quiet (mem : list Z) (pos col pos' col' : Z) (evs : list event) :
  key_down mem pos col = Some (pos', col', evs) -> Forall quiet evs.
Proof.
  unfold key_down. intros H. simplify_option_eq.
  repeat (case_match; simplify_option_eq); quiet_events.
Qed.

Lemma Tte_dispatch_quiet (st : Tte.state) (r : read_result)
      (s : Step Tte.state) (evs : list event) :
  Tte.dispatch st r = Some (s, evs) -> Forall quiet evs.
Proof.
  unfold Tte.dispatch, Tte.key_right, Tte.key_left. intros H.
  repeat (case_match; simplify_option_eq);
    try (eapply key_up_quiet; eassumption);
    try (eapply key_down_quiet; eassumption);
    quiet_events.
Qed.

Lemma Tte_iteration_quiet (st : Tte.state) (t : turn)
      (s : Step Tte.state) (evs : list event) :
  Tte.iteration st t = Some (s, evs) -> Forall quiet evs.
Proof.
  unfold Tte.iteration. intros H.
  destruct (Tte.dispatch st (input_read t)) as [[s' evs0]|] eqn:Hd;
    simpl in H; [|discriminate].
  injection H as _ <-. apply Tte_dispatch_quiet in Hd.
  apply Forall_cons_2; [split; reflexivity|].
  apply Forall_app_2; [|exact Hd].
  destruct (input_read t) as [|input]; [constructor|].
  apply Forall_fmap, Forall_forall. intros c _. split; reflexivity.
Qed.

Lemma Tte_input_loop_quiet (turns : list turn) (st st' : Tte.state)
      (e : LoopEnd) (evs : list event) :
  Tte.input_loop turns st = Some (e, st', evs) -> Forall quiet evs.
Proof.
  revert st st' e evs.
  induction turns as [|t turns IH]; intros st st' e evs; simpl.
  - destruct (Tte.keep_running st =? 0); intros [= _ _ <-]; constructor.
  - destruct (Tte.keep_running st =? 0); [intros [= _ _ <-]; constructor|].
    destruct (Tte.iteration st t) as [[[st1|what] evs1]|] eqn:Hi; simpl;
      [|intros [= _ _ <-]; now apply Tte_iteration_quiet in Hi|discriminate].
    destruct (Tte.input_loop turns st1) as [[[e2 st2] evs2]|] eqn:Hl; simpl;
      [|discriminate].
    intros [= _ _ <-]. apply Forall_app_2.
    + now apply Tte_iteration_quiet in Hi.
    + now apply IH in Hl.
Qed.

Lemma Tte2_dispatch_quiet (st : Tte2.state) (input : list Z)
      (s : Step Tte2.state) (evs : list event) :
  Tte2.dispatch st input = Some (s, evs) -> Forall quiet evs.
Proof.
  unfold Tte2.dispatch, Tte2.key_right, Tte2.key_left, Tte2.key_backspace.
  intros H.
  repeat (case_match; simplify_option_eq);
    try (eapply key_up_quiet; eassumption);
    try (eapply key_down_quiet; eassumption);
    quiet_events.
Qed.

Lemma Tte2_iteration_quiet (st : Tte2.state) (t : turn)
      (s : Step Tte2.state) (evs : list event) :
  Tte2.iteration st t = Some (s, evs) -> Forall quiet evs.
Proof.
  unfold Tte2.iteration. intros H.
  destruct (input_read t) as [|input].
  - injection H as _ <-. quiet_events.
  - destruct (Tte2.dispatch _ input) as [[s' evs0]|] eqn:Hd;
      simpl in H; [|discriminate].
    injection H as _ <-. apply Tte2_dispatch_quiet in Hd.
    repeat (apply Forall_cons_2; [split; reflexivity|]). exact Hd.
Qed.

Lemma Tte2_input_loop_quiet (turns : list turn) (st st' : Tte2.state)
      (e : LoopEnd) (evs : list event) :
  Tte2.input_loop turns st = Some (e, st', evs) -> Forall quiet evs.
Proof.
  revert st st' e evs.
  induction turns as [|t turns IH]; intros st st' e evs; simpl.
  - destruct (Tte2.keep_running st =? 0); intros [= _ _ <-]; constructor.
  - destruct (Tte2.keep_running st =? 0); [intros [= _ _ <-]; constructor|].
    destruct (Tte2.iteration st t) as [[[st1|what] evs1]|] eqn:Hi; simpl;
      [|intros [= _ _ <-]; now apply Tte2_iteration_quiet in Hi|discriminate].
    destruct (Tte2.input_loop turns st1) as [[[e2 st2] evs2]|] eqn:Hl; simpl;
      [|discriminate].
    intros [= _ _ <-]. apply Forall_app_2.
    + now apply Tte2_iteration_quiet in Hi.
    + now apply IH in Hl.
Qed.

(** ** The highlighting gives nothing back either

    No span starts with ESC: its first byte is white space or a byte that
    starts a token. *)

Lemma write_while_head (cond : Z -> bool) (fuel : nat) (mem : list Z)
      (p q : nat) (out : list Z) :
  write_while cond fuel mem p = Some (q, out) ->
  out = [] \/ exists c rest, out = c :: rest /\ mem !! p = Some c /\ cond c = true.
Proof.
  destruct fuel as [|fuel]; simpl; [discriminate|].
  destruct (mem !! p) as [c|]; simpl; [|discriminate].
  destruct (cond c) eqn:Hc; [|intros [= _ <-]; now left].
  destruct (write_while cond fuel mem (S p)) as [[q' out']|]; simpl; [|discriminate].
  intros [= _ <-]. right. now exists c, out'.
Qed.

Lemma parse_block_comment_loop_head (fuel : nat) (mem : list Z)
      (p q : nat) (out : list Z) :
  parse_block_comment_loop fuel mem p = Some (q, out) ->
  out = [] \/ exists c rest, out = c :: rest /\ mem !! p = Some c.
Proof.
  destruct fuel as [|fuel]; simpl; [discriminate|].
  destruct (mem !! p) as [c|]; simpl; [|discriminate].
  destruct (c =? NUL); [intros [= _ <-]; now left|].
  intros H. right. exists c.
  destruct (c =? STAR).
  - destruct (mem !! S p) as [c1|]; simpl in H; [|discriminate].
    destruct (c1 =? SLASH); [injection H as _ <-; eauto|].
    destruct (parse_block_comment_loop fuel mem (S p)) as [[q' out']|];
      simpl in H; [|discriminate].
    injection H as _ <-. eauto.
  - destruct (parse_block_comment_loop fuel mem (S p)) as [[q' out']|];
      simpl in H; [|discriminate].
    injection H as _ <-. eauto.
Qed.

Lemma scan_token_no_escape (mem : list Z) (p : nat)
      (kind : SpanKind) (text : list Z) (q : nat) :
  scan_token mem p = Some (Token kind text q) -> no_escape text.
Proof.
  unfold scan_token. destruct (mem !! p) as [c|] eqn:Hc; simpl; [|discriminate].
  assert (Hhead : forall out,
    (out = [] \/ exists c' rest, out = c' :: rest /\ mem !! p = Some c') ->
    c <> ESC -> no_escape out).
  { intros out [->|(c' & rest & -> & Hc')] Hne; simpl; [exact I|congruence]. }
  destruct (Z.eqb_spec c SLASH) as [->|_].
  { destruct (mem !! S p) as [c1|]; simpl; [|discriminate].
    destruct (c1 =? STAR).
    - destruct (parse_block_comment mem p) as [[q' out]|] eqn:Hb; simpl; [|discriminate].
      intros [= _ <- _]. apply Hhead; [|discriminate].
      now apply parse_block_comment_loop_head in Hb.
    - destruct (c1 =? SLASH).
      + destruct (parse_inline_comment mem p) as [[q' out]|] eqn:Hb; simpl; [|discriminate].
        intros [= _ <- _]. apply Hhead; [|discriminate].
        apply write_while_head in Hb as [->|(c' & rest & -> & Hc' & _)]; eauto.
      + intros [= _ <- _]. simpl. discriminate. }
  destruct (Z.eqb_spec c DQUOTE) as [->|_].
  { destruct (parse_string_literal mem (S p)) as [[q' out]|]; simpl; [|discriminate].
    intros [= _ <- _]. simpl. discriminate. }
  destruct (is_punct c) eqn:Hp.
  { intros [= _ <- _]. simpl. intros ->. discriminate Hp. }
  destruct (is_latin c) eqn:Hl.
  { destruct (parse_identifier mem p) as [[q' out]|] eqn:Hb; simpl; [|discriminate].
    intros [= _ <- _]. apply Hhead; [|intros ->; discriminate Hl].
    apply write_while_head in Hb as [->|(c' & rest & -> & Hc' & _)]; eauto. }
  destruct (is_digit c) eqn:Hd; [|discriminate].
  destruct (parse_num mem p) as [[q' out]|] eqn:Hb; simpl; [|discriminate].
  intros [= _ <- _]. apply Hhead; [|intros ->; discriminate Hd].
  apply write_while_head in Hb as [->|(c' & rest & -> & Hc' & _)]; eauto.
Qed.

Lemma parse_space_no_escape (mem : list Z) (p q : nat) (ws : list Z) :
  parse_space mem p = Some (q, ws) -> no_escape ws.
Proof.
  intros H. apply write_while_head in H as [->|(c & rest & -> & _ & Hc)];
    simpl; [exact I|]. intros ->. discriminate Hc.
Qed.

Lemma render_quiet (e : Emit) :
  match e with Span _ text => no_escape text | Diagnostic _ => True end ->
  Forall quiet (render e).
Proof.
  destruct e as [kind text|c]; simpl; [|intros _; quiet_events].
  intros Hne.
  assert (Htext : quiet (Ev_write 1 text)).
  { split; [reflexivity|]. unfold restores_screen.
    apply andb_false_iff. right. apply bool_decide_eq_false.
    intros ->. simpl in Hne. now contradiction Hne. }
  destruct kind; simpl; quiet_events; exact Htext.
Qed.

Lemma concat_render_cons (e : Emit) (es : list Emit) :
  concat (map render (e :: es)) = render e ++ concat (map render es).
Proof. reflexivity. Qed.

Lemma ws_span_quiet (ws : list Z) :
  no_escape ws -> Forall quiet (concat (map render (ws_span ws))).
Proof.
  intros H. destruct ws as [|c ws]; [constructor|].
  cbn [ws_span]. rewrite concat_render_cons. apply Forall_app_2; [|constructor].
  now apply (render_quiet (Span Whitespace (c :: ws))).
Qed.

Lemma concat_render_app (es es' : list Emit) :
  concat (map render (es ++ es'))
  = concat (map render es) ++ concat (map render es').
Proof. now rewrite map_app, concat_app. Qed.

Lemma highlight_loop_quiet (fuel : nat) (mem : list Z) (p : nat)
      (es : list Emit) (e : ScanEnd) :
  highlight_loop fuel mem p = Some (es, e) ->
  Forall quiet (concat (map render es)).
Proof.
  revert p es e. induction fuel as [|fuel IH]; intros p es e; simpl.
  { intros [= <- _]. constructor. }
  destruct (mem !! p) as [c|]; simpl; [|discriminate].
  destruct (c =? NUL); [intros [= <- _]; constructor|].
  destruct (scan_token mem p) as [[kind text q|c']|] eqn:Ht; simpl; [| |discriminate].
  - destruct (parse_space mem q) as [[q' ws]|] eqn:Hs; simpl; [|discriminate].
    destruct (highlight_loop fuel mem q') as [[es' e']|] eqn:Hl; simpl; [|discriminate].
    intros [= <- _]. rewrite concat_render_cons, concat_render_app.
    apply Forall_app_2; [|apply Forall_app_2].
    + apply (render_quiet (Span kind text)). eapply scan_token_no_escape, Ht.
    + eapply ws_span_quiet, parse_space_no_escape, Hs.
    + eapply IH, Hl.
  - intros [= <- _]. simpl. quiet_events.
Qed.

Lemma load_file_loop_quiet (fuel : nat) (mem : list Z) (p : nat)
      (es : list Emit) (e : ScanEnd) :
  load_file_loop fuel mem p = Some (es, e) ->
  Forall quiet (concat (map render es)).
Proof.
  revert p es e. induction fuel as [|fuel IH]; intros p es e; simpl.
  { intros [= <- _]. constructor. }
  destruct (mem !! p) as [c|]; simpl; [|discriminate].
  destruct (c =? NUL); [intros [= <- _]; constructor|].
  destruct (scan_token mem p) as [[kind text q|c']|] eqn:Ht; simpl; [| |discriminate].
  - destruct (parse_space mem q) as [[q' ws]|] eqn:Hs; simpl; [|discriminate].
    destruct (load_file_loop fuel mem q') as [[es' e']|] eqn:Hl; simpl; [|discriminate].
    intros [= <- _]. rewrite concat_render_cons, concat_render_app.
    apply Forall_app_2; [|apply Forall_app_2].
    + apply (render_quiet (Span kind text)). eapply scan_token_no_escape, Ht.
    + eapply ws_span_quiet, parse_space_no_escape, Hs.
    + eapply IH, Hl.
  - destruct (parse_space mem p) as [[q' ws]|] eqn:Hs; simpl; [|discriminate].
    destruct (load_file_loop fuel mem q') as [[es' e']|] eqn:Hl; simpl; [|discriminate].
    intros [= <- _]. rewrite concat_render_cons, concat_render_app.
    apply Forall_app_2; [|apply Forall_app_2].
    + simpl. quiet_events.
    + eapply ws_span_quiet, parse_space_no_escape, Hs.
    + eapply IH, Hl.
Qed.

Lemma highlight_quiet (fuel : nat) (mem : list Z) (es : list Emit) (e : ScanEnd) :
  highlight fuel mem = Some (es, e) -> Forall quiet (concat (map render es)).
Proof.
  unfold highlight.
  destruct (parse_space mem 0) as [[p0 ws]|] eqn:Hs; simpl; [|discriminate].
  destruct (highlight_loop fuel mem p0) as [[es' e']|] eqn:Hl; simpl; [|discriminate].
  intros [= <- _]. rewrite concat_render_app. apply Forall_app_2.
  - eapply ws_span_quiet, parse_space_no_escape, Hs.
  - eapply highlight_loop_quiet, Hl.
Qed.

Lemma load_file_highlight_quiet (fuel : nat) (mem : list Z)
      (es : list Emit) (e : ScanEnd) :
  load_file_highlight fuel mem = Some (es, e) ->
  Forall quiet (concat (map render es)).
Proof.
  unfold load_file_highlight.
  destruct (parse_space mem 0) as [[p0 ws]|] eqn:Hs; simpl; [|discriminate].
  destruct (load_file_loop fuel mem p0) as [[es' e']|] eqn:Hl; simpl; [|discriminate].
  intros [= <- _]. rewrite concat_render_app. apply Forall_app_2.
  - eapply ws_span_quiet, parse_space_no_escape, Hs.
  - eapply load_file_loop_quiet, Hl.
Qed.

(** ** The runs of [main], from [init] to the exit *)

Lemma init_quiet (exec_path : list Z) (term : option (list Z)) :
  Forall quiet (snd (init exec_path term)).
Proof.
  unfold init. destruct term as [term|]; [|simpl; quiet_events].
  destruct (negb _ && negb _); simpl; repeat constructor.
Qed.

(** tte.cpp from [tcgetattr] on. *)
Lemma Tte_edit_quiet (w : World) (buf : list Z) (e : Exit)
      (st : option Tte.state) (trace : list event) :
  Tte.edit w buf = Some (e, st, trace) -> Forall quiet trace.
Proof.
  unfold Tte.edit.
  destruct (w_tcgetattr w) as [original|]; [|intros [= _ _ <-]; quiet_events].
  destruct (w_tcsetattr w TCSANOW); simpl; [|intros [= _ _ <-]; quiet_events].
  destruct (Tte.input_loop (w_stdin w) (Tte.start buf))
    as [[[e' st'] evs]|] eqn:Hloop; simpl; [|discriminate].
  apply Tte_input_loop_quiet in Hloop.
  intros [= _ _ <-].
  repeat (apply Forall_cons_2; [first [quiet_write|split; reflexivity]|]).
  exact Hloop.
Qed.

Lemma Tte_main_quiet (w : World) (e : Exit) (st : option Tte.state)
      (trace : list event) :
  Tte.main w = Some (e, st, trace) -> Forall quiet trace.
Proof.
  unfold Tte.main. pose proof (init_quiet (argv0 w) (w_TERM w)) as Hinit.
  destruct (init (argv0 w) (w_TERM w)) as [[|] ev_init]; simpl in *;
    [|intros [= _ _ <-]; exact Hinit].
  destruct (Tte.initial_buffer w) as [buf|what]; [|intros [= _ _ <-]; exact Hinit].
  destruct (highlight (scan_fuel buf) buf) as [[es e0]|] eqn:Hscan; simpl;
    [|discriminate].
  apply highlight_quiet in Hscan.
  assert (Hsave : quiet (Ev_write 1 (ESC :: bytes "[?47h"))) by quiet_write.
  destruct e0; [| |discriminate].
  - destruct (Tte.edit w buf) as [[[e' st'] tr']|] eqn:He; simpl; [|discriminate].
    apply Tte_edit_quiet in He. intros [= _ _ <-].
    apply Forall_app_2; [exact Hinit|]. apply Forall_cons_2; [exact Hsave|].
    apply Forall_app_2; assumption.
  - intros [= _ _ <-].
    apply Forall_app_2; [exact Hinit|]. apply Forall_cons_2; assumption.
Qed.

(** The second prototype from [init_screen] on: the run that returns 0. *)
Lemma Tte2_edit_quit (w : World) (buf : Tte2.Buffer)
      (st : option Tte2.state) (trace : list event) :
  Tte2.edit w buf = Some (Returned 0, st, trace) ->
  exists original trace0,
    w_tcgetattr w = Some original /\
    trace = trace0 ++ [Ev_tcsetattr TCSADRAIN original;
                       Ev_write 1 (ESC :: bytes "[?47l"); Ev_write 1 [ESC; 56]] /\
    In (Ev_tcsetattr TCSANOW (Tte2.raw_attributes (w_masks w) original)) trace0 /\
    Forall quiet trace0.
Proof.
  unfold Tte2.edit, Tte2.init_screen.
  destruct (w_tcgetattr w) as [original|]; [|discriminate].
  destruct (w_tcsetattr w TCSANOW); simpl; [|discriminate].
  destruct (Tte2.input_loop (w_stdin w) (Tte2.start buf))
    as [[[e st'] evs]|] eqn:Hloop; simpl; [|discriminate].
  apply Tte2_input_loop_quiet in Hloop.
  destruct e; [|discriminate|discriminate].
  unfold Tte2.destroy_screen.
  destruct (w_tcsetattr w TCSADRAIN); simpl; [|discriminate].
  intros [= <- <-].
  exists original,
    ([Ev_write 1 [ESC; 55]; Ev_write 1 (ESC :: bytes "[?47h"); Ev_tcgetattr;
      Ev_tcsetattr TCSANOW (Tte2.raw_attributes (w_masks w) original);
      Ev_write 1 (ESC :: bytes "[H")] ++ evs).
  split; [reflexivity|]. split; [reflexivity|]. split; [simpl; tauto|].
  apply Forall_app_2; [quiet_events|exact Hloop].
Qed.

(** The second prototype from [init_screen] on: the runs that a failed
    [assert] ends. *)
Lemma Tte2_edit_assert (w : World) (buf : Tte2.Buffer) (what : string)
      (st : option Tte2.state) (trace : list event) :
  Tte2.edit w buf = Some (Assert_failed what, st, trace) ->
  count restores_screen trace = 0%nat /\
  (what <> "!tcsetattr_error"%string -> count restores_attributes trace = 0%nat).
Proof.
  unfold Tte2.edit, Tte2.init_screen.
  destruct (w_tcgetattr w) as [original|].
  2:{ intros [= <- _ <-]. split; [reflexivity|]. intros _. reflexivity. }
  destruct (w_tcsetattr w TCSANOW); simpl.
  2:{ intros [= <- _ <-]. split; [reflexivity|]. intros _. reflexivity. }
  destruct (Tte2.input_loop (w_stdin w) (Tte2.start buf))
    as [[[e st'] evs]|] eqn:Hloop; simpl; [|discriminate].
  apply Tte2_input_loop_quiet in Hloop.
  apply count_quiet in Hloop as [Ha Hs].
  destruct e; [| |discriminate].
  - unfold Tte2.destroy_screen.
    destruct (w_tcsetattr w TCSADRAIN); simpl; [discriminate|].
    intros [= <- _ <-]. rewrite !count_cons, !count_app, Hs.
    split; [reflexivity|]. intros Hne. now contradiction Hne.
  - intros [= <- _ <-]. rewrite !count_cons, Ha, Hs.
    split; [reflexivity|]. intros _. reflexivity.
Qed.

(** A run of [main] either ends before [init_screen], having given
    nothing back, or is a run of [edit] after such a beginning. *)
Lemma Tte2_main_cases (fuel : nat) (w : World) (e : Exit)
      (st : option Tte2.state) (trace : list event) :
  Tte2.main fuel w = Some (e, st, trace) ->
  (e <> Returned 0 /\ e <> Waiting /\ st = None /\ Forall quiet trace) \/
  (exists buf before trace',
     trace = before ++ trace' /\ Forall quiet before /\
     Tte2.edit w buf = Some (e, st, trace')).
Proof.
  unfold Tte2.main. pose proof (init_quiet (argv0 w) (w_TERM w)) as Hinit.
  destruct (init (argv0 w) (w_TERM w)) as [[|] ev_init]; simpl in *.
  2:{ intros [= <- <- <-]. left. repeat split; try discriminate. exact Hinit. }
  assert (Hnew : forall buf,
    (Tte2.edit w buf ≫= λ '(e', st', evs), Some (e', st', ev_init ++ evs))
      = Some (e, st, trace) ->
    exists buf0 before trace',
      trace = before ++ trace' /\ Forall quiet before /\
      Tte2.edit w buf0 = Some (e, st, trace')).
  { intros buf Hb.
    destruct (Tte2.edit w buf) as [[[e' st'] tr']|] eqn:He; simpl in Hb; [|discriminate].
    injection Hb as -> -> <-. exists buf, ev_init, tr'. auto. }
  intros H.
  destruct (w_argv w) as [|a0 [|path [|a2 rest]]]; try (right; apply (Hnew _ H)).
  unfold Tte2.load_file in H.
  destruct (w_open w path) as [content|]; simpl in H.
  2:{ injection H as <- <- <-. left. repeat split; try discriminate.
      rewrite app_nil_r. exact Hinit. }
  destruct (load_file_highlight fuel (content ++ [NUL])) as [[es e0]|] eqn:Hscan;
    simpl in H; [|discriminate].
  apply load_file_highlight_quiet in Hscan.
  destruct e0; simpl in H; [| discriminate |].
  - destruct (Tte2.edit w _) as [[[e' st'] tr']|] eqn:He; simpl in H; [|discriminate].
    injection H as -> -> <-. right.
    eexists _, (ev_init ++ concat (map render es)), tr'.
    split; [now rewrite <- app_assoc|]. split; [|exact He].
    apply Forall_app_2; assumption.
  - injection H as <- <- <-. left. repeat split; try discriminate.
    apply Forall_app_2; assumption.
Qed.

(** ** The cursor of tte.cpp stays on a line *)

Lemma at_index_of_nat (mem : list Z) (i : nat) :
  at_index mem (Z.of_nat i) = mem !! i.
Proof.
  unfold at_index. destruct (Z.ltb_spec (Z.of_nat i) 0); [lia|].
  now rewrite Nat2Z.id.
Qed.

Lemma at_index_nat (mem : list Z) (i : Z) :
  0 <= i -> at_index mem i = mem !! Z.to_nat i.
Proof. intros H. unfold at_index. destruct (Z.ltb_spec i 0); [lia|reflexivity]. Qed.

Section Lines.
Variables (mem : list Z) (n : nat).
Hypothesis Hnul : nul_at mem n.

Lemma before_nul (i : Z) :
  0 <= i < Z.of_nat n -> exists c, at_index mem i = Some c /\ c <> NUL.
Proof.
  intros Hi. destruct (nul_at_read mem n Hnul (Z.to_nat i)) as (c & Hc & Hc0); [lia|].
  exists c. rewrite at_index_nat by lia. split; [exact Hc|].
  intros ->. assert (Z.to_nat i = n) by tauto. lia.
Qed.

Lemma at_nul : at_index mem (Z.of_nat n) = Some NUL.
Proof. rewrite at_index_of_nat. exact (proj1 Hnul). Qed.

(** Forward from any offset of the string there is an end of line. *)
Lemma eol_from (k : nat) (s : Z) :
  0 <= s -> s + Z.of_nat k = Z.of_nat n ->
  exists e, s <= e <= Z.of_nat n /\
    (forall i, s <= i < e ->
               exists c, at_index mem i = Some c /\ c <> NUL /\ c <> LF) /\
    (exists c, at_index mem e = Some c /\ (c = NUL \/ c = LF)).
Proof.
  revert s. induction k as [|k IH]; intros s Hs Hk.
  - exists s. split; [lia|]. split; [intros i Hi; lia|].
    exists NUL. replace s with (Z.of_nat n) by lia. split; [apply at_nul|now left].
  - destruct (before_nul s) as (c & Hc & Hc0); [lia|].
    destruct (Z.eq_dec c LF) as [->|Hlf].
    + exists s. split; [lia|]. split; [intros i Hi; lia|]. exists LF. auto.
    + destruct (IH (s + 1)) as (e & He & Hin & Hend); [lia|lia|].
      exists e. split; [lia|]. split; [|exact Hend].
      intros i Hi. destruct (Z.eq_dec i s) as [->|Hne]; [eauto|].
      apply Hin. lia.
Qed.

Lemma line_from (s : Z) :
  0 <= s <= Z.of_nat n -> (s = 0 \/ at_index mem (s - 1) = Some LF) ->
  exists e, line mem s e /\ e <= Z.of_nat n.
Proof.
  intros Hs Hstart.
  destruct (eol_from (Z.to_nat (Z.of_nat n - s)) s) as (e & He & Hin & Hend);
    [lia|lia|].
  exists e. split; [|lia]. split; [lia|]. split; [exact Hstart|]. now split.
Qed.

(** Backward from any offset of the string there is a start of line. *)
Lemma sol_before (e : nat) :
  (e <= n)%nat ->
  exists s, 0 <= s <= Z.of_nat e /\
    (s = 0 \/ at_index mem (s - 1) = Some LF) /\
    (forall i, s <= i < Z.of_nat e ->
               exists c, at_index mem i = Some c /\ c <> NUL /\ c <> LF).
Proof.
  induction e as [|e IH]; intros He.
  - exists 0. split; [lia|]. split; [now left|]. intros i Hi; lia.
  - destruct (before_nul (Z.of_nat e)) as (c & Hc & Hc0); [lia|].
    destruct (Z.eq_dec c LF) as [->|Hlf].
    + exists (Z.of_nat (S e)). split; [lia|]. split; [|intros i Hi; lia].
      right. replace (Z.of_nat (S e) - 1) with (Z.of_nat e) by lia. exact Hc.
    + destruct IH as (s & Hs & Hstart & Hin); [lia|].
      exists s. split; [lia|]. split; [exact Hstart|].
      intros i Hi. destruct (Z.eq_dec i (Z.of_nat e)) as [->|Hne]; [eauto|].
      apply Hin. lia.
Qed.

Lemma line_before (e : Z) :
  0 <= e <= Z.of_nat n -> at_index mem e = Some LF ->
  exists s, line mem s e.
Proof.
  intros He Hlf.
  destruct (sol_before (Z.to_nat e)) as (s & Hs & Hstart & Hin); [lia|].
  rewrite Z2Nat.id in Hs, Hin by lia.
  exists s. split; [lia|]. split; [exact Hstart|]. split; [exact Hin|].
  exists LF. auto.
Qed.

(** A line of the string lies before its NUL. *)
Lemma line_end_bound (s e : Z) :
  line mem s e -> s <= Z.of_nat n -> e <= Z.of_nat n.
Proof.
  intros (Hs & _ & Hin & _) Hsn.
  destruct (Z.le_gt_cases e (Z.of_nat n)) as [|Hgt]; [assumption|].
  destruct (Hin (Z.of_nat n)) as (c & Hc & Hc0 & _); [lia|].
  rewrite at_nul in Hc. congruence.
Qed.
End Lines.

Lemma key_up_first_line (mem : list Z) (pos : Z) :
  key_up mem pos pos = Some (pos, pos, []).
Proof. unfold key_up. now rewrite Z.sub_diag. Qed.

Lemma key_down_last_line (mem : list Z) (pos e col : Z) :
  (forall i, pos <= i < e ->
             exists c, at_index mem i = Some c /\ c <> NUL /\ c <> LF) ->
  at_index mem e = Some NUL -> 0 <= pos <= e -> e < 2 ^ 64 ->
  key_down mem pos col = Some (pos, col, []).
Proof.
  intros Hin Hend Hpos He. unfold key_down.
  pose proof (at_index_bound mem _ _ Hend) as Hb.
  rewrite (down_eol_spec mem (scan_fuel mem) pos e);
    [|exact Hin|eauto|lia|lia|unfold scan_fuel; lia].
  cbn [mbind option_bind]. rewrite Hend. reflexivity.
Qed.

Section OnLine.
Variables (mem : list Z) (n : nat).
Hypothesis Hnul : nul_at mem n.
Hypothesis Hsize : Z.of_nat (length mem) < 2 ^ 64.

Lemma nul_in_bounds : Z.of_nat n < Z.of_nat (length mem).
Proof. destruct Hnul as [H0 _]. apply lookup_lt_Some in H0. lia. Qed.

Lemma key_up_on_line (pos col : Z) :
  on_line mem n pos col ->
  exists pos' col' evs,
    key_up mem pos col = Some (pos', col', evs) /\ on_line mem n pos' col'.
Proof.
  intros (s & e & Hline & Hen & -> & Hcol & Hpe).
  pose proof nul_in_bounds as Hn.
  destruct Hline as (Hs & Hstart & Hin & Hend).
  destruct Hstart as [->|Hlf].
  - (* first line *)
    exists (0 + col), col, []. rewrite Z.add_0_l, key_up_first_line.
    split; [reflexivity|]. exists 0, e.
    split; [split; [lia|split; [now left|now split]]|]. lia.
  - destruct (Z.eq_dec s 0) as [->|Hs0].
    { exists (0 + col), col, []. rewrite Z.add_0_l, key_up_first_line.
      split; [reflexivity|]. exists 0, e.
      split; [split; [lia|split; [now left|now split]]|]. lia. }
    destruct (line_before mem n Hnul (s - 1)) as (s0 & Hl0); [lia|exact Hlf|].
    destruct (key_up_spec mem s0 (s - 1) (s + col) col Hl0 Hlf)
      as (evs & Hup); [lia|lia|lia|].
    eexists _, _, evs. split; [exact Hup|].
    exists s0, (s - 1). split; [exact Hl0|].
    destruct Hl0 as (Hs0' & _). lia.
Qed.

Lemma key_down_on_line (pos col : Z) :
  on_line mem n pos col ->
  exists pos' col' evs,
    key_down mem pos col = Some (pos', col', evs) /\ on_line mem n pos' col'.
Proof.
  intros (s & e & Hline & Hen & -> & Hcol & Hpe).
  pose proof nul_in_bounds as Hn.
  pose proof Hline as (Hs & Hstart & Hin & (t & Ht & [->| ->])).
  - (* the last line *)
    exists (s + col), col, []. split.
    + apply (key_down_last_line mem (s + col) e col); [|exact Ht|lia|lia].
      intros i Hi. apply Hin. lia.
    + exists s, e. split; [exact Hline|]. lia.
  - assert (He : e < Z.of_nat n).
    { destruct (Z.eq_dec e (Z.of_nat n)) as [->|]; [|lia].
      rewrite (at_nul mem n Hnul) in Ht. discriminate. }
    destruct (line_from mem n Hnul (e + 1)) as (e2 & Hl2 & He2);
      [lia|right; now replace (e + 1 - 1) with e by lia|].
    destruct (key_down_spec mem s e e2 (s + col) col Hline Ht Hl2)
      as (evs & Hdown); [lia|lia|lia|].
    eexists _, _, evs. split; [exact Hdown|].
    exists (e + 1), e2. split; [exact Hl2|].
    destruct Hl2 as (Hs2 & _). lia.
Qed.

Lemma key_right_on_line (st : Tte.state) :
  Tte.buffer st = mem ->
  on_line mem n (Tte.buffer_pos st) (Tte.buffer_line_pos st) ->
  exists st' evs,
    Tte.key_right st = Some (st', evs) /\ Tte.buffer st' = mem /\
    on_line mem n (Tte.buffer_pos st') (Tte.buffer_line_pos st').
Proof.
  intros Hbuf Hon. pose proof Hon as (s & e & Hline & Hen & Hpos & Hcol & Hpe).
  pose proof nul_in_bounds as Hn.
  destruct Hline as (Hs & Hstart & Hin & (t & Ht & Hend)).
  unfold Tte.key_right. rewrite Hbuf.
  destruct (Z.eq_dec (Tte.buffer_pos st) e) as [Heq|Hne].
  - rewrite Heq, Ht. cbn [mbind option_bind].
    exists st, []. split; [destruct Hend as [-> | ->]; reflexivity|].
    split; [exact Hbuf|exact Hon].
  - destruct (Hin (Tte.buffer_pos st)) as (c & Hc & Hc0 & Hc1); [lia|].
    rewrite Hc. cbn [mbind option_bind].
    destruct (Z.eqb_spec c NUL); [contradiction|].
    destruct (Z.eqb_spec c LF); [contradiction|]. cbn [negb andb].
    eexists _, _. split; [reflexivity|]. split; [exact Hbuf|].
    cbn [Tte.set_cursor Tte.buffer_pos Tte.buffer_line_pos].
    rewrite !wrap_small by lia.
    exists s, e. split; [split; [lia|split; [exact Hstart|split; eauto]]|]. lia.
Qed.

Lemma key_left_on_line (st : Tte.state) :
  Tte.buffer st = mem ->
  on_line mem n (Tte.buffer_pos st) (Tte.buffer_line_pos st) ->
  Tte.buffer (fst (Tte.key_left st)) = mem /\
  on_line mem n (Tte.buffer_pos (fst (Tte.key_left st)))
                (Tte.buffer_line_pos (fst (Tte.key_left st))).
Proof.
  intros Hbuf Hon. pose proof Hon as (s & e & Hline & Hen & Hpos & Hcol & Hpe).
  pose proof nul_in_bounds as Hn. pose proof Hline as (Hs & _).
  unfold Tte.key_left.
  destruct (Z.gtb_spec (Tte.buffer_line_pos st) 0); cbn [fst]; [|now split].
  split; [exact Hbuf|].
  cbn [Tte.set_cursor Tte.buffer_pos Tte.buffer_line_pos].
  rewrite !wrap_small by lia.
  exists s, e. split; [exact Hline|]. lia.
Qed.

Lemma Tte_dispatch_ok (st : Tte.state) (r : read_result) :
  Tte_ok mem n st ->
  exists s evs, Tte.dispatch st r = Some (s, evs) /\
                forall st', s = Continue st' -> Tte_ok mem n st'.
Proof.
  intros [Hbuf Hon].
  assert (Hkeep : forall evs : list event, exists s evs',
    @Some (Step Tte.state * list event) (Continue st, evs) = Some (s, evs') /\
    forall st', s = Continue st' -> Tte_ok mem n st').
  { intros evs. eexists _, _. split; [reflexivity|].
    intros st' [= <-]. now split. }
  assert (Habort : forall what, exists s evs',
    @Some (Step Tte.state * list event) (Abort what, []) = Some (s, evs') /\
    forall st', s = Continue st' -> Tte_ok mem n st').
  { intros what. eexists _, _. split; [reflexivity|]. intros st'; discriminate. }
  unfold Tte.dispatch.
  destruct r as [|[|c0 [|c1 [|c2 [|c3 rest]]]]]; try apply Habort.
  - destruct (c0 =? 1); [apply Hkeep|].
    destruct (c0 =? ESC).
    + eexists _, _. split; [reflexivity|]. intros st' [= <-]. now split.
    + destruct (c0 =? DEL); apply Hkeep.
  - destruct ((c0 =? ESC) && (c1 =? LBRACKET)); [|apply Habort].
    destruct (c2 =? 65).
    { rewrite Hbuf.
      destruct (key_up_on_line _ _ Hon) as (pos' & col' & evs & -> & Hon').
      cbn [mbind option_bind]. eexists _, _. split; [reflexivity|].
      intros st' [= <-]. now split. }
    destruct (c2 =? 66).
    { rewrite Hbuf.
      destruct (key_down_on_line _ _ Hon) as (pos' & col' & evs & -> & Hon').
      cbn [mbind option_bind]. eexists _, _. split; [reflexivity|].
      intros st' [= <-]. now split. }
    destruct (c2 =? 67).
    { destruct (key_right_on_line st Hbuf Hon) as (st1 & evs & -> & Hb1 & Hon1).
      cbn [mbind option_bind]. eexists _, _. split; [reflexivity|].
      intros st' [= <-]. now split. }
    destruct (c2 =? 68); [|apply Habort].
    pose proof (key_left_on_line st Hbuf Hon) as Hleft.
    destruct (Tte.key_left st) as [st1 evs]. cbn [fst] in Hleft.
    eexists _, _. split; [reflexivity|]. intros st' [= <-]. exact Hleft.
Qed.

Lemma Tte_iteration_ok (st : Tte.state) (t : turn) :
  Tte_ok mem n st ->
  exists s evs, Tte.iteration st t = Some (s, evs) /\
                forall st', s = Continue st' -> Tte_ok mem n st'.
Proof.
  intros Hok. unfold Tte.iteration.
  destruct (Tte_dispatch_ok st (input_read t) Hok) as (s & evs & -> & Hs).
  cbn [mbind option_bind]. eexists _, _. split; [reflexivity|exact Hs].
Qed.

Lemma Tte_input_loop_ok (turns : list turn) (st : Tte.state) :
  Tte_ok mem n st ->
  exists e st' evs, Tte.input_loop turns st = Some (e, st', evs) /\ Tte_ok mem n st'.
Proof.
  revert st. induction turns as [|t turns IH]; intros st Hok; simpl.
  - destruct (Tte.keep_running st =? 0); eexists _, _, _; split; eauto.
  - destruct (Tte.keep_running st =? 0); [eexists _, _, _; split; eauto|].
    destruct (Tte_iteration_ok st t Hok) as ([st1|what] & evs & -> & Hs); simpl.
    + destruct (IH st1 (Hs st1 eq_refl)) as (e & st' & evs' & -> & Hok').
      simpl. eexists _, _, _; split; eauto.
    + eexists _, _, _; split; eauto.
Qed.
End OnLine.

(** ** Every run of tte.cpp is defined *)


Lemma Tte_start_ok (mem : list Z) (n : nat) :
  nul_at mem n -> Tte_ok mem n (Tte.start mem).
Proof.
  intros Hnul. split; [reflexivity|]. simpl.
  destruct (line_from mem n Hnul 0) as (e & Hline & He); [lia|now left|].
  exists 0, e. split; [exact Hline|]. destruct Hline as (? & _). lia.
Qed.


(** ** What the scanners take *)

Lemma write_while_first (cond : Z -> bool) (fuel : nat) (mem : list Z)
      (p q : nat) (out : list Z) (c : Z) :
  write_while cond fuel mem p = Some (q, out) ->
  mem !! p = Some c -> cond c = true ->
  exists out', out = c :: out' /\
               write_while cond (pred fuel) mem (S p) = Some (q, out').
Proof.
  destruct fuel as [|fuel]; simpl; [discriminate|].
  intros H Hc Hcond. rewrite Hc in H. simpl in H. rewrite Hcond in H.
  destruct (write_while cond fuel mem (S p)) as [[q' out']|]; simpl in H;
    [|discriminate].
  injection H as <- <-. exists out'. split; reflexivity.
Qed.

Lemma write_while_run (cond : Z -> bool) (fuel : nat) (mem : list Z)
      (p q : nat) (out : list Z) :
  write_while cond fuel mem p = Some (q, out) ->
  forallb cond out = true /\ exists c, mem !! q = Some c /\ cond c = false.
Proof.
  revert p q out. induction fuel as [|fuel IH]; intros p q out; simpl;
    [discriminate|].
  destruct (mem !! p) as [c|] eqn:Hc; simpl; [|discriminate].
  destruct (cond c) eqn:Hcond.
  - destruct (write_while cond fuel mem (S p)) as [[q' out']|] eqn:Hrec; simpl;
      [|discriminate].
    intros [= <- <-]. destruct (IH _ _ _ Hrec) as [Hall Hstop].
    split; [simpl; now rewrite Hcond, Hall|exact Hstop].
  - intros [= <- <-]. split; [reflexivity|]. exists c. split; assumption.
Qed.

Lemma longest_run_intro (cond : Z -> bool) (mem : list Z) (n p : nat) :
  nul_at mem n -> cond NUL = false -> (p <= n)%nat ->
  longest_run cond mem p (write_while cond (scan_fuel mem) mem p).
Proof.
  intros Hnul Hcond Hp.
  destruct (write_while_spec mem n Hnul cond Hcond (scan_fuel mem) p Hp)
    as (q & out & Hw & Hq & Ht & _); [apply (scan_fuel_enough mem n Hnul)|].
  destruct (write_while_run _ _ _ _ _ _ Hw) as [Hall Hstop].
  exists q, out. split; [exact Hw|]. split; [lia|]. split; [exact Ht|].
  split; [exact Hall|exact Hstop].
Qed.

Lemma parse_block_comment_loop_opening (fuel : nat) (mem : list Z)
      (p q : nat) (out : list Z) :
  parse_block_comment_loop fuel mem p = Some (q, out) ->
  mem !! p = Some SLASH -> mem !! S p = Some STAR ->
  exists rest, out = SLASH :: STAR :: rest.
Proof.
  destruct fuel as [|[|fuel]]; simpl; [discriminate| |].
  - intros H Hc _. rewrite Hc in H. simpl in H. discriminate.
  - intros H Hc Hc1. rewrite Hc in H. simpl in H. rewrite Hc1 in H. simpl in H.
    destruct (mem !! S (S p)) as [c2|]; simpl in H; [|discriminate].
    destruct (c2 =? SLASH).
    + injection H as <- <-. eexists. reflexivity.
    + destruct (parse_block_comment_loop fuel mem (S (S p))) as [[q' out']|];
        simpl in H; [|discriminate].
      injection H as <- <-. eexists. reflexivity.
Qed.

Lemma scan_token_kind (mem : list Z) (p : nat) (kind : SpanKind)
      (text : list Z) (q : nat) :
  scan_token mem p = Some (Token kind text q) -> span_ok (Span kind text) = true.
Proof.
  unfold scan_token.
  destruct (mem !! p) as [c|] eqn:Hc; simpl; [|discriminate].
  destruct (Z.eqb_spec c SLASH) as [->|Hs].
  { destruct (mem !! S p) as [c1|] eqn:Hc1; simpl; [|discriminate].
    destruct (Z.eqb_spec c1 STAR) as [->|Hst].
    { destruct (parse_block_comment mem p) as [[q' out]|] eqn:Hb; simpl;
        [|discriminate].
      intros [= <- <- <-].
      destruct (parse_block_comment_loop_opening _ _ _ _ _ Hb Hc Hc1) as [rest ->].
      reflexivity. }
    destruct (Z.eqb_spec c1 SLASH) as [->|Hsl].
    { destruct (parse_inline_comment mem p) as [[q' out]|] eqn:Hb; simpl;
        [|discriminate].
      intros [= <- <- <-]. unfold parse_inline_comment in Hb.
      destruct (write_while_first _ _ _ _ _ _ SLASH Hb Hc eq_refl)
        as (out1 & -> & Hb1).
      destruct (write_while_first _ _ _ _ _ _ SLASH Hb1 Hc1 eq_refl)
        as (out2 & -> & Hb2).
      destruct (write_while_run _ _ _ _ _ _ Hb2) as [Hall _].
      simpl. exact Hall. }
    intros [= <- <- <-]. reflexivity. }
  destruct (Z.eqb_spec c DQUOTE) as [->|Hq].
  { destruct (parse_string_literal mem (S p)) as [[q' out]|]; simpl;
      [|discriminate].
    intros [= <- <- <-]. reflexivity. }
  destruct (is_punct c) eqn:Hp.
  { intros [= <- <- <-]. exact Hp. }
  destruct (is_latin c) eqn:Hl.
  { destruct (parse_identifier mem p) as [[q' out]|] eqn:Hb; simpl;
      [|discriminate].
    intros [= <- <- <-]. unfold parse_identifier in Hb.
    destruct (write_while_run _ _ _ _ _ _ Hb) as [Hall _].
    destruct (write_while_first _ _ _ _ _ _ c Hb Hc Hl) as (out1 & -> & _).
    exact Hall. }
  destruct (is_digit c) eqn:Hd.
  { destruct (parse_num mem p) as [[q' out]|] eqn:Hb; simpl;
      [|discriminate].
    intros [= <- <- <-]. unfold parse_num in Hb.
    destruct (write_while_run _ _ _ _ _ _ Hb) as [Hall _].
    destruct (write_while_first _ _ _ _ _ _ c Hb Hc Hd) as (out1 & -> & _).
    exact Hall. }
  discriminate.
Qed.

Lemma scan_token_diagnostic (mem : list Z) (p : nat) (c : Z) :
  scan_token mem p = Some (Unparsable c) -> starts_token c = false.
Proof.
  unfold scan_token, starts_token.
  destruct (mem !! p) as [c0|] eqn:Hc; simpl; [|discriminate].
  destruct (c0 =? SLASH) eqn:E1.
  { destruct (mem !! S p) as [c1|]; simpl; [|discriminate].
    destruct (c1 =? STAR).
    { destruct (parse_block_comment mem p) as [[? ?]|]; discriminate. }
    destruct (c1 =? SLASH).
    { destruct (parse_inline_comment mem p) as [[? ?]|]; discriminate. }
    discriminate. }
  destruct (c0 =? DQUOTE) eqn:E2.
  { destruct (parse_string_literal mem (S p)) as [[? ?]|]; discriminate. }
  destruct (is_punct c0) eqn:E3; [discriminate|].
  destruct (is_latin c0) eqn:E4.
  { destruct (parse_identifier mem p) as [[? ?]|]; discriminate. }
  destruct (is_digit c0) eqn:E5.
  { destruct (parse_num mem p) as [[? ?]|]; discriminate. }
  intros [= <-]. now rewrite E1, E2, E3, E4, E5.
Qed.

Lemma ws_span_ok (mem : list Z) (p q : nat) (ws : list Z) :
  parse_space mem p = Some (q, ws) -> forallb span_ok (ws_span ws) = true.
Proof.
  intros H. destruct (write_while_run _ _ _ _ _ _ H) as [Hall _].
  destruct ws as [|c ws]; [reflexivity|].
  simpl. simpl in Hall. now rewrite Hall.
Qed.

Lemma forallb_cons_app {A} (f : A -> bool) (a : A) (l l' : list A) :
  f a = true -> forallb f l = true -> forallb f l' = true ->
  forallb f (a :: l ++ l') = true.
Proof.
  intros Ha Hl Hl'. simpl. rewrite Ha, forallb_app, Hl, Hl'. reflexivity.
Qed.

Section Spans.
Variables (mem : list Z) (n : nat).
Hypothesis Hnul : nul_at mem n.

Lemma highlight_loop_spans (fuel p : nat) :
  (p <= n)%nat ->
  exists es e, highlight_loop fuel mem p = Some (es, e) /\
               forallb span_ok es = true.
Proof.
  revert p. induction fuel as [|fuel IH]; intros p Hp.
  { exists [], OutOfFuel. split; reflexivity. }
  destruct (nul_at_read mem n Hnul p Hp) as (c & Hc & Hc0).
  simpl. rewrite Hc. simpl.
  destruct (Z.eqb_spec c NUL) as [Hz|Hz].
  { exists [], Finished. split; reflexivity. }
  assert (Hlt : (p < n)%nat) by (destruct (Nat.eq_dec p n); [tauto|lia]).
  destruct (scan_token_spec mem n Hnul p c Hlt Hc)
    as [[Hst ->]|[_ (k & t & q & Hsc & Hq & Ht)]]; simpl.
  { exists [Diagnostic c], GaveUp. split; [reflexivity|].
    simpl. now rewrite Hst. }
  rewrite Hsc. simpl.
  destruct (parse_space_spec mem n Hnul q) as (q' & ws & Hsp & Hq' & _); [lia|].
  rewrite Hsp. simpl. destruct (IH q') as (es & e & -> & Hes); [lia|].
  simpl. eexists _, e. split; [reflexivity|].
  apply forallb_cons_app;
    [exact (scan_token_kind _ _ _ _ _ Hsc)|exact (ws_span_ok _ _ _ _ Hsp)|exact Hes].
Qed.

Lemma load_file_loop_spans (fuel p : nat) :
  (p <= n)%nat ->
  exists es e, load_file_loop fuel mem p = Some (es, e) /\
               forallb span_ok es = true.
Proof.
  revert p. induction fuel as [|fuel IH]; intros p Hp.
  { exists [], OutOfFuel. split; reflexivity. }
  destruct (nul_at_read mem n Hnul p Hp) as (c & Hc & Hc0).
  simpl. rewrite Hc. simpl.
  destruct (Z.eqb_spec c NUL) as [Hz|Hz].
  { exists [], Finished. split; reflexivity. }
  assert (Hlt : (p < n)%nat) by (destruct (Nat.eq_dec p n); [tauto|lia]).
  destruct (scan_token_spec mem n Hnul p c Hlt Hc)
    as [[Hst ->]|[_ (k & t & q & Hsc & Hq & Ht)]]; simpl.
  - destruct (parse_space_spec mem n Hnul p) as (q' & ws & Hsp & Hq' & _); [lia|].
    rewrite Hsp. simpl. destruct (IH q') as (es & e & -> & Hes); [lia|].
    simpl. eexists _, e. split; [reflexivity|].
    apply forallb_cons_app;
      [simpl; now rewrite Hst|exact (ws_span_ok _ _ _ _ Hsp)|exact Hes].
  - rewrite Hsc. simpl.
    destruct (parse_space_spec mem n Hnul q) as (q' & ws & Hsp & Hq' & _); [lia|].
    rewrite Hsp. simpl. destruct (IH q') as (es & e & -> & Hes); [lia|].
    simpl. eexists _, e. split; [reflexivity|].
    apply forallb_cons_app;
      [exact (scan_token_kind _ _ _ _ _ Hsc)|exact (ws_span_ok _ _ _ _ Hsp)|exact Hes].
Qed.
End Spans.

(** ** The two loops side by side *)

Lemma loops_agree (fuel : nat) (mem : list Z) (p : nat) (es : list Emit) :
  (forall c, mem !! p = Some c -> is_space c = false) ->
  highlight_loop fuel mem p = Some (es, Finished) <->
  load_file_loop fuel mem p = Some (es, Finished).
Proof.
  revert p es. induction fuel as [|fuel IH]; intros p es Hnsp; simpl.
  { split; discriminate. }
  destruct (mem !! p) as [c|] eqn:Hc; simpl; [|split; discriminate].
  destruct (Z.eqb_spec c NUL) as [Hz|Hz]; [reflexivity|].
  destruct (scan_token mem p) as [[kind text q|c']|] eqn:Hsc; simpl;
    [| |split; discriminate].
  - destruct (parse_space mem q) as [[q' ws]|] eqn:Hsp; simpl;
      [|split; discriminate].
    assert (Hq' : forall c, mem !! q' = Some c -> is_space c = false).
    { destruct (write_while_run _ _ _ _ _ _ Hsp) as [_ (c0 & Hc0 & Hf)].
      intros c1 Hc1. congruence. }
    destruct (highlight_loop fuel mem q') as [[es1 e1]|] eqn:H1;
      destruct (load_file_loop fuel mem q') as [[es2 e2]|] eqn:H2; simpl.
    + split; intros [= <- ->].
      * apply IH in H1; [|exact Hq']. rewrite H1 in H2.
        injection H2 as <- <-. reflexivity.
      * apply IH in H2; [|exact Hq']. rewrite H2 in H1.
        injection H1 as <- <-. reflexivity.
    + split; [|discriminate]. intros [= <- ->].
      apply IH in H1; [|exact Hq']. congruence.
    + split; [discriminate|]. intros [= <- ->].
      apply IH in H2; [|exact Hq']. congruence.
    + reflexivity.
  - split; [discriminate|].
    assert (c' = c).
    { unfold scan_token in Hsc. rewrite Hc in Hsc. simpl in Hsc.
      repeat match type of Hsc with
             | (if ?b then _ else _) = _ => destruct b
             | (mbind _ ?m) = _ => destruct m as [[? ?]|]; simpl in Hsc
             | (mbind _ ?m) = _ => destruct m; simpl in Hsc
             end; congruence. }
    subst c'.
    rewrite (parse_space_stays mem p c Hc (Hnsp c eq_refl)). simpl.
    rewrite (load_file_loop_stuck mem p c fuel Hc Hz (Hnsp c eq_refl)
               (scan_token_diagnostic _ _ _ Hsc)).
    simpl. discriminate.
Qed.

(** Where the loop of tte.cpp gives up, the loop of [load_file] is still
    running when its fuel is spent, whatever the fuel. *)
Lemma gives_up_spins (fuel : nat) (mem : list Z) (p : nat) (es : list Emit) :
  (forall c, mem !! p = Some c -> is_space c = false) ->
  highlight_loop fuel mem p = Some (es, GaveUp) ->
  forall fuel', exists es', load_file_loop fuel' mem p = Some (es', OutOfFuel).
Proof.
  revert p es. induction fuel as [|fuel IH]; intros p es Hnsp; simpl.
  { discriminate. }
  destruct (mem !! p) as [c|] eqn:Hc; simpl; [|discriminate].
  destruct (Z.eqb_spec c NUL) as [Hz|Hz]; [discriminate|].
  destruct (scan_token mem p) as [[kind text q|c']|] eqn:Hsc; simpl;
    [| |discriminate].
  - destruct (parse_space mem q) as [[q' ws]|] eqn:Hsp; simpl; [|discriminate].
    assert (Hq' : forall c, mem !! q' = Some c -> is_space c = false).
    { destruct (write_while_run _ _ _ _ _ _ Hsp) as [_ (c0 & Hc0 & Hf)].
      intros c1 Hc1. congruence. }
    destruct (highlight_loop fuel mem q') as [[es1 e1]|] eqn:H1; simpl;
      [|discriminate].
    intros [= <- ->] fuel'. pose proof (IH _ _ Hq' H1) as Hspin.
    destruct fuel' as [|fuel']; [eexists; reflexivity|].
    simpl. rewrite Hc. simpl.
    destruct (Z.eqb_spec c NUL) as [|_]; [contradiction|].
    rewrite Hsc. simpl. rewrite Hsp. simpl.
    destruct (Hspin fuel') as [es' ->]. simpl. eexists. reflexivity.
  - intros _ fuel'. exists (repeat (Diagnostic c) fuel').
    assert (Hst : starts_token c = false).
    { apply scan_token_diagnostic in Hsc as Hst. unfold scan_token in Hsc.
      rewrite Hc in Hsc. simpl in Hsc.
      assert (c' = c); [|now subst].
      repeat match type of Hsc with
             | (if ?b then _ else _) = _ => destruct b
             | (mbind _ ?m) = _ => destruct m as [[? ?]|]; simpl in Hsc
             | (mbind _ ?m) = _ => destruct m; simpl in Hsc
             end; congruence. }
    apply load_file_loop_stuck; auto.
Qed.

(** ** Where comments and string literals end *)

Lemma parse_block_comment_loop_end (fuel : nat) (mem : list Z)
      (p q : nat) (out : list Z) :
  parse_block_comment_loop fuel mem p = Some (q, out) ->
  (mem !! q = Some NUL /\ forall i, (p <= i < q)%nat -> ~ closes mem i) \/
  (exists i0, q = S (S i0) /\ (p <= i0)%nat /\ closes mem i0 /\
              forall i, (p <= i < i0)%nat -> ~ closes mem i).
Proof.
  revert p q out. induction fuel as [|fuel IH]; intros p q out; simpl;
    [discriminate|].
  destruct (mem !! p) as [c|] eqn:Hc; simpl; [|discriminate].
  destruct (Z.eqb_spec c NUL) as [->|Hz].
  { intros [= <- <-]. left. split; [exact Hc|]. intros i Hi. lia. }
  assert (Hrec : ~ closes mem p ->
    (parse_block_comment_loop fuel mem (S p) ≫= λ '(q, out), Some (q, c :: out))
      = Some (q, out) ->
    (mem !! q = Some NUL /\ forall i, (p <= i < q)%nat -> ~ closes mem i) \/
    (exists i0, q = S (S i0) /\ (p <= i0)%nat /\ closes mem i0 /\
                forall i, (p <= i < i0)%nat -> ~ closes mem i)).
  { intros Hno H.
    destruct (parse_block_comment_loop fuel mem (S p)) as [[q' out']|] eqn:Hl;
      simpl in H; [|discriminate].
    injection H as <- <-.
    assert (Hstep : forall b i, (p <= i < b)%nat ->
              (forall j, (S p <= j < b)%nat -> ~ closes mem j) -> ~ closes mem i).
    { intros b i Hi Hall. destruct (Nat.eq_dec i p) as [->|]; [exact Hno|].
      apply Hall. lia. }
    destruct (IH _ _ _ Hl) as [[Hq Hall]|(i0 & -> & Hi0 & Hcl & Hall)].
    - left. split; [exact Hq|]. intros i Hi. exact (Hstep _ i Hi Hall).
    - right. exists i0. split; [reflexivity|]. split; [lia|].
      split; [exact Hcl|]. intros i Hi. exact (Hstep _ i Hi Hall). }
  destruct (Z.eqb_spec c STAR) as [->|Hs].
  - destruct (mem !! S p) as [c1|] eqn:Hc1; simpl; [|discriminate].
    destruct (Z.eqb_spec c1 SLASH) as [->|Hsl].
    + intros [= <- <-]. right. exists p. split; [reflexivity|].
      split; [lia|]. split; [split; assumption|]. intros i Hi. lia.
    + apply Hrec. intros [_ H]. congruence.
  - apply Hrec. intros [H _]. congruence.
Qed.

Lemma parse_block_comment_loop_shortest (fuel : nat) (mem : list Z) (p : nat) :
  mem !! p = Some SLASH -> mem !! S p = Some STAR ->
  mem !! S (S p) = Some SLASH ->
  parse_block_comment_loop (S (S fuel)) mem p
  = Some (S (S (S p)), [SLASH; STAR; SLASH]).
Proof.
  intros H0 H1 H2. simpl. rewrite H0. simpl. rewrite H1. simpl.
  rewrite H2. reflexivity.
Qed.

Lemma parse_string_literal_loop_end (fuel : nat) (mem : list Z)
      (p q : nat) (out : list Z) :
  parse_string_literal_loop fuel mem p = Some (q, out) ->
  (mem !! q = Some NUL /\ forall i, (p <= i < q)%nat -> ~ closing_quote mem i) \/
  (exists i0, q = S i0 /\ (p <= i0)%nat /\ closing_quote mem i0 /\
              forall i, (p <= i < i0)%nat -> ~ closing_quote mem i).
Proof.
  revert p q out. induction fuel as [|fuel IH]; intros p q out; simpl;
    [discriminate|].
  destruct (mem !! p) as [c|] eqn:Hc; simpl; [|discriminate].
  destruct (Z.eqb_spec c NUL) as [->|Hz].
  { intros [= <- <-]. left. split; [exact Hc|]. intros i Hi. lia. }
  assert (Hrec : ~ closing_quote mem p ->
    (parse_string_literal_loop fuel mem (S p) ≫= λ '(q, out), Some (q, c :: out))
      = Some (q, out) ->
    (mem !! q = Some NUL /\ forall i, (p <= i < q)%nat -> ~ closing_quote mem i) \/
    (exists i0, q = S i0 /\ (p <= i0)%nat /\ closing_quote mem i0 /\
                forall i, (p <= i < i0)%nat -> ~ closing_quote mem i)).
  { intros Hno H.
    destruct (parse_string_literal_loop fuel mem (S p)) as [[q' out']|] eqn:Hl;
      simpl in H; [|discriminate].
    injection H as <- <-.
    assert (Hstep : forall b i, (p <= i < b)%nat ->
              (forall j, (S p <= j < b)%nat -> ~ closing_quote mem j) ->
              ~ closing_quote mem i).
    { intros b i Hi Hall. destruct (Nat.eq_dec i p) as [->|]; [exact Hno|].
      apply Hall. lia. }
    destruct (IH _ _ _ Hl) as [[Hq Hall]|(i0 & -> & Hi0 & Hcl & Hall)].
    - left. split; [exact Hq|]. intros i Hi. exact (Hstep _ i Hi Hall).
    - right. exists i0. split; [reflexivity|]. split; [lia|].
      split; [exact Hcl|]. intros i Hi. exact (Hstep _ i Hi Hall). }
  destruct (Z.eqb_spec c DQUOTE) as [->|Hs].
  - destruct (before mem p) as [prev|] eqn:Hprev; simpl; [|discriminate].
    destruct (Z.eqb_spec prev BACKSLASH) as [->|Hb]; simpl.
    + apply Hrec. intros (_ & prev & Hp & Hne). congruence.
    + intros [= <- <-]. right. exists p. split; [reflexivity|].
      split; [lia|]. split; [|intros i Hi; lia].
      split; [exact Hc|]. exists prev. split; assumption.
  - apply Hrec. intros [H _]. congruence.
Qed.

(** ** The decimal printers *)

Lemma decimal_value_snoc (digits : list Z) (d : Z) :
  decimal_value (digits ++ [d]) = 10 * decimal_value digits + (d - 48).
Proof. unfold decimal_value. rewrite fold_left_app. reflexivity. Qed.

Lemma u64_digits_zero (fuel : nat) : u64_digits fuel 0 = [].
Proof. destruct fuel; reflexivity. Qed.

Lemma u64_digits_value (fuel : nat) (num : Z) :
  0 <= num < 10 ^ Z.of_nat fuel ->
  decimal_value (rev (u64_digits fuel num)) = num.
Proof.
  revert num. induction fuel as [|fuel IH]; intros num Hnum.
  { simpl in *. assert (num = 0) by lia. subst. reflexivity. }
  simpl. destruct (Z.gtb_spec num 0) as [Hpos|Hz].
  - simpl. rewrite decimal_value_snoc, IH.
    + pose proof (Z.div_mod num 10 ltac:(lia)). lia.
    + rewrite Nat2Z.inj_succ, Z.pow_succ_r in Hnum by lia.
      split; [apply Z.div_pos; lia|].
      apply Z.div_lt_upper_bound; lia.
  - assert (num = 0) by lia. subst. reflexivity.
Qed.

Lemma u64_digits_leading (fuel : nat) (num : Z) :
  0 < num < 10 ^ Z.of_nat fuel -> hd 48 (rev (u64_digits fuel num)) <> 48.
Proof.
  revert num. induction fuel as [|fuel IH]; intros num Hnum.
  { simpl in Hnum. lia. }
  simpl. destruct (Z.gtb_spec num 0) as [_|]; [|lia]. simpl.
  pose proof (Z.div_mod num 10 ltac:(lia)) as Hdm.
  pose proof (Z.mod_pos_bound num 10 ltac:(lia)) as Hmod.
  destruct (Z.eq_dec (num / 10) 0) as [Hz|Hnz].
  - rewrite Hz, u64_digits_zero. simpl. lia.
  - assert (Hpos : 0 < num / 10 < 10 ^ Z.of_nat fuel).
    { pose proof (Z.div_pos num 10 ltac:(lia) ltac:(lia)).
      rewrite Nat2Z.inj_succ, Z.pow_succ_r in Hnum by lia.
      split; [lia|]. apply Z.div_lt_upper_bound; lia. }
    specialize (IH (num / 10) Hpos).
    destruct (rev (u64_digits fuel (num / 10))) as [|d ds] eqn:Hrev.
    + simpl in IH. contradiction.
    + simpl in *. exact IH.
Qed.

Lemma u64_digits_length (fuel : nat) (num : Z) :
  (length (u64_digits fuel num) <= fuel)%nat.
Proof.
  revert num. induction fuel as [|fuel IH]; intros num; simpl; [lia|].
  destruct (num >? 0); simpl; [|lia]. specialize (IH (num / 10)). lia.
Qed.

Lemma u64_to_str_spec (num : Z) :
  0 <= num < 2 ^ 64 ->
  decimal_value (u64_to_str num) = num /\
  forallb is_digit (u64_to_str num) = true /\
  (0 < length (u64_to_str num) <= 20)%nat /\
  (num <> 0 -> hd 48 (u64_to_str num) <> 48).
Proof.
  intros Hnum. unfold u64_to_str.
  destruct (Z.eqb_spec num 0) as [->|Hnz].
  { split; [reflexivity|]. split; [reflexivity|]. split; [simpl; lia|].
    congruence. }
  split; [apply u64_digits_value; simpl; lia|].
  split.
  { apply forallb_forall. intros d Hd. apply in_rev in Hd.
    pose proof (u64_digits_range 20 num) as Hr.
    rewrite List.Forall_forall in Hr. specialize (Hr d Hd).
    unfold is_digit. apply andb_true_iff. split; apply Z.leb_le; lia. }
  split.
  { rewrite length_rev. split; [|apply u64_digits_length].
    simpl. destruct (Z.gtb_spec num 0); [simpl; lia|lia]. }
  intros _. apply u64_digits_leading. simpl. lia.
Qed.

(** ** The column in the writes of UP and DOWN *)

Lemma cursor_right_column (first : list Z) (col : Z) :
  0 <= col < 2 ^ 63 ->
  moves_cursor first col
    (Ev_write 1 first :: (if col >? 0 then cursor_right col else [])).
Proof.
  intros Hcol. destruct (Z.gtb_spec col 0) as [Hpos|Hz].
  - right. split; [lia|]. unfold cursor_right, to_s64, s64_to_str.
    destruct (Z.ltb_spec col (2 ^ 63)); [|lia].
    destruct (Z.ltb_spec col 0); [lia|].
    destruct (u64_to_str_spec col) as (Hv & Hd & _); [lia|].
    eexists. split; [reflexivity|]. split; [exact Hd|exact Hv].
  - left. split; [lia|reflexivity].
Qed.

Lemma key_down_events (mem : list Z) (pos col pos' col' : Z)
      (evs : list event) :
  key_down mem pos col = Some (pos', col', evs) -> 0 <= col' < 2 ^ 63 ->
  (pos' = pos /\ col' = col /\ evs = []) \/
  moves_cursor (ESC :: bytes "[E") col' evs.
Proof.
  unfold key_down. intros H Hcol.
  destruct (down_eol (scan_fuel mem) mem pos) as [eol|];
    cbn [mbind option_bind] in H; [|discriminate].
  destruct (at_index mem eol) as [c|]; cbn [mbind option_bind] in H;
    [|discriminate].
  destruct (negb (c =? NUL)).
  - destruct (down_col (scan_fuel mem) mem (wrap (eol + 1)) 0 col)
      as [[p1 c1]|]; cbn [mbind option_bind] in H; [|discriminate].
    injection H as <- <- <-. right. now apply cursor_right_column.
  - injection H as <- <- <-. left. repeat split.
Qed.

Lemma key_up_events (mem : list Z) (pos col pos' col' : Z)
      (evs : list event) :
  key_up mem pos col = Some (pos', col', evs) -> 0 <= col' < 2 ^ 63 ->
  (pos' = pos /\ col' = col /\ evs = []) \/
  moves_cursor (ESC :: bytes "[F") col' evs.
Proof.
  unfold key_up. intros H Hcol.
  destruct (wrap (pos - col) >? 0).
  - destruct (up_loop _ mem _ 0) as [[p2 len]|];
      cbn [mbind option_bind] in H; [|discriminate].
    set (c1 := if len >? col then col else len) in *.
    right. destruct (Z.gtb_spec c1 0) as [Hpos|Hz].
    + injection H as <- <- <-.
      pose proof (cursor_right_column (ESC :: bytes "[F") c1 Hcol) as Hm.
      destruct (Z.gtb_spec c1 0); [exact Hm|lia].
    + injection H as <- <- <-.
      pose proof (cursor_right_column (ESC :: bytes "[F") c1 Hcol) as Hm.
      destruct (Z.gtb_spec c1 0); [lia|exact Hm].
  - injection H as <- <- <-. left. repeat split.
Qed.

(** ** Reads outside the buffer in the second prototype *)

Lemma wrap_negative (z : Z) : - 2 ^ 64 <= z < 0 -> wrap z = z + 2 ^ 64.
Proof.
  intros H. unfold wrap.
  rewrite <- (Z_mod_plus_full z 1 (2 ^ 64)), Z.mul_1_l.
  apply Z.mod_small. lia.
Qed.

Lemma at_index_outside (mem : list Z) (i : Z) :
  Z.of_nat (length mem) <= i -> at_index mem i = None.
Proof.
  intros H. unfold at_index. destruct (Z.ltb_spec i 0); [reflexivity|].
  apply lookup_ge_None. lia.
Qed.

Lemma key_down_outside (mem : list Z) (y x : Z) :
  Z.of_nat (length mem) <= y -> key_down mem y x = None.
Proof.
  intros H. unfold key_down, scan_fuel. cbn [down_eol].
  rewrite (at_index_outside mem y H). reflexivity.
Qed.

Lemma key_up_outside (mem : list Z) (y x : Z) :
  0 <= y < x -> x < 2 ^ 64 - 1 ->
  Z.of_nat (length mem) + (x - y) + 2 <= 2 ^ 64 ->
  key_up mem y x = None.
Proof.
  intros Hy Hx Hlen. unfold key_up.
  rewrite (wrap_negative (y - x)) by lia.
  destruct (Z.gtb_spec (y - x + 2 ^ 64) 0); [|lia].
  rewrite (wrap_small (x + 1)) by lia.
  rewrite (wrap_negative (y - (x + 1))) by lia.
  cbn [up_loop].
  destruct (Z.gtb_spec (y - (x + 1) + 2 ^ 64) 0); [|lia].
  rewrite (wrap_small (y - (x + 1) + 2 ^ 64 - 1)) by lia.
  rewrite at_index_outside by lia. reflexivity.
Qed.

Lemma Tte2_input_loop_app (turns rest : list turn) (st st' : Tte2.state)
      (evs : list event) :
  Tte2.input_loop turns st = Some (Loop_waiting, st', evs) ->
  Tte2.input_loop (turns ++ rest) st
  = ('(e, st'', evs') ← Tte2.input_loop rest st'; Some (e, st'', evs ++ evs')).
Proof.
  revert st st' evs.
  induction turns as [|t turns IH]; intros st st' evs.
  - cbn [Tte2.input_loop app].
    destruct (Tte2.keep_running st =? 0) eqn:Hk; [discriminate|].
    intros [= <- <-].
    destruct (Tte2.input_loop rest st) as [[[e st''] evs']|]; reflexivity.
  - cbn [Tte2.input_loop app].
    destruct (Tte2.keep_running st =? 0) eqn:Hk; [discriminate|].
    destruct (Tte2.iteration st t) as [[[st1|what] evs1]|]; simpl;
      [|discriminate|discriminate].
    destruct (Tte2.input_loop turns st1) as [[[e2 st2] evs2]|] eqn:Hl; simpl;
      [|discriminate].
    intros [= -> <- <-]. rewrite (IH _ _ _ Hl).
    destruct (Tte2.input_loop rest st2) as [[[e st''] evs']|]; simpl;
      [|reflexivity].
    now rewrite app_assoc.
Qed.

Lemma Tte2_enters (enters : list turn) (st : Tte2.state) :
  Forall (fun t => input_read t = Read_bytes [LF]) enters ->
  Tte2.keep_running st <> 0 ->
  0 <= Tte2.y st -> Tte2.y st + Z.of_nat (length enters) < 2 ^ 64 ->
  exists st' evs,
    Tte2.input_loop enters st = Some (Loop_waiting, st', evs) /\
    Tte2.buffer st' = Tte2.buffer st /\
    Tte2.y st' = Tte2.y st + Z.of_nat (length enters) /\
    Tte2.keep_running st' <> 0.
Proof.
  revert st. induction enters as [|t enters IH]; intros st Hall Hk Hy Hlen.
  - exists st, []. cbn [Tte2.input_loop].
    destruct (Z.eqb_spec (Tte2.keep_running st) 0); [contradiction|].
    split; [reflexivity|]. split; [reflexivity|]. split; [simpl; lia|exact Hk].
  - apply Forall_cons in Hall as [Ht Hall]. cbn [length] in Hlen.
    cbn [Tte2.input_loop].
    destruct (Z.eqb_spec (Tte2.keep_running st) 0); [contradiction|].
    unfold Tte2.iteration. rewrite Ht. cbn [Tte2.dispatch].
    change ((SPACE <=? LF) && (LF <=? TILDE)) with false.
    change (LF =? LF) with true. cbv iota. cbn [mbind option_bind].
    set (st1 := Tte2.set_xy _ _ _).
    destruct (IH st1) as (st' & evs & Hl & Hb & Hy' & Hk');
      [exact Hall|exact Hk| | |].
    + subst st1. cbn [Tte2.y Tte2.set_xy Tte2.set_line_buffer].
      rewrite wrap_small by lia. lia.
    + subst st1. cbn [Tte2.y Tte2.set_xy Tte2.set_line_buffer].
      rewrite wrap_small by lia. lia.
    + rewrite Hl. cbn [mbind option_bind]. eexists _, _.
      split; [reflexivity|]. split; [rewrite Hb; reflexivity|].
      split; [|exact Hk']. rewrite Hy'. subst st1.
      cbn [Tte2.y Tte2.set_xy Tte2.set_line_buffer length].
      rewrite wrap_small by lia. lia.
Qed.

Lemma Tte2_input_loop_undefined (t : turn) (turns : list turn)
      (st : Tte2.state) (input : list Z) :
  Tte2.keep_running st <> 0 -> input_read t = Read_bytes input ->
  (forall l, Tte2.dispatch (Tte2.set_line_buffer st l) input = None) ->
  Tte2.input_loop (t :: turns) st = None.
Proof.
  intros Hk Ht Hd. cbn [Tte2.input_loop].
  destruct (Z.eqb_spec (Tte2.keep_running st) 0); [contradiction|].
  unfold Tte2.iteration. rewrite Ht, Hd. reflexivity.
Qed.

Lemma Tte2_input_loop_step (t : turn) (turns : list turn)
      (st st1 : Tte2.state) (input : list Z) (evs : list event) :
  Tte2.keep_running st <> 0 -> input_read t = Read_bytes input ->
  Tte2.dispatch
    (Tte2.set_line_buffer st [Fmt_status (ws_col t) (ws_row t) input]) input
  = Some (Continue st1, evs) ->
  Tte2.input_loop turns st1 = None ->
  Tte2.input_loop (t :: turns) st = None.
Proof.
  intros Hk Ht Hd Hrest. cbn [Tte2.input_loop].
  destruct (Z.eqb_spec (Tte2.keep_running st) 0); [contradiction|].
  unfold Tte2.iteration. rewrite Ht, Hd. cbn [mbind option_bind].
  rewrite Hrest. reflexivity.
Qed.

(** ** UP and DOWN alone in the second prototype *)

Lemma Tte2_vertical_ok (mem : list Z) (n : nat) (turns : list turn)
      (st : Tte2.state) :
  nul_at mem n -> Z.of_nat (length mem) < 2 ^ 64 ->
  Tte2.data (Tte2.buffer st) = mem ->
  on_line mem n (Tte2.y st) (Tte2.x st) ->
  Forall vertical turns ->
  exists e st' evs,
    Tte2.input_loop turns st = Some (e, st', evs) /\
    Tte2.data (Tte2.buffer st') = mem /\
    on_line mem n (Tte2.y st') (Tte2.x st').
Proof.
  intros Hnul Hsize. revert st.
  induction turns as [|t turns IH]; intros st Hbuf Hon Hall;
    cbn [Tte2.input_loop];
    destruct (Tte2.keep_running st =? 0); try (eexists _, st, _; now eauto).
  apply Forall_cons in Hall as [Ht Hall].
  assert (Hstep : exists st1 evs1,
            Tte2.iteration st t = Some (Continue st1, evs1) /\
            Tte2.data (Tte2.buffer st1) = mem /\
            on_line mem n (Tte2.y st1) (Tte2.x st1)).
  { unfold Tte2.iteration, Tte2.dispatch.
    destruct Ht as [-> | ->]; unfold arrow;
      change ((ESC =? ESC) && (LBRACKET =? LBRACKET)) with true;
      cbn [Tte2.buffer Tte2.x Tte2.y Tte2.set_line_buffer]; rewrite Hbuf.
    - change (65 =? 65) with true. cbv iota.
      destruct (key_up_on_line mem n Hnul Hsize _ _ Hon)
        as (y' & x' & evs & -> & Hon').
      cbn [mbind option_bind]. eexists _, _. split; [reflexivity|].
      split; [exact Hbuf|exact Hon'].
    - change (66 =? 65) with false. change (66 =? 66) with true. cbv iota.
      destruct (key_down_on_line mem n Hnul Hsize _ _ Hon)
        as (y' & x' & evs & -> & Hon').
      cbn [mbind option_bind]. eexists _, _. split; [reflexivity|].
      split; [exact Hbuf|exact Hon']. }
  destruct Hstep as (st1 & evs1 & -> & Hbuf1 & Hon1).
  cbn [mbind option_bind].
  destruct (IH st1 Hbuf1 Hon1 Hall) as (e & st' & evs & -> & Hbuf' & Hon').
  cbn [mbind option_bind]. eexists _, _, _. split; [reflexivity|].
  split; assumption.
Qed.

Lemma load_file_highlight_defined (fuel : nat) (mem : list Z) :
  In NUL mem ->
  exists es e, load_file_highlight fuel mem = Some (es, e) /\ e <> GaveUp.
Proof.
  intros Hin. pose proof (nul_at_cstring mem Hin) as Hnul.
  set (n := length (cstring mem)) in *.
  destruct (parse_space_spec mem n Hnul 0%nat)
    as (p0 & ws & Hsp & Hp0 & _); [lia|].
  destruct (load_file_loop_spans mem n Hnul fuel p0) as (es & e & Hl & _); [lia|].
  unfold load_file_highlight. rewrite Hsp. cbn [mbind option_bind].
  rewrite Hl. cbn [mbind option_bind]. eexists _, e. split; [reflexivity|].
  exact (load_file_loop_never_gives_up _ _ _ _ _ Hl).
Qed.

(** ** What clears [keep_running] *)

Lemma Tte_dispatch_keeps_running (st st' : Tte.state) (r : read_result)
      (evs : list event) :
  Tte.dispatch st r = Some (Continue st', evs) ->
  Tte.keep_running st' = Tte.keep_running st \/ r = Read_bytes [ESC].
Proof.
  unfold Tte.dispatch, Tte.key_right, Tte.key_left. intros H.
  destruct r as [|[|c0 [|c1 [|c2 [|c3 input]]]]]; try discriminate.
  - destruct (c0 =? 1); [injection H as <- _; now left|].
    destruct (Z.eqb_spec c0 ESC) as [->|]; [now right|].
    destruct (c0 =? DEL); injection H as <- _; now left.
  - left. repeat (case_match; simplify_option_eq); reflexivity.
Qed.

Lemma Tte_input_loop_left (turns : list turn) (st st' : Tte.state)
      (evs : list event) :
  Tte.input_loop turns st = Some (Loop_left, st', evs) ->
  Tte.keep_running st <> 0 -> Exists Tte_quits turns.
Proof.
  revert st st' evs.
  induction turns as [|t turns IH]; intros st st' evs; cbn [Tte.input_loop];
    destruct (Z.eqb_spec (Tte.keep_running st) 0) as [Hk|Hk];
    try (intros _ Hne; contradiction); [discriminate|].
  unfold Tte.iteration.
  destruct (Tte.dispatch st (input_read t)) as [[[st1|what] evs1]|] eqn:Hd;
    cbn [mbind option_bind]; [|discriminate|discriminate].
  destruct (Tte.input_loop turns st1) as [[[e2 st2] evs2]|] eqn:Hl;
    cbn [mbind option_bind]; [|discriminate].
  intros [= -> <- <-] _.
  destruct (Tte_dispatch_keeps_running _ _ _ _ Hd) as [Hsame|Hesc].
  - apply Exists_cons_tl. apply (IH _ _ _ Hl). congruence.
  - apply Exists_cons_hd. exact Hesc.
Qed.

Lemma Tte2_dispatch_keeps_running (st st' : Tte2.state) (input : list Z)
      (evs : list event) :
  Tte2.dispatch st input = Some (Continue st', evs) ->
  Tte2.keep_running st' = Tte2.keep_running st \/ input = [ESC] \/ input = [17].
Proof.
  unfold Tte2.dispatch, Tte2.key_right, Tte2.key_left, Tte2.key_backspace.
  intros H.
  destruct input as [|c0 [|c1 [|c2 [|c3 input]]]];
    try (injection H as <- _; now left).
  - destruct ((SPACE <=? c0) && (c0 <=? TILDE)); [injection H as <- _; now left|].
    destruct (c0 =? LF); [injection H as <- _; now left|].
    destruct (c0 =? DEL).
    { left. repeat (case_match; simplify_option_eq); reflexivity. }
    destruct (Z.eqb_spec c0 17) as [->|]; [right; now right|].
    destruct (Z.eqb_spec c0 ESC) as [->|]; [right; now left|].
    injection H as <- _; now left.
  - left. repeat (case_match; simplify_option_eq); reflexivity.
Qed.

Lemma Tte2_input_loop_left (turns : list turn) (st st' : Tte2.state)
      (evs : list event) :
  Tte2.input_loop turns st = Some (Loop_left, st', evs) ->
  Tte2.keep_running st <> 0 -> Exists Tte2_quits turns.
Proof.
  revert st st' evs.
  induction turns as [|t turns IH]; intros st st' evs; cbn [Tte2.input_loop];
    destruct (Z.eqb_spec (Tte2.keep_running st) 0) as [Hk|Hk];
    try (intros _ Hne; contradiction); [discriminate|].
  unfold Tte2.iteration.
  destruct (input_read t) as [|input] eqn:Hr; [discriminate|].
  destruct (Tte2.dispatch _ input) as [[[st1|what] evs1]|] eqn:Hd;
    cbn [mbind option_bind]; [|discriminate|discriminate].
  destruct (Tte2.input_loop turns st1) as [[[e2 st2] evs2]|] eqn:Hl;
    cbn [mbind option_bind]; [|discriminate].
  intros [= -> <- <-] _.
  destruct (Tte2_dispatch_keeps_running _ _ _ _ Hd) as [Hsame|Hq].
  - apply Exists_cons_tl. apply (IH _ _ _ Hl). rewrite Hsame. exact Hk.
  - apply Exists_cons_hd. unfold Tte2_quits. rewrite Hr.
    destruct Hq as [-> | ->]; [now left|now right].
Qed.

(** ** The bytes that reach the terminal *)

Lemma cstring_no_nul (mem : list Z) : ~ In NUL (cstring mem).
Proof.
  induction mem as [|c mem IH]; simpl; [tauto|].
  destruct (Z.eqb_spec c NUL); simpl; [tauto|]. intros [H|H]; auto.
Qed.

Lemma highlight_text_prefix (fuel : nat) (mem : list Z) (es : list Emit)
      (e : ScanEnd) :
  In NUL mem -> highlight fuel mem = Some (es, e) -> e <> OutOfFuel ->
  exists rest, cstring mem = span_text es ++ rest.
Proof.
  intros Hin. pose proof (nul_at_cstring mem Hin) as Hnul.
  set (n := length (cstring mem)) in *.
  assert (Htake : take n mem = cstring mem) by apply cstring_take.
  destruct (parse_space_spec mem n Hnul 0%nat)
    as (p0 & ws & Hsp & Hp0 & Hws & _); [lia|].
  simpl in Hws. unfold highlight. rewrite Hsp. simpl.
  destruct (highlight_loop fuel mem p0) as [[es' e']|] eqn:Hl; simpl;
    [|discriminate].
  intros [= <- <-] He.
  pose proof (highlight_loop_sound mem n Hnul fuel p0 es' e' ltac:(lia) Hl) as H.
  destruct e'; [| |contradiction].
  - exists []. rewrite app_nil_r, span_text_app, Hws, H. now symmetry.
  - destruct H as (es0 & c & rest & -> & _ & Hrest). exists (c :: rest).
    rewrite <- Htake, Hrest, <- Hws, !span_text_app. simpl.
    rewrite app_nil_r, <- !app_assoc. reflexivity.
Qed.

Lemma load_file_text (fuel : nat) (mem : list Z) (es : list Emit) :
  In NUL mem -> load_file_highlight fuel mem = Some (es, Finished) ->
  cstring mem = span_text es.
Proof.
  intros Hin. pose proof (nul_at_cstring mem Hin) as Hnul.
  set (n := length (cstring mem)) in *.
  assert (Htake : take n mem = cstring mem) by apply cstring_take.
  destruct (parse_space_spec mem n Hnul 0%nat)
    as (p0 & ws & Hsp & Hp0 & Hws & _); [lia|].
  simpl in Hws. unfold load_file_highlight. rewrite Hsp. simpl.
  destruct (load_file_loop fuel mem p0) as [[es' e']|] eqn:Hl; simpl;
    [|discriminate].
  intros [= <- ->].
  pose proof (load_file_loop_sound mem n Hnul fuel p0 es' ltac:(lia) Hl) as H.
  rewrite span_text_app, Hws, H. now symmetry.
Qed.

Lemma written_app (fd : Z) (t1 t2 : list event) :
  written fd (t1 ++ t2) = written fd t1 ++ written fd t2.
Proof. unfold written. apply flat_map_app. Qed.

Lemma written_render_span (kind : SpanKind) (text : list Z) :
  ~ In NUL text ->
  In NUL (written 1 (render (Span kind text))) <-> kind = BlockComment.
Proof.
  intros Hno.
  assert (H6 : In NUL (ESC :: bytes "[6m" ++ [NUL])) by (vm_compute; tauto).
  assert (H30 : ~ In NUL (ESC :: bytes "[30m")) by (vm_compute; lia).
  assert (H33 : ~ In NUL (ESC :: bytes "[1;33m")) by (vm_compute; lia).
  assert (H34 : ~ In NUL (ESC :: bytes "[1;34m")) by (vm_compute; lia).
  assert (Hm : ~ In NUL (ESC :: bytes "[m")) by (vm_compute; lia).
  destruct kind; cbn [render style_on style_off app written flat_map];
    change (1 =? 1) with true; cbv iota; rewrite ?app_nil_r, ?in_app_iff;
    split; try discriminate; try reflexivity; try tauto.
Qed.

Lemma written_render_spans (es : list Emit) :
  ~ In NUL (span_text es) ->
  In NUL (written 1 (concat (map render es))) <->
  exists text, In (Span BlockComment text) es.
Proof.
  induction es as [|[kind text|c] es IH]; intros Hno.
  - simpl. split; [tauto|]. intros [? []].
  - cbn [span_text] in Hno. rewrite in_app_iff in Hno.
    cbn [map concat]. rewrite written_app, in_app_iff.
    rewrite (written_render_span kind text) by tauto.
    rewrite IH by tauto. split.
    + intros [->|[t Ht]]; [exists text; now left|exists t; now right].
    + intros [t [Ht|Ht]]; [left; congruence|right; now exists t].
  - cbn [span_text] in Hno. cbn [map concat render app written flat_map].
    change (flat_map _ (concat (map render es)))
      with (written 1 (concat (map render es))).
    rewrite (IH Hno). split.
    + intros [t Ht]. exists t. now right.
    + intros [t [Ht|Ht]]; [discriminate|now exists t].
Qed.

(** * Examples *)

(** The two tokenizer examples of the specification. *)
Example highlight_line_comment :
  highlight 16 (bytes "// hi" ++ [LF] ++ bytes "x=1;" ++ [NUL])
  = Some ([Span LineComment (bytes "// hi"); Span Whitespace [LF];
           Span Identifier (bytes "x"); Span Punctuation (bytes "=");
           Span Number (bytes "1"); Span Punctuation (bytes ";")],
          Finished).
Proof. reflexivity. Qed.

Example highlight_block_comment :
  load_file_highlight 16 (bytes "/* a */b" ++ [NUL])
  = Some ([Span BlockComment (bytes "/* a */"); Span Identifier (bytes "b")],
          Finished).
Proof. reflexivity. Qed.

(** An escaped quote does not end a string literal; the quote after a
    doubled backslash does not end it either. *)
Example highlight_string_literal :
  highlight 16 ([DQUOTE; 97; BACKSLASH; DQUOTE; 98; DQUOTE; 99; NUL])
  = Some ([Span StringLiteral [DQUOTE; 97; BACKSLASH; DQUOTE; 98; DQUOTE];
           Span Identifier [99]], Finished)
  /\ highlight 16 ([DQUOTE; BACKSLASH; BACKSLASH; DQUOTE; 99; NUL])
     = Some ([Span StringLiteral [DQUOTE; BACKSLASH; BACKSLASH; DQUOTE; 99]],
             Finished).
Proof. split; reflexivity. Qed.

(** The decimal printers. *)
Example s64_to_str_examples :
  s64_to_str 0 = bytes "0" /\ s64_to_str 4096 = bytes "4096" /\
  s64_to_str (to_s64 (wrap (-1))) = bytes "-1".
Proof. repeat split; reflexivity. Qed.

(** The second prototype never gets out of [load_file] on a file that
    holds a "+": whatever the fuel, [main] is still in the loop, and has
    entered neither [init_screen] nor the input loop. *)
Example load_file_spins_on_plus (fuel : nat) :
  let w := {| w_TERM := Some (bytes "xterm");
              w_argv := [bytes "tte"; bytes "f.c"];
              w_open := fun _ => Some (bytes "a+b");
              w_masks := {| ICANON := 2; ECHO := 8; IXON := 1024; IXOFF := 4096 |};
              w_tcgetattr := Some {| c_iflag := 1280; c_lflag := 11 |};
              w_tcsetattr := fun _ => true;
              w_stdin := [chunk [ESC]] |} in
  exists trace, Tte2.main (S fuel) w = Some (Scanning, None, trace).
Proof.
  intros w. unfold Tte2.main, Tte2.load_file.
  change (init (argv0 w) (w_TERM w)) with (true, @nil event).
  cbn [negb w_argv w w_open Tte2.data].
  unfold load_file_highlight.
  change (parse_space (bytes "a+b" ++ [NUL]) 0) with (Some (0%nat, @nil Z)).
  cbn [mbind option_bind load_file_loop].
  change ((bytes "a+b" ++ [NUL]) !! 0%nat) with (Some 97).
  cbn [mbind option_bind]. change (97 =? NUL) with false. cbv iota.
  change (scan_token (bytes "a+b" ++ [NUL]) 0) with (Some (Token Identifier [97] 1)).
  cbn [mbind option_bind].
  change (parse_space (bytes "a+b" ++ [NUL]) 1) with (Some (1%nat, @nil Z)).
  cbn [mbind option_bind].
  rewrite (load_file_loop_stuck _ 1 43 fuel);
    [|reflexivity|discriminate|reflexivity|reflexivity].
  cbn [mbind option_bind]. eexists. reflexivity.
Qed.

(** * The claims *)

(** C1 (as amended).  For every NUL-terminated buffer: the highlighting loop
    of tte.cpp always ends, either at the terminating NUL or by giving up
    with the "Unable to parse" message at a byte that starts no token; when
    it (or the loop of [load_file]) reaches the NUL, the texts of the spans
    written, concatenated in order, are exactly the buffer up to that NUL;
    when tte.cpp gives up, they are exactly the bytes before the offending
    byte; and when every byte of the buffer is white space or starts a token
    both loops reach the NUL. *)
Theorem highlight_covers_buffer (mem : list Z) :
  In NUL mem ->
  (exists es e, highlight (scan_fuel mem) mem = Some (es, e) /\ e <> OutOfFuel) /\
  (forall fuel es, highlight fuel mem = Some (es, Finished) ->
                   span_text es = cstring mem) /\
  (forall fuel es, highlight fuel mem = Some (es, GaveUp) ->
     exists es0 c rest, es = es0 ++ [Diagnostic c] /\ starts_token c = false /\
                        cstring mem = span_text es0 ++ c :: rest) /\
  (forall fuel es, load_file_highlight fuel mem = Some (es, Finished) ->
                   span_text es = cstring mem) /\
  (Forall (fun c => is_space c || starts_token c = true) (cstring mem) ->
   exists es, highlight (scan_fuel mem) mem = Some (es, Finished) /\
              load_file_highlight (scan_fuel mem) mem = Some (es, Finished)).
Proof.
  intros Hin. pose proof (nul_at_cstring mem Hin) as Hnul.
  set (n := length (cstring mem)) in *.
  assert (Htake : take n mem = cstring mem) by apply cstring_take.
  destruct (parse_space_spec mem n Hnul 0%nat)
    as (p0 & ws & Hsp & Hp0 & Hws & Hstop); [lia|].
  simpl in Hws.
  split; [|repeat split].
  - exact (highlight_total mem Hin).
  - intros fuel es. unfold highlight. rewrite Hsp. simpl.
    destruct (highlight_loop fuel mem p0) as [[es' e']|] eqn:Hl; simpl; [|discriminate].
    intros [= <- ->].
    pose proof (highlight_loop_sound mem n Hnul fuel p0 es' Finished ltac:(lia) Hl) as H.
    simpl in H. rewrite span_text_app, Hws, H. exact Htake.
  - intros fuel es. unfold highlight. rewrite Hsp. simpl.
    destruct (highlight_loop fuel mem p0) as [[es' e']|] eqn:Hl; simpl; [|discriminate].
    intros [= <- ->].
    destruct (highlight_loop_sound mem n Hnul fuel p0 es' GaveUp ltac:(lia) Hl)
      as (es0 & c & rest & -> & Hst & Hrest).
    exists (ws_span ws ++ es0), c, rest.
    split; [now rewrite app_assoc|]. split; [exact Hst|].
    rewrite <- Htake, Hrest, <- Hws, span_text_app, <- !app_assoc. reflexivity.
  - intros fuel es. unfold load_file_highlight. rewrite Hsp. simpl.
    destruct (load_file_loop fuel mem p0) as [[es' e']|] eqn:Hl; simpl; [|discriminate].
    intros [= <- ->].
    pose proof (load_file_loop_sound mem n Hnul fuel p0 es' ltac:(lia) Hl) as H.
    rewrite span_text_app, Hws, H. exact Htake.
  - intros Hall.
    destruct (loops_finish mem n Hnul) with (fuel := scan_fuel mem) (p := p0)
      as (es & Hl1 & Hl2).
    + intros q c Hq Hc. rewrite Forall_forall in Hall. apply Hall.
      rewrite <- Htake. apply list_elem_of_lookup. exists q. rewrite lookup_take_lt; auto.
    + lia.
    + apply (scan_fuel_enough mem n Hnul).
    + exact Hstop.
    + unfold highlight, load_file_highlight. rewrite Hsp.
      cbn [mbind option_bind]. rewrite Hl1, Hl2.
      eexists. split; reflexivity.
Qed.

Lemma highlight_covers_buffer_witness :
  let mem := bytes "/* a */b" ++ [NUL] in
  highlight (scan_fuel mem) mem
    = Some ([Span BlockComment (bytes "/* a */"); Span Identifier (bytes "b")],
            Finished)
  /\ span_text [Span BlockComment (bytes "/* a */"); Span Identifier (bytes "b")]
     = cstring mem.
Proof.
  intros mem.
  assert (Hin : In NUL mem) by (vm_compute; tauto).
  destruct (highlight_covers_buffer mem Hin) as (_ & Hfin & _).
  assert (Hrun : highlight (scan_fuel mem) mem
    = Some ([Span BlockComment (bytes "/* a */"); Span Identifier (bytes "b")],
            Finished)) by (vm_compute; reflexivity).
  split; [exact Hrun|]. exact (Hfin _ _ Hrun).
Defined.

(** C1, the claim as it stands, fails on the buffer holding "+": tte.cpp
    writes no span at all and gives up, so the spans do not reproduce the
    buffer. *)
Lemma highlight_covers_buffer_counterexample :
  let mem := [43; NUL] in
  In NUL mem /\
  highlight (scan_fuel mem) mem = Some ([Diagnostic 43], GaveUp) /\
  span_text [Diagnostic 43] <> cstring mem.
Proof.
  split; [simpl; tauto|]. split; [reflexivity|]. discriminate.
Qed.


(** C2.  Take a cursor at column [col] of a line [s1 .. e1) that a newline
    ends, with [col] at most the length of the line, and let the next line
    [e1+1 .. e2) be shorter than [col].  In both prototypes the DOWN arrow
    puts the cursor at the end of the next line with the column clamped to
    that line's length, and the UP arrow that follows brings it back to the
    first line at the clamped column, not at [col]. *)
Theorem down_clamps_column_up_keeps_it (mem : list Z) (s1 e1 e2 col : Z) :
  line mem s1 e1 -> at_index mem e1 = Some LF -> line mem (e1 + 1) e2 ->
  e2 < 2 ^ 64 -> 0 <= col <= e1 - s1 -> e2 - (e1 + 1) < col ->
  let len2 := e2 - (e1 + 1) in
  (forall st, Tte.buffer st = mem ->
     Tte.buffer_pos st = s1 + col -> Tte.buffer_line_pos st = col ->
     exists evs evs',
       Tte.dispatch st (Read_bytes (arrow 66))
       = Some (Continue (Tte.set_cursor st (e1 + 1 + len2) len2), evs) /\
       Tte.dispatch (Tte.set_cursor st (e1 + 1 + len2) len2) (Read_bytes (arrow 65))
       = Some (Continue (Tte.set_cursor st (s1 + len2) len2), evs')) /\
  (forall st, Tte2.data (Tte2.buffer st) = mem ->
     Tte2.y st = s1 + col -> Tte2.x st = col ->
     exists evs evs',
       Tte2.dispatch st (arrow 66)
       = Some (Continue (Tte2.set_xy st len2 (e1 + 1 + len2)), evs) /\
       Tte2.dispatch (Tte2.set_xy st len2 (e1 + 1 + len2)) (arrow 65)
       = Some (Continue (Tte2.set_xy st len2 (s1 + len2)), evs')).
Proof.
  intros Hl1 Hlf Hl2 He2 Hcol Hshort len2.
  assert (Hs : 0 <= s1 <= e1 /\ e1 + 1 <= e2).
  { destruct Hl1 as (? & _), Hl2 as (? & _). lia. }
  destruct (key_down_spec mem s1 e1 e2 (s1 + col) col Hl1 Hlf Hl2)
    as (evs & Hdown); [lia|lia|lia|].
  destruct (key_up_spec mem s1 e1 (e1 + 1 + len2) len2 Hl1 Hlf)
    as (evs' & Hup); [lia|unfold len2; lia|unfold len2; lia|].
  replace (Z.min col (e2 - (e1 + 1))) with len2 in Hdown by (unfold len2; lia).
  replace (Z.min len2 (e1 - s1)) with len2 in Hup by (unfold len2; lia).
  split.
  - intros st Hbuf Hpos Hlp. exists evs, evs'. unfold Tte.dispatch, arrow.
    change ((ESC =? ESC) && (LBRACKET =? LBRACKET)) with true.
    change (66 =? 65) with false. change (66 =? 66) with true.
    change (65 =? 65) with true. cbv iota.
    rewrite Hbuf, Hpos, Hlp, Hdown. cbn [mbind option_bind].
    split; [reflexivity|].
    cbn [Tte.set_cursor Tte.buffer Tte.buffer_pos Tte.buffer_line_pos].
    rewrite Hbuf, Hup. reflexivity.
  - intros st Hbuf Hy Hx. exists evs, evs'. unfold Tte2.dispatch, arrow.
    change ((ESC =? ESC) && (LBRACKET =? LBRACKET)) with true.
    change (66 =? 65) with false. change (66 =? 66) with true.
    change (65 =? 65) with true. cbv iota.
    rewrite Hbuf, Hy, Hx, Hdown. cbn [mbind option_bind].
    split; [reflexivity|].
    cbn [Tte2.set_xy Tte2.buffer Tte2.x Tte2.y].
    rewrite Hbuf, Hup. reflexivity.
Qed.

(** The example of the claim: lines of lengths 5, 2 and 8, the cursor at
    column 5 of the first. *)
Lemma down_clamps_column_up_keeps_it_witness :
  let mem := bytes "abcde" ++ [LF] ++ bytes "xy" ++ [LF] ++ bytes "12345678" ++ [NUL] in
  let st := Tte.set_cursor (Tte.start mem) 5 5 in
  exists evs evs',
    Tte.dispatch st (Read_bytes (arrow 66))
    = Some (Continue (Tte.set_cursor st 8 2), evs) /\
    Tte.dispatch (Tte.set_cursor st 8 2) (Read_bytes (arrow 65))
    = Some (Continue (Tte.set_cursor st 2 2), evs').
Proof.
  intros mem st.
  assert (Hread : forall lo hi i, lo <= i < hi -> (hi - lo <= 8) ->
            (forall k, (k < 8)%nat -> lo + Z.of_nat k < hi ->
               exists c, at_index mem (lo + Z.of_nat k) = Some c /\ c <> NUL /\ c <> LF) ->
            exists c, at_index mem i = Some c /\ c <> NUL /\ c <> LF).
  { intros lo hi i Hi Hlen Hk.
    replace i with (lo + Z.of_nat (Z.to_nat (i - lo))) by lia.
    apply Hk; lia. }
  assert (Hl1 : line mem 0 5).
  { split; [lia|]. split; [left; reflexivity|]. split.
    - intros i Hi. apply (Hread 0 5 i Hi); [lia|].
      intros k Hk Hlt.
      do 8 (destruct k as [|k];
            [(eexists; split; [reflexivity|split; discriminate]) || lia|]); lia.
    - exists LF. split; [reflexivity|right; reflexivity]. }
  assert (Hl2 : line mem (5 + 1) 8).
  { split; [lia|]. split; [right; reflexivity|]. split.
    - intros i Hi. apply (Hread 6 8 i Hi); [lia|].
      intros k Hk Hlt.
      do 8 (destruct k as [|k];
            [(eexists; split; [reflexivity|split; discriminate]) || lia|]); lia.
    - exists LF. split; [reflexivity|right; reflexivity]. }
  destruct (down_clamps_column_up_keeps_it mem 0 5 8 5 Hl1 eq_refl Hl2)
    as [Htte _]; [lia|lia|lia|].
  exact (Htte st eq_refl eq_refl eq_refl).
Defined.

(** C3 (the code at the failing input).  At a byte that is neither NUL nor
    white space and starts no token, tte.cpp prints the message and
    returns, and the loop of [load_file] prints the message again and again
    without ever moving the pointer: whatever the fuel, it is spent with
    the loop still on that byte. *)
Theorem unparsable_byte_stops_scan (mem : list Z) (p : nat) (c : Z) (fuel : nat) :
  mem !! p = Some c -> c <> NUL -> is_space c = false -> starts_token c = false ->
  highlight_loop (S fuel) mem p = Some ([Diagnostic c], GaveUp) /\
  load_file_loop fuel mem p = Some (repeat (Diagnostic c) fuel, OutOfFuel).
Proof.
  intros Hc Hz Hsp Hst. split.
  - now apply highlight_loop_gives_up.
  - now apply load_file_loop_stuck.
Qed.

Lemma unparsable_byte_stops_scan_witness :
  highlight_loop 3 [43; NUL] 0 = Some ([Diagnostic 43], GaveUp) /\
  load_file_loop 2 [43; NUL] 0 = Some ([Diagnostic 43; Diagnostic 43], OutOfFuel).
Proof.
  apply (unparsable_byte_stops_scan [43; NUL] 0%nat 43 2);
    [reflexivity|discriminate|reflexivity|reflexivity].
Defined.

(** C4 (as amended).  A chunk that the decoder of the specification calls
    Unrecognized is treated as follows.  In tte.cpp a single byte is
    echoed or ignored and the loop goes on with the state as it was, and
    every other such chunk fails an [assert].  In the second prototype the
    ESC [ sequences with a final byte other than A, B, C, D fail the
    [assert], and every other such chunk is ignored: the loop goes on,
    nothing but the text of the footer has changed. *)
Theorem unrecognized_chunk_handling (input : list Z) (t : turn) :
  Spec.decode input = Spec.Unrecognized input ->
  input_read t = Read_bytes input ->
  (forall st,
     (length input = 1%nat /\
      exists evs, Tte.iteration st t = Some (Continue st, evs)) \/
     (length input <> 1%nat /\
      exists what evs, Tte.iteration st t = Some (Abort what, evs))) /\
  (forall st,
     ((exists final, input = arrow final) /\
      exists evs,
        Tte2.iteration st t = Some (Abort "Unhandled escape key input", evs)) \/
     ((forall final, input <> arrow final) /\
      exists evs,
        Tte2.iteration st t
        = Some (Continue (Tte2.set_line_buffer st
                            [Fmt_status (ws_col t) (ws_row t) input]), evs))).
Proof.
  intros Hdec Hread. split; intros st.
  - unfold Tte.iteration. rewrite Hread.
    destruct input as [|c0 [|c1 [|c2 [|c3 rest]]]].
    + right. split; [discriminate|]. eexists _, _; reflexivity.
    + left. split; [reflexivity|]. unfold Tte.dispatch.
      simpl in Hdec.
      destruct (c0 =? 1); [eexists; reflexivity|].
      destruct (Z.eqb_spec c0 ESC) as [E|_]; [subst c0; discriminate Hdec|].
      destruct (Z.eqb_spec c0 DEL) as [E|_]; [subst c0; discriminate Hdec|].
      eexists; reflexivity.
    + right. split; [discriminate|]. eexists _, _; reflexivity.
    + right. split; [discriminate|]. unfold Tte.dispatch. simpl in Hdec.
      destruct ((c0 =? ESC) && (c1 =? LBRACKET)); [|eexists _, _; reflexivity].
      destruct (c2 =? 65); [discriminate Hdec|].
      destruct (c2 =? 66); [discriminate Hdec|].
      destruct (c2 =? 67); [discriminate Hdec|].
      destruct (c2 =? 68); [discriminate Hdec|].
      eexists _, _; reflexivity.
    + right. split; [discriminate|]. eexists _, _; reflexivity.
  - unfold Tte2.iteration. rewrite Hread.
    destruct input as [|c0 [|c1 [|c2 [|c3 rest]]]];
      try (right; split; [intros final; discriminate|eexists; reflexivity]).
    + right. split; [intros final; discriminate|].
      unfold Tte2.dispatch. simpl in Hdec.
      change 32 with SPACE in Hdec. change 126 with TILDE in Hdec.
      destruct ((SPACE <=? c0) && (c0 <=? TILDE)); [discriminate Hdec|].
      destruct (c0 =? LF); [discriminate Hdec|].
      destruct (c0 =? DEL); [discriminate Hdec|].
      rewrite orb_comm.
      destruct ((c0 =? ESC) || (c0 =? 17)); [discriminate Hdec|].
      eexists; reflexivity.
    + unfold Tte2.dispatch. simpl in Hdec.
      destruct (Z.eqb_spec c0 ESC) as [->|Hc0]; simpl.
      * destruct (Z.eqb_spec c1 LBRACKET) as [->|Hc1]; simpl.
        -- left. split; [exists c2; reflexivity|].
           simpl in Hdec.
           destruct (c2 =? 65); [discriminate Hdec|].
           destruct (c2 =? 66); [discriminate Hdec|].
           destruct (c2 =? 67); [discriminate Hdec|].
           destruct (c2 =? 68); [discriminate Hdec|]. eexists; reflexivity.
        -- right. split; [|eexists; reflexivity].
           intros final [= ? ?]. contradiction.
      * right. split; [|eexists; reflexivity].
        intros final [= ? ?]. contradiction.
Qed.

Lemma unrecognized_chunk_handling_witness :
  let st := Tte2.start (Tte2.new_buffer 4096) in
  exists evs,
    Tte2.iteration st (chunk [ESC; LBRACKET])
    = Some (Continue (Tte2.set_line_buffer st [Fmt_status 80 24 [ESC; LBRACKET]]),
            evs).
Proof.
  intros st.
  destruct (unrecognized_chunk_handling [ESC; LBRACKET] (chunk [ESC; LBRACKET])
              eq_refl eq_refl) as [_ H].
  destruct (H st) as [[[final Hf] _]|[_ Hgo]].
  - discriminate Hf.
  - exact Hgo.
Defined.

(** C4, the claim as it stands, fails on its own example, ESC [ E: the
    specification's decoder calls the chunk Unrecognized, and both input
    loops end on the failed [assert] without reading the next chunk. *)
Lemma unrecognized_chunk_handling_counterexample :
  Spec.decode (arrow 69) = Spec.Unrecognized (arrow 69) /\
  (exists st evs,
     Tte.input_loop [chunk (arrow 69); chunk [97]] (Tte.start [NUL])
     = Some (Loop_assert "Unhandled escape key input", st, evs)) /\
  (exists st evs,
     Tte2.input_loop [chunk (arrow 69); chunk [97]] (Tte2.start (Tte2.new_buffer 4096))
     = Some (Loop_assert "Unhandled escape key input", st, evs)).
Proof.
  split; [reflexivity|]. split; eexists _, _; reflexivity.
Qed.

(** C5 (as amended).  In the second prototype, a run of [main] that
    returns 0 has entered raw mode and has, as its last three calls and
    nowhere before, set the attributes [tcgetattr] had reported and written
    the restore-screen and restore-cursor sequences; a run that ends on a
    failed [assert] has not written the restore-screen sequence, and unless
    the failed call is a [tcsetattr] it has not set the saved attributes
    either.  tte.cpp, whose restoring calls are commented out, gives
    nothing back on any path. *)
Theorem terminal_given_back_on_quit_only :
  (forall fuel w st trace,
     Tte2.main fuel w = Some (Returned 0, st, trace) ->
     exists original trace0,
       w_tcgetattr w = Some original /\
       trace = trace0 ++ [Ev_tcsetattr TCSADRAIN original;
                          Ev_write 1 (ESC :: bytes "[?47l"); Ev_write 1 [ESC; 56]] /\
       In (Ev_tcsetattr TCSANOW (Tte2.raw_attributes (w_masks w) original)) trace0 /\
       count restores_attributes trace = 1%nat /\
       count restores_screen trace = 1%nat) /\
  (forall fuel w what st trace,
     Tte2.main fuel w = Some (Assert_failed what, st, trace) ->
     count restores_screen trace = 0%nat /\
     (what <> "!tcsetattr_error"%string -> count restores_attributes trace = 0%nat)) /\
  (forall w e st trace,
     Tte.main w = Some (e, st, trace) ->
     count restores_attributes trace = 0%nat /\
     count restores_screen trace = 0%nat).
Proof.
  split; [|split].
  - intros fuel w st trace Hrun.
    destruct (Tte2_main_cases fuel w _ st trace Hrun)
      as [(Hne & _)|(buf & before & trace' & -> & Hq & Hedit)];
      [now contradiction Hne|].
    destruct (Tte2_edit_quit w buf st trace' Hedit)
      as (original & trace0 & Hget & -> & Hraw & Hq0).
    exists original, (before ++ trace0).
    split; [exact Hget|]. split; [now rewrite app_assoc|].
    split; [apply in_or_app; now right|].
    apply count_quiet in Hq as [Ha Hs]. apply count_quiet in Hq0 as [Ha0 Hs0].
    rewrite !count_app, Ha, Hs, Ha0, Hs0. split; reflexivity.
  - intros fuel w what st trace Hrun.
    destruct (Tte2_main_cases fuel w _ st trace Hrun)
      as [(_ & _ & _ & Hq)|(buf & before & trace' & -> & Hq & Hedit)].
    + apply count_quiet in Hq as [Ha Hs]. split; [exact Hs|]. intros _. exact Ha.
    + destruct (Tte2_edit_assert w buf what st trace' Hedit) as [Hs' Ha'].
      apply count_quiet in Hq as [Ha Hs].
      rewrite !count_app, Ha, Hs, Hs'. split; [reflexivity|].
      intros Hne. now rewrite (Ha' Hne).
  - intros w e st trace Hrun. apply count_quiet.
    eapply Tte_main_quiet, Hrun.
Qed.

Lemma terminal_given_back_on_quit_only_witness :
  let w := example_world [[97]; [ESC]] in
  exists st trace,
    Tte2.main 0 w = Some (Returned 0, st, trace) /\
    count restores_attributes trace = 1%nat /\
    count restores_screen trace = 1%nat.
Proof.
  intros w.
  destruct (Tte2.main 0 w) as [[[e st] trace]|] eqn:Hrun;
    [|discriminate Hrun].
  assert (He : e = Returned 0) by (vm_compute in Hrun; congruence).
  subst e. exists st, trace. split; [reflexivity|].
  destruct terminal_given_back_on_quit_only as [Hquit _].
  destruct (Hquit 0%nat w st trace Hrun) as (original & trace0 & _ & _ & _ & Ha & Hs).
  split; assumption.
Defined.

(** C5, the claim as it stands, fails on both prototypes.  tte.cpp enters
    raw mode, is told to quit by ESC and returns 0 without ever setting the
    saved attributes or restoring the screen; the second prototype, sent
    ESC [ E in raw mode, dies on the [assert] with the same omissions. *)
Lemma terminal_given_back_on_quit_only_counterexample :
  (exists st trace,
     Tte.main (example_world [[ESC]]) = Some (Returned 0, st, trace) /\
     In (Ev_tcsetattr TCSANOW {| c_iflag := 256; c_lflag := 1 |}) trace /\
     count restores_attributes trace = 0%nat /\
     count restores_screen trace = 0%nat) /\
  (exists st trace,
     Tte2.main 0 (example_world [arrow 69])
     = Some (Assert_failed "Unhandled escape key input", st, trace) /\
     In (Ev_tcsetattr TCSANOW {| c_iflag := 256; c_lflag := 1 |}) trace /\
     count restores_attributes trace = 0%nat /\
     count restores_screen trace = 0%nat).
Proof.
  split.
  - eexists _, _. split; [reflexivity|].
    split; [simpl; tauto|]. split; reflexivity.
  - eexists _, _. split; [reflexivity|].
    split; [simpl; tauto|]. split; reflexivity.
Qed.

(** C6 (as amended).  The Backspace key deletes nothing.  In the second
    prototype [k] Backspaces leave the [Buffer] as it was and only walk the
    cursor back, first [x] down to 0 and then [y] down to 0, so that after
    at least [x + y] of them both are 0.  In tte.cpp they leave the whole
    state, cursor included, as it was. *)
Theorem backspace_deletes_nothing (k : nat) :
  (forall st,
     Tte2.keep_running st <> 0 ->
     0 <= Tte2.x st < 2 ^ 64 -> 0 <= Tte2.y st < 2 ^ 64 ->
     exists st' evs,
       Tte2.input_loop (backspaces k) st = Some (Loop_waiting, st', evs) /\
       Tte2.buffer st' = Tte2.buffer st /\
       Tte2.x st' = Z.max 0 (Tte2.x st - Z.of_nat k) /\
       Tte2.y st' = Z.max 0 (Tte2.y st - Z.max 0 (Z.of_nat k - Tte2.x st))) /\
  (forall st,
     Tte.keep_running st <> 0 ->
     exists evs, Tte.input_loop (backspaces k) st = Some (Loop_waiting, st, evs)).
Proof.
  split.
  - induction k as [|k IH]; intros st Hrun Hx Hy.
    + exists st, []. simpl. destruct (Z.eqb_spec (Tte2.keep_running st) 0);
        [contradiction|].
      split; [reflexivity|]. split; [reflexivity|]. lia.
    + change (backspaces (S k)) with (chunk [DEL] :: backspaces k).
      cbn [Tte2.input_loop].
      destruct (Z.eqb_spec (Tte2.keep_running st) 0); [contradiction|].
      unfold Tte2.iteration, chunk at 1. cbn [input_read ws_row ws_col].
      unfold Tte2.dispatch.
      change ((SPACE <=? DEL) && (DEL <=? TILDE)) with false.
      change (DEL =? LF) with false. change (DEL =? DEL) with true. cbv iota.
      unfold Tte2.key_backspace.
      cbn [Tte2.set_line_buffer Tte2.x Tte2.y].
      destruct (Z.gtb_spec (Tte2.x st) 0) as [Hgx|Hlx].
      * cbn [mbind option_bind].
        match goal with
        | |- context [Tte2.input_loop _ ?s] =>
            destruct (IH s) as (st' & evs & Hl & Hb & Hx' & Hy');
              [exact Hrun| | |]
        end.
        { cbn [Tte2.set_xy Tte2.x]. rewrite wrap_small by lia. lia. }
        { cbn [Tte2.set_xy Tte2.y]. lia. }
        rewrite Hl. cbn [mbind option_bind]. eexists _, _.
        split; [reflexivity|].
        cbn [Tte2.set_xy Tte2.x Tte2.y Tte2.buffer] in Hb, Hx', Hy'.
        rewrite wrap_small in Hx', Hy' by lia.
        split; [exact Hb|]. lia.
      * destruct (Z.gtb_spec (Tte2.y st) 0) as [Hgy|Hly].
        -- cbn [mbind option_bind].
           match goal with
           | |- context [Tte2.input_loop _ ?s] =>
               destruct (IH s) as (st' & evs & Hl & Hb & Hx' & Hy');
                 [exact Hrun| | |]
           end.
           { cbn [Tte2.set_xy Tte2.x]. lia. }
           { cbn [Tte2.set_xy Tte2.y]. rewrite wrap_small by lia. lia. }
           rewrite Hl. cbn [mbind option_bind]. eexists _, _.
           split; [reflexivity|].
           cbn [Tte2.set_xy Tte2.x Tte2.y Tte2.buffer] in Hb, Hx', Hy'.
           rewrite wrap_small in Hy' by lia.
           split; [exact Hb|]. lia.
        -- cbn [mbind option_bind].
           match goal with
           | |- context [Tte2.input_loop _ ?s] =>
               destruct (IH s) as (st' & evs & Hl & Hb & Hx' & Hy');
                 [exact Hrun|exact Hx|exact Hy|]
           end.
           rewrite Hl. cbn [mbind option_bind]. eexists _, _.
           split; [reflexivity|].
           cbn [Tte2.set_line_buffer Tte2.x Tte2.y Tte2.buffer] in Hb, Hx', Hy'.
           split; [exact Hb|]. lia.
  - induction k as [|k IH]; intros st Hrun.
    + exists []. simpl. destruct (Z.eqb_spec (Tte.keep_running st) 0);
        [contradiction|reflexivity].
    + change (backspaces (S k)) with (chunk [DEL] :: backspaces k).
      cbn [Tte.input_loop].
      destruct (Z.eqb_spec (Tte.keep_running st) 0); [contradiction|].
      destruct (IH st Hrun) as (evs & Hl).
      unfold Tte.iteration, chunk. cbn [input_read].
      unfold Tte.dispatch.
      change (DEL =? 1) with false. change (DEL =? ESC) with false.
      change (DEL =? DEL) with true. cbv iota.
      cbn [mbind option_bind]. rewrite Hl. cbn [mbind option_bind].
      eexists. reflexivity.
Qed.

Lemma backspace_deletes_nothing_witness :
  let st := Tte2.set_xy (Tte2.start {| Tte2.data := [97; NUL];
                                       Tte2.used := 2; Tte2.size := 2 |}) 1 0 in
  exists st' evs,
    Tte2.input_loop (backspaces 2) st = Some (Loop_waiting, st', evs) /\
    Tte2.buffer st' = Tte2.buffer st /\ Tte2.x st' = 0 /\ Tte2.y st' = 0.
Proof.
  intros st.
  destruct (backspace_deletes_nothing 2) as [H2 _].
  destruct (H2 st) as (st' & evs & Hl & Hb & Hx & Hy);
    [discriminate|simpl; lia|simpl; lia|].
  exists st', evs. split; [exact Hl|]. split; [exact Hb|].
  split; [exact Hx|exact Hy].
Defined.

(** C6, the claim as it stands, fails on the buffer that [load_file] makes
    of the one-byte file "a" ([used] = 2): after two Backspaces, from any
    cursor, the buffer still holds the same bytes and [used] is still 2.
    The same holds in tte.cpp, where the cursor does not move either. *)
Lemma backspace_deletes_nothing_counterexample :
  (exists st' evs,
     Tte2.input_loop (backspaces 2)
       (Tte2.set_xy (Tte2.start {| Tte2.data := [97; NUL];
                                   Tte2.used := 2; Tte2.size := 2 |}) 1 0)
     = Some (Loop_waiting, st', evs) /\
     Tte2.data (Tte2.buffer st') = [97; NUL] /\ Tte2.used (Tte2.buffer st') = 2) /\
  (exists st' evs,
     Tte.input_loop (backspaces 1) (Tte.set_cursor (Tte.start [97; NUL]) 1 1)
     = Some (Loop_waiting, st', evs) /\
     Tte.buffer st' = [97; NUL] /\ Tte.buffer_pos st' = 1).
Proof.
  split; eexists _, _; (split; [reflexivity|split; reflexivity]).
Qed.

(** C7 (as amended).  In tte.cpp the LEFT arrow at offset 0 (where a
    column that does not exceed the offset is 0) changes nothing, and the
    RIGHT arrow changes nothing when the byte under the cursor is the NUL
    that ends the buffer or a newline.  In the second prototype the LEFT
    arrow changes nothing when [x] is 0, but the RIGHT arrow adds 1 to [x]
    wherever the cursor is; [y] stays. *)
Theorem arrows_at_the_edges :
  (forall st,
     Tte.buffer_pos st = 0 ->
     0 <= Tte.buffer_line_pos st <= Tte.buffer_pos st ->
     Tte.dispatch st (Read_bytes (arrow 68)) = Some (Continue st, [])) /\
  (forall st c,
     at_index (Tte.buffer st) (Tte.buffer_pos st) = Some c ->
     c = NUL \/ c = LF ->
     Tte.dispatch st (Read_bytes (arrow 67)) = Some (Continue st, [])) /\
  (forall st,
     Tte2.x st = 0 ->
     Tte2.dispatch st (arrow 68) = Some (Continue st, [])) /\
  (forall st,
     Tte2.dispatch st (arrow 67)
     = Some (Continue (Tte2.set_xy st (wrap (Tte2.x st + 1)) (Tte2.y st)),
             [Ev_write 1 (ESC :: bytes "[C")])).
Proof.
  split; [|split; [|split]].
  - intros st Hpos Hcol. unfold Tte.dispatch, arrow, Tte.key_left.
    change ((ESC =? ESC) && (LBRACKET =? LBRACKET)) with true.
    change (68 =? 65) with false. change (68 =? 66) with false.
    change (68 =? 67) with false. change (68 =? 68) with true. cbv iota.
    destruct (Z.gtb_spec (Tte.buffer_line_pos st) 0); [lia|reflexivity].
  - intros st c Hc Hend. unfold Tte.dispatch, arrow, Tte.key_right.
    change ((ESC =? ESC) && (LBRACKET =? LBRACKET)) with true.
    change (67 =? 65) with false. change (67 =? 66) with false.
    change (67 =? 67) with true. cbv iota.
    rewrite Hc. destruct Hend as [-> | ->]; reflexivity.
  - intros st Hx. unfold Tte2.dispatch, arrow, Tte2.key_left.
    change ((ESC =? ESC) && (LBRACKET =? LBRACKET)) with true.
    change (68 =? 65) with false. change (68 =? 66) with false.
    change (68 =? 67) with false. change (68 =? 68) with true. cbv iota.
    rewrite Hx. reflexivity.
  - intros st. reflexivity.
Qed.

Lemma arrows_at_the_edges_witness :
  let st := Tte.set_cursor (Tte.start (bytes "ab" ++ [NUL])) 2 2 in
  Tte.dispatch (Tte.start (bytes "ab" ++ [NUL])) (Read_bytes (arrow 68))
  = Some (Continue (Tte.start (bytes "ab" ++ [NUL])), []) /\
  Tte.dispatch st (Read_bytes (arrow 67)) = Some (Continue st, []).
Proof.
  intros st. destruct arrows_at_the_edges as (Hleft & Hright & _). split.
  - apply Hleft; [reflexivity|simpl; lia].
  - apply (Hright st NUL); [reflexivity|left; reflexivity].
Defined.

(** C7, the claim as it stands, fails in the second prototype: on the
    empty file, where the cursor is at the end of the buffer from the
    start, the RIGHT arrow moves the column from 0 to 1. *)
Lemma arrows_at_the_edges_counterexample :
  let st := Tte2.start {| Tte2.data := [NUL]; Tte2.used := 1; Tte2.size := 1 |} in
  at_index (Tte2.data (Tte2.buffer st)) (Tte2.y st) = Some NUL /\
  exists st' evs,
    Tte2.dispatch st (arrow 67) = Some (Continue st', evs) /\
    Tte2.x st = 0 /\ Tte2.x st' = 1.
Proof.
  split; [reflexivity|]. eexists _, _.
  split; [reflexivity|]. split; reflexivity.
Qed.


(** C8 (as amended).  A chunk of the single byte ESC clears
    [keep_running] in both prototypes, and the input loop is left before
    another chunk is read; the single byte Ctrl-Q (0x11) does the same in
    the second prototype only.  In tte.cpp Ctrl-Q is echoed like any other
    byte and the state, [keep_running] included, stays as it was. *)
Theorem quit_keys :
  (forall st t turns,
     Tte.keep_running st <> 0 -> input_read t = Read_bytes [ESC] ->
     exists evs,
       Tte.input_loop (t :: turns) st
       = Some (Loop_left, Tte.set_keep_running st 0, evs)) /\
  (forall c st t turns,
     c = ESC \/ c = 17 ->
     Tte2.keep_running st <> 0 -> input_read t = Read_bytes [c] ->
     exists st' evs,
       Tte2.input_loop (t :: turns) st = Some (Loop_left, st', evs) /\
       Tte2.keep_running st' = 0 /\
       Tte2.x st' = Tte2.x st /\ Tte2.y st' = Tte2.y st) /\
  (forall st,
     Tte.dispatch st (Read_bytes [17]) = Some (Continue st, [Ev_write 1 [17]])).
Proof.
  split; [|split].
  - intros st t turns Hrun Hr. cbn [Tte.input_loop].
    destruct (Z.eqb_spec (Tte.keep_running st) 0); [contradiction|].
    unfold Tte.iteration. rewrite Hr. unfold Tte.dispatch.
    change (ESC =? 1) with false. change (ESC =? ESC) with true. cbv iota.
    cbn [mbind option_bind].
    destruct turns; simpl; eexists; reflexivity.
  - intros c st t turns Hc Hrun Hr. cbn [Tte2.input_loop].
    destruct (Z.eqb_spec (Tte2.keep_running st) 0); [contradiction|].
    unfold Tte2.iteration. rewrite Hr. unfold Tte2.dispatch.
    assert (Hd : (SPACE <=? c) && (c <=? TILDE) = false
                 /\ (c =? LF) = false /\ (c =? DEL) = false
                 /\ (c =? 17) || (c =? ESC) = true)
      by (destruct Hc as [-> | ->]; repeat split; reflexivity).
    destruct Hd as (-> & -> & -> & ->).
    cbn [mbind option_bind].
    destruct turns; simpl; eexists _, _; repeat split; reflexivity.
  - intros st. reflexivity.
Qed.

Lemma quit_keys_witness :
  exists st' evs,
    Tte2.input_loop [chunk [17]; chunk [97]] (Tte2.start (Tte2.new_buffer 4096))
    = Some (Loop_left, st', evs) /\ Tte2.keep_running st' = 0.
Proof.
  destruct quit_keys as (_ & Hq & _).
  destruct (Hq 17 (Tte2.start (Tte2.new_buffer 4096)) (chunk [17]) [chunk [97]])
    as (st' & evs & Hl & Hk & _);
    [right; reflexivity|discriminate|reflexivity|].
  exists st', evs. split; [exact Hl|exact Hk].
Defined.

(** C8, the claim as it stands, fails in tte.cpp: after the chunk Ctrl-Q
    [keep_running] is still 1 and the loop is waiting for the next chunk. *)
Lemma quit_keys_counterexample :
  exists st' evs,
    Tte.input_loop [chunk [17]] (Tte.start [NUL]) = Some (Loop_waiting, st', evs) /\
    Tte.keep_running st' = 1.
Proof. eexists _, _. split; reflexivity. Qed.

(** C9.  Whenever TERM is unset or is neither "xterm" nor "xterm-256color",
    [main] of either prototype returns 1, and everything it has done by
    then is a non-empty series of writes to the error stream: no terminal
    attribute was read or set, nothing went to the terminal. *)
Theorem unsupported_TERM_exits_1 (w : World) (fuel : nat) :
  w_TERM w <> Some (bytes "xterm") ->
  w_TERM w <> Some (bytes "xterm-256color") ->
  exists trace,
    Tte.main w = Some (Returned 1, None, trace) /\
    Tte2.main fuel w = Some (Returned 1, None, trace) /\
    trace <> [] /\ Forall to_stderr trace.
Proof.
  intros H1 H2.
  destruct (init_rejects (argv0 w) (w_TERM w) H1 H2) as (evs & Hinit & Hne & Hall).
  exists evs. unfold Tte.main, Tte2.main. rewrite Hinit. simpl.
  repeat split; assumption.
Qed.

Lemma unsupported_TERM_exits_1_witness :
  let w := {| w_TERM := Some (bytes "dumb"); w_argv := [bytes "tte"];
              w_open := fun _ => None;
              w_masks := {| ICANON := 2; ECHO := 8; IXON := 1024; IXOFF := 4096 |};
              w_tcgetattr := Some {| c_iflag := 1280; c_lflag := 11 |};
              w_tcsetattr := fun _ => true;
              w_stdin := [] |} in
  exists trace,
    Tte.main w = Some (Returned 1, None, trace) /\
    Tte2.main 0 w = Some (Returned 1, None, trace) /\
    trace <> [] /\ Forall to_stderr trace.
Proof.
  intros w. apply (unsupported_TERM_exits_1 w 0); discriminate.
Defined.


(** C10.  No turn of either input loop changes the buffer: after one pass
    through the body, and after the whole loop on any series of turns
    (however it ends), the bytes of the buffer and its size (in the second
    prototype the whole [Buffer]: data, used and size) are what they were
    when the loop was entered. *)
Theorem input_loop_leaves_buffer :
  (forall st t st' evs,
     Tte.iteration st t = Some (Continue st', evs) ->
     Tte.buffer st' = Tte.buffer st /\ Tte.buffer_size st' = Tte.buffer_size st) /\
  (forall turns st e st' evs,
     Tte.input_loop turns st = Some (e, st', evs) ->
     Tte.buffer st' = Tte.buffer st /\ Tte.buffer_size st' = Tte.buffer_size st) /\
  (forall st t st' evs,
     Tte2.iteration st t = Some (Continue st', evs) ->
     Tte2.buffer st' = Tte2.buffer st) /\
  (forall turns st e st' evs,
     Tte2.input_loop turns st = Some (e, st', evs) ->
     Tte2.buffer st' = Tte2.buffer st).
Proof.
  split; [|split; [|split]].
  - intros st t st' evs. apply Tte_iteration_frame.
  - intros turns st e st' evs. apply Tte_input_loop_frame.
  - intros st t st' evs. apply Tte2_iteration_frame.
  - intros turns st e st' evs. apply Tte2_input_loop_frame.
Qed.

Lemma input_loop_leaves_buffer_witness :
  let turns := [chunk [97]; chunk [LF]; chunk [DEL]; chunk (arrow 66); chunk [ESC]] in
  let buf := {| Tte2.data := bytes "ab" ++ [LF] ++ bytes "c" ++ [NUL];
                Tte2.used := 5; Tte2.size := 5 |} in
  exists e st' evs,
    Tte2.input_loop turns (Tte2.start buf) = Some (e, st', evs) /\
    Tte2.buffer st' = buf.
Proof.
  intros turns buf.
  destruct (Tte2.input_loop turns (Tte2.start buf)) as [[[e st'] evs]|] eqn:Hrun;
    [|discriminate Hrun].
  exists e, st', evs. split; [reflexivity|].
  destruct input_loop_leaves_buffer as (_ & _ & _ & Hloop).
  exact (Hloop turns (Tte2.start buf) e st' evs Hrun).
Defined.

(** * Further properties of the code *)

(** X1.  tte.cpp keeps its cursor sound.  On a NUL-terminated buffer,
    from a state whose cursor is on a line of the text with
    [buffer_line_pos] its distance from the start of that line, the input
    loop is defined on every series of turns (no key makes it read outside
    the buffer) and ends in a state whose cursor is again on a line, with
    [buffer_line_pos] again its distance from the start of the line. *)
Theorem tte_cursor_stays_on_line (mem : list Z) (n : nat)
        (turns : list turn) (st : Tte.state) :
  nul_at mem n -> Z.of_nat (length mem) < 2 ^ 64 ->
  Tte_ok mem n st ->
  exists e st' evs,
    Tte.input_loop turns st = Some (e, st', evs) /\ Tte_ok mem n st'.
Proof. intros Hnul Hsize Hok. now apply Tte_input_loop_ok. Qed.

Lemma tte_cursor_stays_on_line_witness :
  let mem := bytes "ab" ++ [LF] ++ bytes "c" ++ [NUL] in
  exists e st' evs,
    Tte.input_loop [chunk (arrow 66); chunk (arrow 67); chunk (arrow 67);
                    chunk (arrow 65); chunk (arrow 68)] (Tte.start mem)
    = Some (e, st', evs) /\ Tte_ok mem 4 st'.
Proof.
  intros mem.
  assert (Hnul : nul_at mem 4).
  { split; [reflexivity|]. intros i c Hi.
    do 4 (destruct i as [|i]; [intros [= <-]; discriminate|]). lia. }
  apply (tte_cursor_stays_on_line mem 4 _ (Tte.start mem) Hnul);
    [simpl; lia|now apply Tte_start_ok].
Defined.


(** X3.  Vertical motion without clamping is undone by the opposite key.
    With the cursor at column [col] of a line [s1 .. e1) that a newline
    ends, and a next line [e1+1 .. e2) of at least [col] bytes, DOWN goes
    to column [col] of the next line and UP from there comes back to where
    the cursor was; and the same the other way round, UP first, from
    column [col] of the second line when the first has at least [col]
    bytes. *)
Theorem down_up_round_trip (mem : list Z) (s1 e1 e2 col : Z) :
  line mem s1 e1 -> at_index mem e1 = Some LF -> line mem (e1 + 1) e2 ->
  e2 < 2 ^ 64 -> 0 <= col -> col <= e1 - s1 -> col <= e2 - (e1 + 1) ->
  (exists evs evs',
     key_down mem (s1 + col) col = Some (e1 + 1 + col, col, evs) /\
     key_up mem (e1 + 1 + col) col = Some (s1 + col, col, evs')) /\
  (exists evs evs',
     key_up mem (e1 + 1 + col) col = Some (s1 + col, col, evs) /\
     key_down mem (s1 + col) col = Some (e1 + 1 + col, col, evs')).
Proof.
  intros Hl1 Hlf Hl2 He2 Hcol H1 H2.
  assert (Hs : 0 <= s1 <= e1 /\ e1 + 1 <= e2).
  { destruct Hl1 as (? & _), Hl2 as (? & _). lia. }
  destruct (key_down_spec mem s1 e1 e2 (s1 + col) col Hl1 Hlf Hl2)
    as (evs & Hdown); [lia|lia|lia|].
  destruct (key_up_spec mem s1 e1 (e1 + 1 + col) col Hl1 Hlf)
    as (evs' & Hup); [lia|lia|lia|].
  replace (Z.min col (e2 - (e1 + 1))) with col in Hdown by lia.
  replace (Z.min col (e1 - s1)) with col in Hup by lia.
  split; eauto.
Qed.

Lemma down_up_round_trip_witness :
  let mem := bytes "abcde" ++ [LF] ++ bytes "xyz" ++ [NUL] in
  exists evs evs',
    key_down mem 2 2 = Some (8, 2, evs) /\ key_up mem 8 2 = Some (2, 2, evs').
Proof.
  intros mem.
  assert (Hnul : nul_at mem 9).
  { split; [reflexivity|]. intros i c Hi.
    do 9 (destruct i as [|i]; [intros [= <-]; discriminate|]). lia. }
  destruct (line_from mem 9 Hnul 0) as (e1 & Hl1 & _); [lia|now left|].
  assert (He1 : e1 = 5).
  { destruct Hl1 as (Hs & _ & Hin & (c & Hc & Hend)).
    destruct (Z.lt_trichotomy e1 5) as [Hlt|[Heq|Hgt]]; [|exact Heq|].
    - exfalso. pose proof (at_index_bound mem _ _ Hc).
      assert (Hcases : e1 = 0 \/ e1 = 1 \/ e1 = 2 \/ e1 = 3 \/ e1 = 4) by lia.
      destruct Hcases as [->|[->|[->|[->| ->]]]];
        vm_compute in Hc; injection Hc as <-; destruct Hend; discriminate.
    - exfalso. destruct (Hin 5) as (c' & Hc' & _ & Hlf); [lia|].
      vm_compute in Hc'. congruence. }
  subst e1.
  destruct (line_from mem 9 Hnul 6) as (e2 & Hl2 & He2); [lia|right; reflexivity|].
  assert (He2' : e2 = 9).
  { destruct Hl2 as (Hs & _ & Hin & (c & Hc & Hend)).
    destruct (Z.lt_trichotomy e2 9) as [Hlt|[Heq|Hgt]]; [|exact Heq|lia].
    exfalso.
    assert (Hcases : e2 = 6 \/ e2 = 7 \/ e2 = 8) by lia.
    destruct Hcases as [->|[->| ->]];
      vm_compute in Hc; injection Hc as <-; destruct Hend; discriminate. }
  subst e2.
  destruct (down_up_round_trip mem 0 5 9 2 Hl1 eq_refl Hl2) as [Hdu _];
    [lia|lia|lia|lia|].
  exact Hdu.
Defined.

(** X4.  At the vertical edges nothing moves.  UP on the first line of the
    buffer (where the column equals the offset) and DOWN on the last line
    (the one the NUL ends) leave offset and column as they were and write
    nothing. *)
Theorem up_down_at_the_edges (mem : list Z) (s e pos col : Z) :
  line mem s e -> at_index mem e = Some NUL -> e < 2 ^ 64 ->
  s <= pos <= e ->
  key_down mem pos col = Some (pos, col, []) /\
  key_up mem col col = Some (col, col, []).
Proof.
  intros (Hs & _ & Hin & _) Hend He Hpos. split.
  - apply (key_down_last_line mem pos e col); [|exact Hend|lia|lia].
    intros i Hi. apply Hin. lia.
  - apply key_up_first_line.
Qed.

Lemma up_down_at_the_edges_witness :
  let mem := bytes "ab" ++ [NUL] in
  key_down mem 1 1 = Some (1, 1, []) /\ key_up mem 1 1 = Some (1, 1, []).
Proof.
  intros mem.
  apply (up_down_at_the_edges mem 0 2 1 1); [|reflexivity|lia|lia].
  split; [lia|]. split; [now left|]. split.
  - intros i Hi. assert (Hc : i = 0 \/ i = 1) by lia.
    destruct Hc as [-> | ->]; eexists; (split; [reflexivity|split; discriminate]).
  - exists NUL. split; [reflexivity|now left].
Defined.

(** X5.  In tte.cpp RIGHT and LEFT undo each other.  With the cursor sound
    (on a line, the column its distance from the start of the line): if the
    byte under the cursor is neither the NUL nor a newline, RIGHT moves one
    byte on and LEFT brings the state back; and if the column is not 0,
    LEFT moves one byte back and RIGHT brings the state back. *)
Theorem left_right_round_trip (mem : list Z) (n : nat) (st : Tte.state) :
  nul_at mem n -> Z.of_nat (length mem) < 2 ^ 64 -> Tte_ok mem n st ->
  (forall c, at_index mem (Tte.buffer_pos st) = Some c -> c <> NUL -> c <> LF ->
     exists st1 evs evs',
       Tte.dispatch st (Read_bytes (arrow 67)) = Some (Continue st1, evs) /\
       Tte.buffer_pos st1 = Tte.buffer_pos st + 1 /\
       Tte.buffer_line_pos st1 = Tte.buffer_line_pos st + 1 /\
       Tte.dispatch st1 (Read_bytes (arrow 68)) = Some (Continue st, evs')) /\
  (0 < Tte.buffer_line_pos st ->
     exists st1 evs evs',
       Tte.dispatch st (Read_bytes (arrow 68)) = Some (Continue st1, evs) /\
       Tte.buffer_pos st1 = Tte.buffer_pos st - 1 /\
       Tte.buffer_line_pos st1 = Tte.buffer_line_pos st - 1 /\
       Tte.dispatch st1 (Read_bytes (arrow 67)) = Some (Continue st, evs')).
Proof.
  intros Hnul Hsize [Hbuf (s & e & Hline & Hen & Hpos & Hcol & Hpe)].
  pose proof (nul_in_bounds mem n Hnul) as Hn.
  destruct Hline as (Hs & Hstart & Hin & Hend).
  assert (HR : forall t, Tte.dispatch t (Read_bytes (arrow 67)) =
                 ('(st', evs) ← Tte.key_right t; Some (Continue st', evs)))
    by reflexivity.
  assert (HL : forall t, Tte.dispatch t (Read_bytes (arrow 68)) =
                 (let '(st', evs) := Tte.key_left t in Some (Continue st', evs)))
    by reflexivity.
  assert (Hright : forall p c l k c0,
            at_index mem p = Some c0 -> c0 <> NUL -> c0 <> LF ->
            Tte.key_right (Tte.Build_state mem l p c k) =
            Some (Tte.Build_state mem l (wrap (p + 1)) (wrap (c + 1)) k,
                  [Ev_write 1 (ESC :: bytes "[C")])).
  { intros p c l k c0 Hc0 H0 H1. unfold Tte.key_right.
    cbn [Tte.buffer Tte.buffer_pos Tte.buffer_line_pos]. rewrite Hc0.
    cbn [mbind option_bind].
    destruct (Z.eqb_spec c0 NUL); [contradiction|].
    destruct (Z.eqb_spec c0 LF); [contradiction|]. reflexivity. }
  assert (Hleft : forall p c l k, 0 < c ->
            Tte.key_left (Tte.Build_state mem l p c k) =
            (Tte.Build_state mem l (wrap (p - 1)) (wrap (c - 1)) k,
             [Ev_write 1 (ESC :: bytes "[D")])).
  { intros p c l k Hc. unfold Tte.key_left.
    cbn [Tte.buffer Tte.buffer_pos Tte.buffer_line_pos].
    destruct (Z.gtb_spec c 0); [reflexivity|lia]. }
  destruct st as [buf bsize pos col run]. simpl in Hbuf, Hpos, Hcol, Hpe.
  subst buf. cbn [Tte.buffer_pos Tte.buffer_line_pos]. split.
  - intros c Hc Hc0 Hc1.
    rewrite HR, (Hright _ _ _ _ c Hc Hc0 Hc1). cbn [mbind option_bind].
    rewrite !wrap_small by lia.
    eexists _, _, _. split; [reflexivity|].
    cbn [Tte.buffer_pos Tte.buffer_line_pos].
    split; [reflexivity|]. split; [reflexivity|].
    rewrite HL, Hleft by lia. rewrite !wrap_small by lia.
    replace (pos + 1 - 1) with pos by lia.
    replace (col + 1 - 1) with col by lia. reflexivity.
  - intros Hgt.
    rewrite HL, Hleft by lia. rewrite !wrap_small by lia.
    eexists _, _, _. split; [reflexivity|].
    cbn [Tte.buffer_pos Tte.buffer_line_pos].
    split; [reflexivity|]. split; [reflexivity|].
    destruct (Hin (pos - 1)) as (c & Hc & Hc0 & Hc1); [lia|].
    rewrite HR, (Hright _ _ _ _ c Hc Hc0 Hc1). cbn [mbind option_bind].
    rewrite !wrap_small by lia.
    replace (pos - 1 + 1) with pos by lia.
    replace (col - 1 + 1) with col by lia. reflexivity.
Qed.

Lemma left_right_round_trip_witness :
  let mem := bytes "ab" ++ [NUL] in
  let st := Tte.start mem in
  exists st1 evs evs',
    Tte.dispatch st (Read_bytes (arrow 67)) = Some (Continue st1, evs) /\
    Tte.buffer_pos st1 = 1 /\
    Tte.dispatch st1 (Read_bytes (arrow 68)) = Some (Continue st, evs').
Proof.
  intros mem st.
  assert (Hnul : nul_at mem 2).
  { split; [reflexivity|]. intros i c Hi.
    do 2 (destruct i as [|i]; [intros [= <-]; discriminate|]). lia. }
  destruct (left_right_round_trip mem 2 st Hnul) as [Hrl _];
    [simpl; lia|now apply Tte_start_ok|].
  destruct (Hrl 97) as (st1 & evs & evs' & H1 & H2 & _ & H4);
    [reflexivity|discriminate|discriminate|].
  exists st1, evs, evs'. split; [exact H1|]. split; [exact H2|exact H4].
Defined.

(** X6.  The four scanners that loop on a character class take the
    longest run of the class: on a NUL-terminated buffer and from any
    offset up to the NUL, [parse_space], [parse_identifier], [parse_num]
    and [parse_inline_comment] return, the bytes they write are the bytes
    they skip, each of them in the class, and the byte they stop at is not
    in it. *)
Theorem scanners_take_the_longest_run (mem : list Z) (n p : nat) :
  nul_at mem n -> (p <= n)%nat ->
  longest_run is_space mem p (parse_space mem p) /\
  longest_run is_latin mem p (parse_identifier mem p) /\
  longest_run is_digit mem p (parse_num mem p) /\
  longest_run in_line mem p (parse_inline_comment mem p).
Proof.
  intros Hnul Hp.
  repeat split; apply (longest_run_intro _ mem n p Hnul); auto.
Qed.

Lemma scanners_take_the_longest_run_witness :
  let mem := bytes "ab12  //x" ++ [LF; NUL] in
  longest_run is_latin mem 0 (parse_identifier mem 0) /\
  longest_run is_digit mem 2 (parse_num mem 2) /\
  longest_run is_space mem 4 (parse_space mem 4) /\
  longest_run in_line mem 6 (parse_inline_comment mem 6).
Proof.
  intros mem.
  assert (Hnul : nul_at mem 10).
  { split; [reflexivity|]. intros i c Hi.
    do 10 (destruct i as [|i]; [intros [= <-]; discriminate|]). lia. }
  split; [apply (scanners_take_the_longest_run mem 10 0 Hnul); lia|].
  split; [apply (scanners_take_the_longest_run mem 10 2 Hnul); lia|].
  split; [apply (scanners_take_the_longest_run mem 10 4 Hnul); lia|].
  apply (scanners_take_the_longest_run mem 10 6 Hnul); lia.
Defined.

(** X7.  Every span the highlighters emit fits its kind and none is
    empty.  On a buffer that holds a NUL, and for every bound on the
    iterations, both loops return spans of which: white space, identifiers
    and numbers are non-empty runs of their class; a punctuation span is
    one punctuation byte and a literal span the lone slash; a line comment
    starts with two slashes and holds no line end; a block comment starts
    with slash and star; a string literal starts with a double quote; and
    a diagnostic names a byte that starts no token. *)
Theorem spans_fit_their_kind (mem : list Z) (fuel : nat) :
  In NUL mem ->
  (exists es e, highlight fuel mem = Some (es, e) /\
                forallb span_ok es = true) /\
  (exists es e, load_file_highlight fuel mem = Some (es, e) /\
                forallb span_ok es = true).
Proof.
  intros Hin. pose proof (nul_at_cstring mem Hin) as Hnul.
  set (n := length (cstring mem)) in *.
  destruct (parse_space_spec mem n Hnul 0%nat)
    as (p0 & ws & Hsp & Hp0 & _); [lia|].
  unfold highlight, load_file_highlight. rewrite Hsp. cbn [mbind option_bind].
  split.
  - destruct (highlight_loop_spans mem n Hnul fuel p0) as (es & e & -> & Hes);
      [lia|].
    eexists _, e. split; [reflexivity|].
    rewrite forallb_app, Hes, (ws_span_ok _ _ _ _ Hsp). reflexivity.
  - destruct (load_file_loop_spans mem n Hnul fuel p0) as (es & e & -> & Hes);
      [lia|].
    eexists _, e. split; [reflexivity|].
    rewrite forallb_app, Hes, (ws_span_ok _ _ _ _ Hsp). reflexivity.
Qed.

Lemma spans_fit_their_kind_witness :
  let mem := bytes "int x = 10; // one" ++ [LF; NUL] in
  exists es e, highlight 20 mem = Some (es, e) /\ forallb span_ok es = true.
Proof.
  intros mem.
  apply (spans_fit_their_kind mem 20).
  do 19 right. left. reflexivity.
Defined.

(** X8.  The highlighting loop of tte.cpp and the one of [load_file]
    finish on the same inputs, with the same spans: for every buffer and
    every bound on the iterations, one returns [es] having reached the NUL
    exactly when the other does. *)
Theorem highlighters_agree_when_they_finish (fuel : nat) (mem : list Z)
        (es : list Emit) :
  highlight fuel mem = Some (es, Finished) <->
  load_file_highlight fuel mem = Some (es, Finished).
Proof.
  unfold highlight, load_file_highlight.
  destruct (parse_space mem 0%nat) as [[p0 ws]|] eqn:Hsp; simpl;
    [|reflexivity].
  assert (Hp0 : forall c, mem !! p0 = Some c -> is_space c = false).
  { destruct (write_while_run _ _ _ _ _ _ Hsp) as [_ (c0 & Hc0 & Hf)].
    intros c1 Hc1. congruence. }
  destruct (highlight_loop fuel mem p0) as [[es1 e1]|] eqn:H1;
    destruct (load_file_loop fuel mem p0) as [[es2 e2]|] eqn:H2; simpl.
  - split; intros [= <- ->].
    + apply loops_agree in H1; [|exact Hp0]. rewrite H1 in H2.
      injection H2 as <- <-. reflexivity.
    + apply loops_agree in H2; [|exact Hp0]. rewrite H2 in H1.
      injection H1 as <- <-. reflexivity.
  - split; [|discriminate]. intros [= <- ->].
    apply loops_agree in H1; [|exact Hp0]. congruence.
  - split; [discriminate|]. intros [= <- ->].
    apply loops_agree in H2; [|exact Hp0]. congruence.
  - reflexivity.
Qed.

(** X9.  A block comment ends at the first star-slash at or after the
    offset [parse_block_comment] is called with, or at the NUL when there
    is none.  The offset is that of the opening slash, so the star of the
    opening can be the star of the close: slash star slash is a whole
    block comment for the highlighters. *)
Theorem block_comment_ends_at_first_close (mem : list Z) (n p : nat) :
  nul_at mem n -> (p <= n)%nat ->
  (exists q out,
     parse_block_comment mem p = Some (q, out) /\
     take p mem ++ out = take q mem /\
     ((q = n /\ forall i, (p <= i < n)%nat -> ~ closes mem i) \/
      (exists i0, q = S (S i0) /\ (p <= i0)%nat /\ closes mem i0 /\
                  forall i, (p <= i < i0)%nat -> ~ closes mem i))) /\
  (mem !! p = Some SLASH -> closes mem (S p) ->
   scan_token mem p = Some (Token BlockComment [SLASH; STAR; SLASH] (3 + p))).
Proof.
  intros Hnul Hp. split.
  - destruct (parse_block_comment_loop_spec mem n Hnul (scan_fuel mem) p Hp)
      as (q & out & Hb & Hq & Ht & _); [apply (scan_fuel_enough mem n Hnul)|].
    exists q, out. split; [exact Hb|]. split; [exact Ht|].
    destruct (parse_block_comment_loop_end _ _ _ _ _ Hb)
      as [[Hz Hall]|Hclosed]; [|right; exact Hclosed].
    assert (q = n).
    { destruct (nul_at_read mem n Hnul q) as (c & Hc & Hc0); [lia|].
      apply Hc0. congruence. }
    subst q. left. split; [reflexivity|exact Hall].
  - intros H0 [H1 H2]. unfold scan_token. rewrite H0. simpl. rewrite H1. simpl.
    unfold parse_block_comment, scan_fuel.
    destruct (length mem) as [|len] eqn:Hlen.
    { apply lookup_lt_Some in H0. lia. }
    rewrite (parse_block_comment_loop_shortest len mem p H0 H1 H2).
    reflexivity.
Qed.

Lemma block_comment_ends_at_first_close_witness :
  let mem := bytes "/*/ x */" ++ [NUL] in
  scan_token mem 0 = Some (Token BlockComment [SLASH; STAR; SLASH] 3).
Proof.
  intros mem.
  assert (Hnul : nul_at mem 8).
  { split; [reflexivity|]. intros i c Hi.
    do 8 (destruct i as [|i]; [intros [= <-]; discriminate|]). lia. }
  destruct (block_comment_ends_at_first_close mem 8 0 Hnul) as [_ H]; [lia|].
  apply H; [reflexivity|split; reflexivity].
Defined.

(** X10.  A string literal ends just after the first double quote, at or
    after the offset [parse_string_literal] is called with, whose
    preceding byte is no backslash; or at the NUL when there is none.  A
    quote that follows a backslash never ends it, whatever comes before
    that backslash. *)
Theorem string_literal_ends_at_first_unescaped_quote (mem : list Z) (n p : nat) :
  nul_at mem n -> (0 < p <= n)%nat ->
  exists q out,
    parse_string_literal mem p = Some (q, out) /\
    take p mem ++ out = take q mem /\
    ((q = n /\ forall i, (p <= i < n)%nat -> ~ closing_quote mem i) \/
     (exists i0, q = S i0 /\ (p <= i0)%nat /\ closing_quote mem i0 /\
                 forall i, (p <= i < i0)%nat -> ~ closing_quote mem i)).
Proof.
  intros Hnul Hp.
  destruct (parse_string_literal_loop_spec mem n Hnul (scan_fuel mem) p Hp)
    as (q & out & Hb & Hq & Ht); [apply (scan_fuel_enough mem n Hnul)|].
  exists q, out. split; [exact Hb|]. split; [exact Ht|].
  destruct (parse_string_literal_loop_end _ _ _ _ _ Hb)
    as [[Hz Hall]|Hclosed]; [|right; exact Hclosed].
  assert (q = n).
  { destruct (nul_at_read mem n Hnul q) as (c & Hc & Hc0); [lia|].
    apply Hc0. congruence. }
  subst q. left. split; [reflexivity|exact Hall].
Qed.

Lemma string_literal_ends_at_first_unescaped_quote_witness :
  let mem := [DQUOTE; 97; BACKSLASH; DQUOTE; 98; DQUOTE; 99; NUL] in
  exists q out,
    parse_string_literal mem 1 = Some (q, out) /\
    take 1 mem ++ out = take q mem /\
    ((q = 7%nat /\ forall i, (1 <= i < 7)%nat -> ~ closing_quote mem i) \/
     (exists i0, q = S i0 /\ (1 <= i0)%nat /\ closing_quote mem i0 /\
                 forall i, (1 <= i < i0)%nat -> ~ closing_quote mem i)).
Proof.
  intros mem.
  apply (string_literal_ends_at_first_unescaped_quote mem 7 1); [|lia].
  split; [reflexivity|]. intros i c Hi.
  do 7 (destruct i as [|i]; [intros [= <-]; discriminate|]). lia.
Defined.

(** X15.  A buffer on which the highlighting of tte.cpp gives up makes the
    highlighting of [load_file] run for ever: if the loop of tte.cpp ends
    at a byte it cannot parse, the loop of [load_file] on the same buffer
    is still running after any number of iterations, and so never returns
    the buffer to [main]. *)
Theorem where_tte_gives_up_load_file_spins (fuel : nat) (mem : list Z)
        (es : list Emit) :
  highlight fuel mem = Some (es, GaveUp) ->
  forall fuel', exists es',
    load_file_highlight fuel' mem = Some (es', OutOfFuel).
Proof.
  unfold highlight, load_file_highlight.
  destruct (parse_space mem 0%nat) as [[p0 ws]|] eqn:Hsp; simpl;
    [|discriminate].
  assert (Hp0 : forall c, mem !! p0 = Some c -> is_space c = false).
  { destruct (write_while_run _ _ _ _ _ _ Hsp) as [_ (c0 & Hc0 & Hf)].
    intros c1 Hc1. congruence. }
  destruct (highlight_loop fuel mem p0) as [[es1 e1]|] eqn:H1; simpl;
    [|discriminate].
  intros [= <- ->] fuel'.
  destruct (gives_up_spins _ _ _ _ Hp0 H1 fuel') as [es' ->].
  simpl. eexists. reflexivity.
Qed.

Lemma where_tte_gives_up_load_file_spins_witness :
  let mem := bytes "a + b" ++ [NUL] in
  exists es', load_file_highlight 1000 mem = Some (es', OutOfFuel).
Proof.
  intros mem.
  apply (where_tte_gives_up_load_file_spins 6 mem
           [Span Identifier (bytes "a"); Span Whitespace [SPACE]; Diagnostic 43]).
  reflexivity.
Defined.

(** X19.  A NUL byte reaches the terminal exactly when a block comment is
    highlighted.  The escape sequence that opens a block comment is
    written with a length of 5, one more than its 4 bytes, so the NUL that
    ends the string constant is written too; the other sequences are
    written with their own length and the spans hold no NUL.  So for every
    run of either highlighter that ends (at the NUL, or in tte.cpp at a
    byte it cannot parse), the bytes passed to [write] on descriptor 1
    hold a NUL if and only if one of the spans is a block comment. *)
Theorem nul_written_iff_block_comment (mem : list Z) (fuel : nat)
        (es : list Emit) (e : ScanEnd) :
  In NUL mem ->
  (highlight fuel mem = Some (es, e) /\ e <> OutOfFuel) \/
  (load_file_highlight fuel mem = Some (es, e) /\ e = Finished) ->
  (In NUL (written 1 (concat (map render es))) <->
   exists text, In (Span BlockComment text) es).
Proof.
  intros Hin Hrun. apply written_render_spans.
  pose proof (cstring_no_nul mem) as Hno.
  destruct Hrun as [[Hh He]|[Hl ->]].
  - destruct (highlight_text_prefix fuel mem es e Hin Hh He) as [rest Hrest].
    rewrite Hrest, in_app_iff in Hno. tauto.
  - rewrite (load_file_text fuel mem es Hin Hl) in Hno. exact Hno.
Qed.

Lemma nul_written_iff_block_comment_witness :
  let mem := bytes "/**/ x" ++ [NUL] in
  In NUL (written 1 (concat (map render
            [Span BlockComment (bytes "/**/"); Span Whitespace [SPACE];
             Span Identifier (bytes "x")]))).
Proof.
  intros mem.
  apply (nul_written_iff_block_comment mem 7 _ Finished).
  - do 6 right. now left.
  - left. split; [reflexivity|discriminate].
  - exists (bytes "/**/"). now left.
Defined.

(** X11.  The decimal printers print the number.  For a 64-bit unsigned
    number [u64_to_str] gives between 1 and 20 decimal digits, with no
    leading zero unless the number is 0, whose value is the number; and
    [s64_to_str] gives the same for a number from 0 up, and a minus sign
    followed by the digits of the absolute value for a negative number
    above the least 64-bit one. *)
Theorem decimal_printers_round_trip (num : Z) :
  (0 <= num < 2 ^ 64 ->
   decimal_value (u64_to_str num) = num /\
   forallb is_digit (u64_to_str num) = true /\
   (0 < length (u64_to_str num) <= 20)%nat /\
   (num <> 0 -> hd 48 (u64_to_str num) <> 48)) /\
  (0 <= num < 2 ^ 63 -> s64_to_str num = u64_to_str num) /\
  (- 2 ^ 63 < num < 0 ->
   exists digits, s64_to_str num = 45 :: digits /\
                  forallb is_digit digits = true /\
                  decimal_value digits = - num).
Proof.
  split; [apply u64_to_str_spec|]. split.
  - intros Hnum. unfold s64_to_str.
    destruct (Z.ltb_spec num 0); [lia|reflexivity].
  - intros Hnum. unfold s64_to_str.
    destruct (Z.ltb_spec num 0); [|lia].
    rewrite wrap_small by lia.
    destruct (u64_to_str_spec (- num)) as (Hv & Hd & _); [lia|].
    eexists. split; [reflexivity|]. split; [exact Hd|exact Hv].
Qed.

Lemma decimal_printers_round_trip_witness :
  decimal_value (u64_to_str 18446744073709551615) = 18446744073709551615 /\
  s64_to_str 80 = u64_to_str 80 /\
  exists digits, s64_to_str (-4096) = 45 :: digits /\
                 decimal_value digits = 4096.
Proof.
  split.
  { apply (decimal_printers_round_trip 18446744073709551615). lia. }
  split.
  { apply (decimal_printers_round_trip 80). lia. }
  destruct (decimal_printers_round_trip (-4096)) as (_ & _ & H).
  destruct H as (digits & Hs & _ & Hv); [lia|].
  exists digits. split; [exact Hs|exact Hv].
Defined.

(** X18.  UP and DOWN tell the terminal the column they set.  On a
    NUL-terminated buffer of less than 2^63 bytes, from a cursor on a line
    with the column its distance from the start of the line, each of the
    two keys either leaves offset and column and writes nothing, or
    writes ESC [ E (DOWN) or ESC [ F (UP), which put the terminal cursor
    at the start of the next or the previous line, followed, when the new
    column is not 0, by ESC [ digits C where the digits are the new column
    in decimal. *)
Theorem vertical_keys_write_the_new_column (mem : list Z) (n : nat)
        (pos col : Z) :
  nul_at mem n -> Z.of_nat (length mem) < 2 ^ 63 -> on_line mem n pos col ->
  (exists pos' col' evs,
     key_down mem pos col = Some (pos', col', evs) /\
     ((pos' = pos /\ col' = col /\ evs = []) \/
      moves_cursor (ESC :: bytes "[E") col' evs)) /\
  (exists pos' col' evs,
     key_up mem pos col = Some (pos', col', evs) /\
     ((pos' = pos /\ col' = col /\ evs = []) \/
      moves_cursor (ESC :: bytes "[F") col' evs)).
Proof.
  intros Hnul Hsize Hon.
  assert (Hsize' : Z.of_nat (length mem) < 2 ^ 64) by lia.
  pose proof (nul_in_bounds mem n Hnul) as Hn.
  assert (Hbound : forall p c, on_line mem n p c -> 0 <= c < 2 ^ 63).
  { intros p c (s & e & (Hs & _) & He & -> & Hc & Hpe). lia. }
  split.
  - destruct (key_down_on_line mem n Hnul Hsize' pos col Hon)
      as (pos' & col' & evs & Hk & Hon').
    exists pos', col', evs. split; [exact Hk|].
    exact (key_down_events _ _ _ _ _ _ Hk (Hbound _ _ Hon')).
  - destruct (key_up_on_line mem n Hnul Hsize' pos col Hon)
      as (pos' & col' & evs & Hk & Hon').
    exists pos', col', evs. split; [exact Hk|].
    exact (key_up_events _ _ _ _ _ _ Hk (Hbound _ _ Hon')).
Qed.

Lemma vertical_keys_write_the_new_column_witness :
  let mem := bytes "ab" ++ [LF] ++ bytes "cd" ++ [NUL] in
  exists pos' col' evs,
    key_down mem 1 1 = Some (pos', col', evs) /\
    ((pos' = 1 /\ col' = 1 /\ evs = []) \/
     moves_cursor (ESC :: bytes "[E") col' evs).
Proof.
  intros mem.
  assert (Hnul : nul_at mem 5).
  { split; [reflexivity|]. intros i c Hi.
    do 5 (destruct i as [|i]; [intros [= <-]; discriminate|]). lia. }
  destruct (vertical_keys_write_the_new_column mem 5 1 1 Hnul) as [Hd _];
    [simpl; lia| |exact Hd].
  exists 0, 2. split; [|lia].
  split; [lia|]. split; [now left|]. split.
  - intros i Hi. assert (Hc : i = 0 \/ i = 1) by lia.
    destruct Hc as [-> | ->]; eexists; (split; [reflexivity|split; discriminate]).
  - exists LF. split; [reflexivity|now right].
Defined.

(** X12.  In the second prototype UP reads outside the buffer once RIGHT
    or a printable byte has moved the column past the offset: RIGHT and
    the printable bytes add 1 to [x] and leave [y], UP takes [x + 1] from
    [y] as [size_t], and the loop that follows reads [buffer.data[y - 1]]
    at an index just below 2^64.  So RIGHT then UP, as the first two keys
    on any buffer, leaves the run undefined. *)
Theorem tte2_right_then_up_reads_outside :
  (forall st,
     0 <= Tte2.y st < Tte2.x st -> Tte2.x st < 2 ^ 64 - 1 ->
     Z.of_nat (length (Tte2.data (Tte2.buffer st)))
       + (Tte2.x st - Tte2.y st) + 2 <= 2 ^ 64 ->
     Tte2.dispatch st (arrow 65) = None) /\
  (forall b t1 t2 turns,
     Z.of_nat (length (Tte2.data b)) + 3 <= 2 ^ 64 ->
     input_read t1 = Read_bytes (arrow 67) ->
     input_read t2 = Read_bytes (arrow 65) ->
     Tte2.input_loop (t1 :: t2 :: turns) (Tte2.start b) = None).
Proof.
  assert (Hup : forall st,
     0 <= Tte2.y st < Tte2.x st -> Tte2.x st < 2 ^ 64 - 1 ->
     Z.of_nat (length (Tte2.data (Tte2.buffer st)))
       + (Tte2.x st - Tte2.y st) + 2 <= 2 ^ 64 ->
     Tte2.dispatch st (arrow 65) = None).
  { intros st Hy Hx Hlen. unfold Tte2.dispatch, arrow.
    change ((ESC =? ESC) && (LBRACKET =? LBRACKET)) with true.
    change (65 =? 65) with true. cbv iota.
    rewrite key_up_outside by assumption. reflexivity. }
  split; [exact Hup|].
  intros b t1 t2 turns Hlen H1 H2.
  eapply (Tte2_input_loop_step t1 (t2 :: turns) (Tte2.start b));
    [discriminate|exact H1|reflexivity|].
  apply Tte2_input_loop_undefined with (input := arrow 65);
    [discriminate|exact H2|].
  intros l. apply Hup; cbn; change (wrap (0 + 1)) with 1; lia.
Qed.

Lemma tte2_right_then_up_reads_outside_witness :
  Tte2.input_loop [chunk (arrow 67); chunk (arrow 65)]
                  (Tte2.start {| Tte2.data := bytes "ab" ++ [NUL];
                                 Tte2.used := 3; Tte2.size := 3 |}) = None.
Proof.
  destruct tte2_right_then_up_reads_outside as [_ H].
  apply H; [simpl; lia|reflexivity|reflexivity].
Defined.

(** X13.  In the second prototype Enter adds 1 to [y] without looking at
    the buffer, and DOWN starts by reading [buffer.data[y]].  After as
    many Enter keys as the buffer has initialised bytes, or more, DOWN
    reads outside them; with no file named the buffer of [new_buffer] has
    none, and DOWN as the first key already does. *)
Theorem tte2_enter_then_down_reads_outside (b : Tte2.Buffer)
        (enters : list turn) (t : turn) (turns : list turn) :
  Forall (fun t => input_read t = Read_bytes [LF]) enters ->
  Z.of_nat (length (Tte2.data b)) <= Z.of_nat (length enters) < 2 ^ 64 ->
  input_read t = Read_bytes (arrow 66) ->
  Tte2.input_loop (enters ++ t :: turns) (Tte2.start b) = None.
Proof.
  intros Hall Hlen Ht.
  destruct (Tte2_enters enters (Tte2.start b) Hall) as (st' & evs & Hl & Hb & Hy & Hk);
    [discriminate|simpl; lia|simpl; lia|].
  rewrite (Tte2_input_loop_app _ _ _ _ _ Hl).
  rewrite (Tte2_input_loop_undefined t turns st' _ Hk Ht); [reflexivity|].
  intros l. unfold Tte2.dispatch, arrow.
  change ((ESC =? ESC) && (LBRACKET =? LBRACKET)) with true.
  change (66 =? 65) with false. change (66 =? 66) with true. cbv iota.
  cbn [Tte2.buffer Tte2.y Tte2.x Tte2.set_line_buffer].
  rewrite key_down_outside; [reflexivity|].
  rewrite Hb, Hy. simpl. lia.
Qed.

Lemma tte2_enter_then_down_reads_outside_witness :
  Tte2.input_loop [chunk (arrow 66)] (Tte2.start (Tte2.new_buffer 4096)) = None.
Proof.
  apply (tte2_enter_then_down_reads_outside (Tte2.new_buffer 4096) []
           (chunk (arrow 66)) []);
    [constructor|simpl; lia|reflexivity].
Defined.

(** X16.  With UP and DOWN alone the second prototype is sound: on a
    NUL-terminated buffer, from a state where [y] is an offset on a line
    and [x] its distance from the start of that line (as at the start,
    where both are 0), the input loop is defined on every series of UP and
    DOWN keys and ends in such a state.  The reads outside the buffer come
    from the keys that change [x] or [y] alone. *)
Theorem tte2_up_down_keep_cursor_sound (b : Tte2.Buffer) (n : nat)
        (turns : list turn) :
  nul_at (Tte2.data b) n -> Z.of_nat (length (Tte2.data b)) < 2 ^ 64 ->
  Forall vertical turns ->
  exists e st' evs,
    Tte2.input_loop turns (Tte2.start b) = Some (e, st', evs) /\
    Tte2.buffer st' = b /\
    on_line (Tte2.data b) n (Tte2.y st') (Tte2.x st').
Proof.
  intros Hnul Hsize Hall.
  destruct (Tte2_vertical_ok (Tte2.data b) n turns (Tte2.start b) Hnul Hsize)
    as (e & st' & evs & Hl & _ & Hon); [reflexivity| |exact Hall|].
  - destruct (Tte_start_ok _ _ Hnul) as [_ Hon]. exact Hon.
  - exists e, st', evs. split; [exact Hl|]. split; [|exact Hon].
    exact (Tte2_input_loop_frame _ _ _ _ _ Hl).
Qed.

Lemma tte2_up_down_keep_cursor_sound_witness :
  let b := {| Tte2.data := bytes "ab" ++ [LF] ++ bytes "c" ++ [NUL];
              Tte2.used := 5; Tte2.size := 5 |} in
  exists e st' evs,
    Tte2.input_loop (map chunk [arrow 66; arrow 66; arrow 65; arrow 65])
                    (Tte2.start b) = Some (e, st', evs) /\
    Tte2.buffer st' = b /\
    on_line (Tte2.data b) 4 (Tte2.y st') (Tte2.x st').
Proof.
  intros b.
  apply (tte2_up_down_keep_cursor_sound b 4).
  - split; [reflexivity|]. intros i c Hi.
    do 4 (destruct i as [|i]; [intros [= <-]; discriminate|]). lia.
  - simpl. lia.
  - repeat constructor; (now left) || (now right).
Defined.

(** X17.  [load_file] never reads outside the buffer it fills: for every
    environment and every bound on the iterations of its highlighting loop
    it is defined.  With [fstat] and [read] succeeding, its assert fails
    exactly when the file does not open; otherwise it is still
    highlighting when the bound is reached, or
    it returns a buffer that holds the file followed by a NUL, with
    [used] and [size] both the number of those bytes. *)
Theorem tte2_load_file_defined (fuel : nat) (w : World) (filepath : list Z) :
  exists l evs,
    Tte2.load_file fuel w filepath = Some (l, evs) /\
    match w_open w filepath with
    | None => l = Tte2.Load_assert "fd != -1"
    | Some content =>
        l = Tte2.Load_scanning \/
        exists b, l = Tte2.Loaded_buffer b /\
                  Tte2.data b = content ++ [NUL] /\
                  Tte2.used b = Z.of_nat (length (Tte2.data b)) /\
                  Tte2.size b = Tte2.used b
    end.
Proof.
  unfold Tte2.load_file.
  destruct (w_open w filepath) as [content|];
    [|eexists _, _; split; reflexivity].
  cbn [Tte2.data].
  destruct (load_file_highlight_defined fuel (content ++ [NUL]))
    as (es & e & -> & He).
  { apply in_or_app. right. now left. }
  cbn [mbind option_bind].
  destruct e; [| contradiction |].
  - eexists _, _. split; [reflexivity|]. right. eexists. split; [reflexivity|].
    cbn [Tte2.data Tte2.used Tte2.size]. split; [reflexivity|].
    split; [|reflexivity]. rewrite length_app. simpl. lia.
  - eexists _, _. split; [reflexivity|]. now left.
Qed.

(** X14.  Neither program returns 0 unless a quit key was read.  When
    [main] of tte.cpp returns 0 some [read] delivered the single byte ESC,
    and when [main] of the second prototype returns 0 some [read]
    delivered the single byte ESC or the single byte 17 (Ctrl-Q). *)
Theorem exit_0_only_after_a_quit_key :
  (forall w st trace,
     Tte.main w = Some (Returned 0, st, trace) ->
     Exists Tte_quits (w_stdin w)) /\
  (forall fuel w st trace,
     Tte2.main fuel w = Some (Returned 0, st, trace) ->
     Exists Tte2_quits (w_stdin w)).
Proof.
  split.
  - intros w st trace. unfold Tte.main.
    destruct (init (argv0 w) (w_TERM w)) as [[|] ev_init]; simpl;
      [|discriminate].
    destruct (Tte.initial_buffer w) as [buf|what]; [|discriminate].
    destruct (highlight (scan_fuel buf) buf) as [[es e0]|]; simpl;
      [|discriminate].
    destruct e0; [|discriminate|discriminate].
    unfold Tte.edit.
    destruct (w_tcgetattr w) as [original|]; [|discriminate].
    destruct (w_tcsetattr w TCSANOW); simpl; [|discriminate].
    destruct (Tte.input_loop (w_stdin w) (Tte.start buf))
      as [[[e' st'] evs]|] eqn:Hloop; simpl; [|discriminate].
    destruct e'; [|discriminate|discriminate].
    intros _. apply (Tte_input_loop_left _ _ _ _ Hloop). discriminate.
  - intros fuel w st trace Hmain.
    destruct (Tte2_main_cases fuel w _ _ _ Hmain)
      as [(Hne & _)|(buf & before & trace' & _ & _ & Hedit)]; [congruence|].
    revert Hedit. unfold Tte2.edit.
    destruct (Tte2.init_screen w) as [[original|what] ev_screen]; [|discriminate].
    destruct (Tte2.input_loop (w_stdin w) (Tte2.start buf))
      as [[[e' st'] evs]|] eqn:Hloop; simpl; [|discriminate].
    destruct e'; [|discriminate|discriminate].
    intros _. apply (Tte2_input_loop_left _ _ _ _ Hloop). discriminate.
Qed.

Lemma exit_0_only_after_a_quit_key_witness :
  Exists Tte_quits (w_stdin (example_world [arrow 67; [ESC]])) /\
  Exists Tte2_quits (w_stdin (example_world [bytes "a"; [17]])).
Proof.
  destruct exit_0_only_after_a_quit_key as [H1 H2]. split.
  - eapply (H1 (example_world [arrow 67; [ESC]])). vm_compute. reflexivity.
  - eapply (H2 1%nat (example_world [bytes "a"; [17]])). vm_compute. reflexivity.
Defined.
